(** * form: Go structs to and from URL-encoded request forms

    A shallow embedding of [form.go] (package [form] of hunterwilkins2/form):
    [Unmarshal] fills the fields of a struct from the parsed form of a request,
    [Marshal] writes the tagged fields of a struct into the request's query.

    The Go library functions the package calls ([strconv], [fmt], [net/url],
    [reflect]) are modelled in their own modules, each function next to a
    note of what it stands for.  Integers are [Z] with the wrap-around of
    their width written out, strings are [string], floats are IEEE-754 data
    ([spec_float]), [url.Values] is a finite map from keys to value lists. *)

From Stdlib Require Import ZArith Lia String Ascii List Bool.
From Stdlib Require Import Floats.SpecFloat.
From stdpp Require Import gmap strings list sorting.

Local Open Scope Z_scope.

(** ** Go errors *)

(** The two sentinel errors of [strconv]. *)
Inductive errkind := ErrSyntax | ErrRange.

(** [*strconv.NumError]: the failing function, its input, and the cause. *)
Record NumError := mkNumError { Func : string; Num : string; Cause : errkind }.

(** The [error] values that reach this package: a [*strconv.NumError], an
    error made by [fmt.Errorf], or an error of the request parser. *)
Inductive error :=
| ENum (e : NumError)
| Errorf (msg : string)
| EParse (msg : string).

(** ** strconv *)
Module Strconv.

Definition code (c : ascii) : Z := Z.of_N (N_of_ascii c).

Definition isDigit (c : ascii) : bool := (48 <=? code c) && (code c <=? 57).

Definition digit (d : Z) : ascii := ascii_of_N (Z.to_N (48 + d)).

Definition maxUint64 : Z := 2 ^ 64 - 1.

Definition syntaxError (fn s : string) : NumError := mkNumError fn s ErrSyntax.
Definition rangeError (fn s : string) : NumError := mkNumError fn s ErrRange.

(** [strconv.ParseBool]. *)
Definition ParseBool (str : string) : bool * option NumError :=
  if decide (str ∈ ["1"; "t"; "T"; "true"; "TRUE"; "True"]%string) then (true, None)
  else if decide (str ∈ ["0"; "f"; "F"; "false"; "FALSE"; "False"]%string) then (false, None)
  else (false, Some (syntaxError "ParseBool" str)).

(** The digit loop of [strconv.ParseUint] at base 10 and bit size 64:
    [n] is the number read so far, a [uint64].  At base 10 an underscore,
    a letter or any other byte is a syntax error. *)
Fixpoint parseUintLoop (s0 : string) (cs : string) (n : Z) : Z * option NumError :=
  match cs with
  | EmptyString => (n, None)
  | String c rest =>
      if isDigit c then
        let d := code c - 48 in
        let cutoff := maxUint64 / 10 + 1 in
        let maxVal := maxUint64 in
        if cutoff <=? n then (maxVal, Some (rangeError "ParseUint" s0))
        else
          let n := n * 10 in
          let n1 := (n + d) mod 2 ^ 64 in
          if (n1 <? n) || (maxVal <? n1) then (maxVal, Some (rangeError "ParseUint" s0))
          else parseUintLoop s0 rest n1
      else (0, Some (syntaxError "ParseUint" s0))
  end.

(** [strconv.ParseUint(s, 10, 64)]. *)
Definition ParseUint (s : string) : Z * option NumError :=
  match s with
  | EmptyString => (0, Some (syntaxError "ParseUint" s))
  | _ => parseUintLoop s s 0
  end.

(** [strconv.ParseInt(s, 10, 64)]: a leading sign, then [ParseUint] on
    the rest; a syntax error is re-labelled with this function and the
    whole input, and the magnitude is checked against [1<<63]. *)
Definition ParseInt (s : string) : Z * option NumError :=
  match s with
  | EmptyString => (0, Some (syntaxError "ParseInt" s))
  | String c rest =>
      let s0 := s in
      let '(neg, s) :=
        if Ascii.eqb c "+" then (false, rest)
        else if Ascii.eqb c "-" then (true, rest)
        else (false, s) in
      let '(un, err) := ParseUint s in
      match err with
      | Some (mkNumError _ _ ErrSyntax) => (0, Some (syntaxError "ParseInt" s0))
      | _ =>
          let cutoff := 2 ^ 63 in
          if negb neg && (cutoff <=? un) then (cutoff - 1, Some (rangeError "ParseInt" s0))
          else if neg && (cutoff <? un) then (- cutoff, Some (rangeError "ParseInt" s0))
          else (if neg then - un else un, None)
      end
  end.

(** Decimal digits of [u >= 0], most significant first, put in front of
    [acc]: the loop of [strconv.FormatUint] at base 10. *)
Fixpoint formatBits (fuel : nat) (u : Z) (acc : string) : string :=
  match fuel with
  | O => acc
  | S fuel' =>
      if u <? 10 then String (digit u) acc
      else formatBits fuel' (u / 10) (String (digit (u mod 10)) acc)
  end.

(** [strconv.FormatUint(u, 10)]; a number has no more decimal digits than
    binary ones, which bounds the loop. *)
Definition FormatUint (u : Z) : string :=
  formatBits (S (Z.to_nat (Z.log2 u))) u EmptyString.

(** [strconv.FormatInt(i, 10)]. *)
Definition FormatInt (i : Z) : string :=
  if i <? 0 then String "-" (FormatUint (- i)) else FormatUint i.

End Strconv.

(** ** Floating point

    A [float64] is its IEEE-754 datum: a signed zero, a signed infinity, NaN,
    or [(-1)^s * m * 2^e].  Nothing below depends on the pair [(m, e)] being
    the normalised one. *)
Module Float.

Definition MaxFloat32 : spec_float := S754_finite false (2 ^ 24 - 1) 104.
Definition MaxFloat64 : spec_float := S754_finite false (2 ^ 53 - 1) 971.

Definition is_finite (x : spec_float) : bool :=
  match x with S754_zero _ | S754_finite _ _ _ => true | _ => false end.

Definition sign (x : spec_float) : bool :=
  match x with
  | S754_zero s | S754_infinity s | S754_finite s _ _ => s
  | S754_nan => false
  end.

(** [math.Abs]. *)
Definition fabs (x : spec_float) : spec_float :=
  match x with
  | S754_zero _ => S754_zero false
  | S754_infinity _ => S754_infinity false
  | S754_nan => S754_nan
  | S754_finite _ m e => S754_finite false m e
  end.

(** [m1 * 2^e1] against [m2 * 2^e2], both brought to the smaller exponent. *)
Definition cmp_mag (m1 : positive) (e1 : Z) (m2 : positive) (e2 : Z) : comparison :=
  let e := Z.min e1 e2 in
  Z.compare (Zpos m1 * 2 ^ (e1 - e)) (Zpos m2 * 2 ^ (e2 - e)).

(** The order of the extended reals; [None] when an operand is NaN. *)
Definition compare (x y : spec_float) : option comparison :=
  match x, y with
  | S754_nan, _ | _, S754_nan => None
  | S754_infinity s1, S754_infinity s2 =>
      Some (if s1 then (if s2 then Eq else Lt) else (if s2 then Gt else Eq))
  | S754_infinity s, _ => Some (if s then Lt else Gt)
  | _, S754_infinity s => Some (if s then Gt else Lt)
  | S754_zero _, S754_zero _ => Some Eq
  | S754_zero _, S754_finite s _ _ => Some (if s then Gt else Lt)
  | S754_finite s _ _, S754_zero _ => Some (if s then Lt else Gt)
  | S754_finite s1 m1 e1, S754_finite s2 m2 e2 =>
      Some (if s1 then (if s2 then cmp_mag m2 e2 m1 e1 else Lt)
            else (if s2 then Gt else cmp_mag m1 e1 m2 e2))
  end.

(** The Go operators [<] and [<=], false when an operand is NaN. *)
Definition lt (x y : spec_float) : bool :=
  match compare x y with Some Lt => true | _ => false end.
Definition le (x y : spec_float) : bool :=
  match compare x y with Some Lt | Some Eq => true | _ => false end.

(** The conversion [float32(x)], read back as a [float64]: rounding to
    24 bits of precision, to nearest, ties to even. *)
Definition float32 (x : spec_float) : spec_float :=
  match x with
  | S754_finite s m e => binary_normalize 24 128 (cond_Zopp s (Zpos m)) e s
  | _ => x
  end.

End Float.

(** ** reflect *)

(** [reflect.Kind], in the order of its declaration. *)
Module Kind.
Inductive t :=
| Invalid | Bool
| Int | Int8 | Int16 | Int32 | Int64
| Uint | Uint8 | Uint16 | Uint32 | Uint64 | Uintptr
| Float32 | Float64 | Complex64 | Complex128
| Array | Chan | Func | Interface | Map | Pointer | Slice
| String | Struct | UnsafePointer.

#[global] Instance eq_dec : EqDecision t.
Proof. solve_decision. Defined.
End Kind.

Module Reflect.

(** The predeclared types whose kind is their name. *)
Inductive basic :=
| Tbool
| Tint | Tint8 | Tint16 | Tint32 | Tint64
| Tuint | Tuint8 | Tuint16 | Tuint32 | Tuint64 | Tuintptr
| Tfloat32 | Tfloat64 | Tcomplex64 | Tcomplex128
| Tstring.

(** The kinds of the types that are not looked into. *)
Inductive opaque := OChan | OFunc | OInterface | OMap | OStruct | OUnsafePointer.

Definition opaque_kind (k : opaque) : Kind.t :=
  match k with
  | OChan => Kind.Chan | OFunc => Kind.Func | OInterface => Kind.Interface
  | OMap => Kind.Map | OStruct => Kind.Struct | OUnsafePointer => Kind.UnsafePointer
  end.

(** [reflect.Type]: predeclared types, the composite types the package
    looks into, defined (named) types, and every other type, of which only
    the kind and the printed form are observed. *)
Inductive type :=
| Basic (b : basic)
| ArrayOf (len : nat) (elem : type)
| SliceOf (elem : type)
| PointerTo (elem : type)
| Named (name str : string) (underlying : type)
| Opaque (k : opaque) (str : string).

Definition basic_kind (b : basic) : Kind.t :=
  match b with
  | Tbool => Kind.Bool
  | Tint => Kind.Int | Tint8 => Kind.Int8 | Tint16 => Kind.Int16
  | Tint32 => Kind.Int32 | Tint64 => Kind.Int64
  | Tuint => Kind.Uint | Tuint8 => Kind.Uint8 | Tuint16 => Kind.Uint16
  | Tuint32 => Kind.Uint32 | Tuint64 => Kind.Uint64 | Tuintptr => Kind.Uintptr
  | Tfloat32 => Kind.Float32 | Tfloat64 => Kind.Float64
  | Tcomplex64 => Kind.Complex64 | Tcomplex128 => Kind.Complex128
  | Tstring => Kind.String
  end.

Definition basic_name (b : basic) : string :=
  match b with
  | Tbool => "bool"
  | Tint => "int" | Tint8 => "int8" | Tint16 => "int16"
  | Tint32 => "int32" | Tint64 => "int64"
  | Tuint => "uint" | Tuint8 => "uint8" | Tuint16 => "uint16"
  | Tuint32 => "uint32" | Tuint64 => "uint64" | Tuintptr => "uintptr"
  | Tfloat32 => "float32" | Tfloat64 => "float64"
  | Tcomplex64 => "complex64" | Tcomplex128 => "complex128"
  | Tstring => "string"
  end.

(** [Type.Kind()]. *)
Fixpoint TypeKind (t : type) : Kind.t :=
  match t with
  | Basic b => basic_kind b
  | ArrayOf _ _ => Kind.Array
  | SliceOf _ => Kind.Slice
  | PointerTo _ => Kind.Pointer
  | Named _ _ u => TypeKind u
  | Opaque k _ => opaque_kind k
  end.

(** [Type.String()]. *)
Fixpoint TypeString (t : type) : string :=
  match t with
  | Basic b => basic_name b
  | ArrayOf n e => "[" +:+ Strconv.FormatInt (Z.of_nat n) +:+ "]" +:+ TypeString e
  | SliceOf e => "[]" +:+ TypeString e
  | PointerTo e => "*" +:+ TypeString e
  | Named _ str _ => str
  | Opaque _ str => str
  end.

(** [Type.Name()]: empty for a type that is not defined. *)
Definition TypeName (t : type) : string :=
  match t with
  | Basic b => basic_name b
  | Named name _ _ => name
  | _ => EmptyString
  end.

(** [Type.Elem()] of an array, slice or pointer type. *)
Fixpoint TypeElem (t : type) : type :=
  match t with
  | ArrayOf _ e | SliceOf e | PointerTo e => e
  | Named _ _ u => TypeElem u
  | _ => t
  end.

(** [Type.Len()] of an array type. *)
Fixpoint TypeLen (t : type) : nat :=
  match t with
  | ArrayOf n _ => n
  | Named _ _ u => TypeLen u
  | _ => O
  end.

(** [strconv.IntSize]: [int] and [uint] are 64 bits wide. *)
Definition IntSize : Z := 64.

(** [Type.Size() * 8] for the integer kinds. *)
Definition bitSize (k : Kind.t) : Z :=
  match k with
  | Kind.Int8 | Kind.Uint8 => 8
  | Kind.Int16 | Kind.Uint16 => 16
  | Kind.Int32 | Kind.Uint32 => 32
  | Kind.Int64 | Kind.Uint64 => 64
  | _ => IntSize
  end.

(** What a variable holds, by the kind of its type: arrays and slices
    hold their elements in order (a nil slice is the empty sequence);
    values of the other kinds are not looked into. *)
#[warnings="-register-all"]
Inductive data :=
| DString (s : string)
| DBool (b : bool)
| DInt (n : Z)
| DUint (n : Z)
| DFloat (x : spec_float)
| DComplex (re im : spec_float)
| DSeq (elems : list data)
| DOpaque (content : string).

(** [reflect.Value]: a type, the content of the variable it refers to,
    and the read-only flag of a value reached through an unexported
    field.  Every value here is addressable. *)
Record Value := mkValue { typ : type; dat : data; flagRO : bool }.

Definition ValueKind (v : Value) : Kind.t := TypeKind (typ v).
Definition IsValid (v : Value) : bool := bool_decide (ValueKind v ≠ Kind.Invalid).
Definition CanSet (v : Value) : bool := negb (flagRO v).

(** The accessors [Value.String], [Bool], [Int], [Uint], [Float],
    [Complex], each used only on a value of its kind. *)
Definition getString (d : data) : string := match d with DString s => s | _ => EmptyString end.
Definition getBool (d : data) : bool := match d with DBool b => b | _ => false end.
Definition getInt (d : data) : Z := match d with DInt n => n | _ => 0 end.
Definition getUint (d : data) : Z := match d with DUint n => n | _ => 0 end.
Definition getFloat (d : data) : spec_float :=
  match d with DFloat x => x | _ => S754_zero false end.
Definition getComplex (d : data) : spec_float * spec_float :=
  match d with DComplex re im => (re, im) | _ => (S754_zero false, S754_zero false) end.
Definition getElems (d : data) : list data := match d with DSeq l => l | _ => [] end.

(** Two's complement readings of the low [w] bits. *)
Definition wrapU (w : Z) (x : Z) : Z := x mod 2 ^ w.
Definition wrapS (w : Z) (x : Z) : Z := (x + 2 ^ (w - 1)) mod 2 ^ w - 2 ^ (w - 1).

(** [Value.OverflowInt(x)]: [x != (x << (64 - bitSize)) >> (64 - bitSize)]
    on [int64]. *)
Definition OverflowInt (v : Value) (x : Z) : bool :=
  let bitSize := bitSize (ValueKind v) in
  let trunc := Z.shiftr (wrapS 64 (Z.shiftl x (64 - bitSize))) (64 - bitSize) in
  negb (x =? trunc).

(** [Value.OverflowUint(x)], the same on [uint64]. *)
Definition OverflowUint (v : Value) (x : Z) : bool :=
  let bitSize := bitSize (ValueKind v) in
  let trunc := Z.shiftr (wrapU 64 (Z.shiftl x (64 - bitSize))) (64 - bitSize) in
  negb (x =? trunc).

(** [Value.SetInt(x)] and [Value.SetUint(x)] store the conversion of [x]
    to the width of the kind. *)
Definition SetInt (v : Value) (x : Z) : data := DInt (wrapS (bitSize (ValueKind v)) x).
Definition SetUint (v : Value) (x : Z) : data := DUint (wrapU (bitSize (ValueKind v)) x).

(** [overflowFloat32]: [MaxFloat32 < |x| && |x| <= MaxFloat64]. *)
Definition overflowFloat32 (x : spec_float) : bool :=
  let x := Float.fabs x in Float.lt Float.MaxFloat32 x && Float.le x Float.MaxFloat64.

(** [Value.OverflowFloat(x)]. *)
Definition OverflowFloat (v : Value) (x : spec_float) : bool :=
  match ValueKind v with
  | Kind.Float32 => overflowFloat32 x
  | _ => false
  end.

(** [Value.OverflowComplex(x)]. *)
Definition OverflowComplex (v : Value) (x : spec_float * spec_float) : bool :=
  match ValueKind v with
  | Kind.Complex64 => overflowFloat32 (fst x) || overflowFloat32 (snd x)
  | _ => false
  end.

(** [Value.SetFloat(x)] and [Value.SetComplex(x)]. *)
Definition SetFloat (v : Value) (x : spec_float) : data :=
  match ValueKind v with
  | Kind.Float32 => DFloat (Float.float32 x)
  | _ => DFloat x
  end.
Definition SetComplex (v : Value) (x : spec_float * spec_float) : data :=
  match ValueKind v with
  | Kind.Complex64 => DComplex (Float.float32 (fst x)) (Float.float32 (snd x))
  | _ => DComplex (fst x) (snd x)
  end.

(** [reflect.Zero(t)]: the content of a fresh variable of type [t]. *)
Fixpoint zero (t : type) : data :=
  match t with
  | Basic b =>
      match basic_kind b with
      | Kind.Bool => DBool false
      | Kind.Int | Kind.Int8 | Kind.Int16 | Kind.Int32 | Kind.Int64 => DInt 0
      | Kind.String => DString EmptyString
      | Kind.Float32 | Kind.Float64 => DFloat (S754_zero false)
      | Kind.Complex64 | Kind.Complex128 => DComplex (S754_zero false) (S754_zero false)
      | _ => DUint 0
      end
  | ArrayOf n e => DSeq (replicate n (zero e))
  | SliceOf _ => DSeq []
  | PointerTo _ => DOpaque EmptyString
  | Named _ _ u => zero u
  | Opaque _ _ => DOpaque EmptyString
  end.

End Reflect.

(** ** fmt *)
Module Fmt.

(** [fmt.Sprintf("%t", b)]. *)
Definition Sprintf_t (b : bool) : string := if b then "true" else "false".

(** [fmt.Sprintf("%d", n)] of an [int64] or a [uint64]. *)
Definition Sprintf_d (n : Z) : string := Strconv.FormatInt n.

(** The quotient [num / den] of two naturals, [den > 0], rounded to the
    nearest integer, a tie going to the even neighbour. *)
Definition roundHalfEven (num den : Z) : Z :=
  let q := num / den in
  let r := num mod den in
  match 2 * r ?= den with
  | Lt => q
  | Gt => q + 1
  | Eq => if Z.even q then q else q + 1
  end.

(** [s] with zeros in front up to the width [w]. *)
Definition pad0 (w : nat) (s : string) : string :=
  Nat.iter (w - String.length s) (String "0") s.

(** [m * 2^e] as a fraction of naturals. *)
Definition fraction (m : positive) (e : Z) : Z * Z :=
  if 0 <=? e then (Zpos m * 2 ^ e, 1) else (Zpos m, 2 ^ (- e)).

(** The digits of [q / 10^prec], a point, and the [prec] digits of the rest. *)
Definition fixedDigits (prec : Z) (q : Z) : string :=
  Strconv.FormatUint (q / 10 ^ prec) +:+ "." +:+
  pad0 (Z.to_nat prec) (Strconv.FormatUint (q mod 10 ^ prec)).

(** The magnitude [m * 2^e] in the format [%f]: rounded to [prec] digits
    after the point. *)
Definition fmtF (prec : Z) (m : positive) (e : Z) : string :=
  let '(num, den) := fraction m e in
  fixedDigits prec (roundHalfEven (num * 10 ^ prec) den).

(** The number of decimal digits of [n > 0]. *)
Definition ndigits (n : Z) : Z := Z.of_nat (String.length (Strconv.FormatUint n)).

(** Is [10^k <= num / den]? *)
Definition gePow10 (num den k : Z) : bool :=
  if 0 <=? k then den * 10 ^ k <=? num else den <=? num * 10 ^ (- k).

(** The decimal exponent of [num / den > 0]: the [k] with
    [10^k <= num / den < 10^(k+1)], one of the two candidates that the
    digit counts leave. *)
Definition floorLog10 (num den : Z) : Z :=
  let k := ndigits num - ndigits den in
  if gePow10 num den k then k else k - 1.

(** [num / den] scaled by [10^(-s)] and rounded. *)
Definition roundScaled (num den s : Z) : Z :=
  if 0 <=? s then roundHalfEven num (den * 10 ^ s)
  else roundHalfEven (num * 10 ^ (- s)) den.

(** The magnitude [m * 2^e] in the format [%e]: one digit, a point,
    [prec] digits, and the decimal exponent with a sign and at least two
    digits; rounding that reaches the next power of ten moves the
    exponent. *)
Definition fmtE (prec : Z) (m : positive) (e : Z) : string :=
  let '(num, den) := fraction m e in
  let k := floorLog10 num den in
  let q := roundScaled num den (k - prec) in
  let '(q, k) := if 10 ^ (prec + 1) <=? q then (q / 10, k + 1) else (q, k) in
  fixedDigits prec q +:+ "e" +:+ (if k <? 0 then "-" else "+") +:+
  pad0 2 (Strconv.FormatUint (Z.abs k)).

Inductive verb := VerbE | VerbF.

(** [strconv.FormatFloat(x, verb, 6, 64)]. *)
Definition FormatFloat (v : verb) (x : spec_float) : string :=
  match x with
  | S754_nan => "NaN"
  | S754_infinity s => if s then "-Inf" else "+Inf"
  | S754_zero s =>
      (if s then "-" else "") +:+
      match v with VerbF => "0.000000" | VerbE => "0.000000e+00" end
  | S754_finite s m e =>
      (if s then "-" else "") +:+
      match v with VerbF => fmtF 6 m e | VerbE => fmtE 6 m e end
  end.

(** The method [fmtFloat] of [fmt.fmt]: the number always gets a sign first; NaN loses it
    again unless the plus flag is set, an infinity keeps it, and a finite
    number keeps a plus sign only under the plus flag. *)
Definition fmtFloat (plus : bool) (v : verb) (x : spec_float) : string :=
  let num := FormatFloat v x in
  let num :=
    match num with
    | String c _ => if Ascii.eqb c "-" || Ascii.eqb c "+" then num else String "+" num
    | EmptyString => String "+" num
    end in
  match num with
  | String c0 (String c1 rest as tail) =>
      if Ascii.eqb c1 "I" || Ascii.eqb c1 "N" then
        if Ascii.eqb c1 "N" && negb plus then tail else num
      else if plus || negb (Ascii.eqb c0 "+") then num
      else tail
  | _ => num
  end.

(** [fmt.Sprintf("%f", x)] of a [float64]. *)
Definition Sprintf_f (x : spec_float) : string := fmtFloat false VerbF x.

(** [fmt.Sprintf("%e", c)] of a [complex128], the method [fmtComplex] of the printer: both
    parts in the format [%e] between parentheses, the imaginary part under
    the plus flag and followed by [i]. *)
Definition Sprintf_e (c : spec_float * spec_float) : string :=
  "(" +:+ fmtFloat false VerbE (fst c) +:+ fmtFloat true VerbE (snd c) +:+ "i)".

End Fmt.

(** ** net/url *)
Module Url.

(** [url.Values] is [map[string][]string]. *)
Abbreviation Values := (gmap string (list string)).

(** [v[key]]: the values under a key, none when the key is absent. *)
Definition index (v : Values) (key : string) : list string := default [] (v !! key).

(** [Values.Add]: [v[key] = append(v[key], value)]. *)
Definition Add (key value : string) (v : Values) : Values :=
  <[key := index v key ++ [value]]> v.

(** [shouldEscape(c, encodeQueryComponent)]: letters, digits and [-_.~]
    are kept. *)
Definition shouldEscape (c : ascii) : bool :=
  let n := Strconv.code c in
  negb (((97 <=? n) && (n <=? 122)) || ((65 <=? n) && (n <=? 90)) ||
        ((48 <=? n) && (n <=? 57)) ||
        bool_decide (c ∈ ["-"; "_"; "."; "~"]%char)).

Definition upperhex (d : Z) : ascii :=
  ascii_of_N (Z.to_N (if d <? 10 then 48 + d else 55 + d)).

(** [url.QueryEscape]: a space becomes [+], an escaped byte [%XX]. *)
Fixpoint QueryEscape (s : string) : string :=
  match s with
  | EmptyString => EmptyString
  | String c rest =>
      if Ascii.eqb c " " then String "+" (QueryEscape rest)
      else if shouldEscape c then
        String "%" (String (upperhex (Strconv.code c / 16))
                   (String (upperhex (Strconv.code c mod 16)) (QueryEscape rest)))
      else String c (QueryEscape rest)
  end.

(** The byte-wise order of Go strings. *)
Definition str_le (a b : string) : Prop := String.leb a b = true.

#[global] Instance str_le_dec : RelDecision str_le.
Proof. intros a b. unfold str_le. apply _. Defined.

(** [Values.Encode]: [key=value] pairs joined by [&], the keys sorted,
    the values of a key in their order. *)
Definition Encode (v : Values) : string :=
  let keys := merge_sort str_le (map fst (map_to_list v)) in
  foldl (fun buf k =>
           let keyEscaped := QueryEscape k in
           foldl (fun buf val =>
                    (if decide (buf = EmptyString) then buf else buf +:+ "&") +:+
                    keyEscaped +:+ "=" +:+ QueryEscape val)
                 buf (index v k))
        EmptyString keys.

End Url.

(** ** Parsing floats

    [strconv.ParseFloat(s, 64)] and [strconv.ParseComplex(s, 128)] are
    library functions of which the package uses only the result and the
    error; the development is parametric in them. *)
Class FloatSyntax := {
  ParseFloat : string -> spec_float * option NumError;
  ParseComplex : string -> (spec_float * spec_float) * option NumError
}.

(** ** strconv's float syntax

    A model of [strconv.ParseFloat(s, 64)] and [strconv.ParseComplex(s, 128)],
    the instance the closed examples run on: the numeral is read as
    [readFloat] reads it, and its exact value is rounded to the nearest
    [float64], ties to even. *)
Module Atof.
Import Strconv.

Definition byteIs (c : ascii) (a : ascii) : bool := Ascii.eqb c a.

(** [lower(c)] is [c | ('x' - 'X')]. *)
Definition lower (c : ascii) : ascii := ascii_of_N (N.lor (N_of_ascii c) 32).

Definition isHexLetter (c : ascii) : bool :=
  (97 <=? code (lower c)) && (code (lower c) <=? 102).

(** [commonPrefixLenIgnoreCase(s, prefix)], [prefix] in lower case. *)
Fixpoint commonPrefixLenIgnoreCase (s prefix : string) : nat :=
  match s, prefix with
  | String c s', String p prefix' =>
      let c := if (65 <=? code c) && (code c <=? 90) then lower c else c in
      if Ascii.eqb c p then S (commonPrefixLenIgnoreCase s' prefix') else O
  | _, _ => O
  end.

(** [special(s)]: a signed infinity or NaN at the start of [s], and the
    length of its spelling. *)
Definition special (s : string) : option (spec_float * nat) :=
  let inf (neg : bool) (nsign : nat) (s : string) :=
    let n := commonPrefixLenIgnoreCase s "infinity" in
    let n := if bool_decide (3 < n < 8)%nat then 3%nat else n in
    if bool_decide (n = 3%nat) || bool_decide (n = 8%nat)
    then Some (S754_infinity neg, (nsign + n)%nat) else None in
  match s with
  | EmptyString => None
  | String c rest =>
      if byteIs c "+" || byteIs c "-" then inf (byteIs c "-") 1%nat rest
      else if byteIs c "i" || byteIs c "I" then inf false 0%nat s
      else if byteIs c "n" || byteIs c "N" then
        if bool_decide (commonPrefixLenIgnoreCase s "nan" = 3%nat)
        then Some (S754_nan, 3%nat) else None
      else None
  end.

(** [underscoreOK(s)]: [saw] is the class of the last byte, [^] at the
    start, [0] for a digit or the base prefix, [_] for an underscore and
    [!] for anything else. *)
Fixpoint underscoreLoop (hex : bool) (saw : ascii) (s : string) : bool :=
  match s with
  | EmptyString => negb (byteIs saw "_")
  | String c rest =>
      if isDigit c || (hex && isHexLetter c) then underscoreLoop hex "0" rest
      else if byteIs c "_" then
        if negb (byteIs saw "0") then false else underscoreLoop hex "_" rest
      else if byteIs saw "_" then false
      else underscoreLoop hex "!" rest
  end.

Definition underscoreOK (s : string) : bool :=
  let s := match s with
           | String c rest => if byteIs c "-" || byteIs c "+" then rest else s
           | _ => s
           end in
  match s with
  | String c0 (String c1 rest) =>
      if byteIs c0 "0" && (byteIs (lower c1) "b" || byteIs (lower c1) "o" || byteIs (lower c1) "x")
      then underscoreLoop (byteIs (lower c1) "x") "0" rest
      else underscoreLoop false "^" s
  | _ => underscoreLoop false "^" s
  end.

(** The variables of the digit loop of [readFloat]; the mantissa keeps
    every digit. *)
Record scan := mkScan {
  sawdot : bool; sawdigits : bool; nd : Z; dp : Z; mantissa : Z; underscores : bool
}.

(** The digit loop: what is left of the input and how much was read. *)
Fixpoint digitLoop (base : Z) (cs : string) (i : nat) (st : scan) : scan * string * nat :=
  match cs with
  | EmptyString => (st, cs, i)
  | String c rest =>
      if byteIs c "_" then
        digitLoop base rest (S i)
          (mkScan (sawdot st) (sawdigits st) (nd st) (dp st) (mantissa st) true)
      else if byteIs c "." then
        if sawdot st then (st, cs, i)
        else digitLoop base rest (S i)
               (mkScan true (sawdigits st) (nd st) (nd st) (mantissa st) (underscores st))
      else if isDigit c then
        if byteIs c "0" && (nd st =? 0) then
          digitLoop base rest (S i)
            (mkScan (sawdot st) true (nd st) (dp st - 1) (mantissa st) (underscores st))
        else
          digitLoop base rest (S i)
            (mkScan (sawdot st) true (nd st + 1) (dp st)
               (mantissa st * base + (code c - 48)) (underscores st))
      else if (base =? 16) && isHexLetter c then
        digitLoop base rest (S i)
          (mkScan (sawdot st) true (nd st + 1) (dp st)
             (mantissa st * 16 + (code (lower c) - 97 + 10)) (underscores st))
      else (st, cs, i)
  end.

(** The digits of the exponent, [e] no longer growing from 10000 on. *)
Fixpoint expLoop (cs : string) (i : nat) (e : Z) (us : bool) : Z * bool * string * nat :=
  match cs with
  | EmptyString => (e, us, cs, i)
  | String c rest =>
      if byteIs c "_" then expLoop rest (S i) e true
      else if isDigit c then
        expLoop rest (S i) (if e <? 10000 then e * 10 + (code c - 48) else e) us
      else (e, us, cs, i)
  end.

(** The numeral [readFloat] reads at the start of [s]: sign, mantissa,
    exponent of the base (10, or 2 for a hexadecimal mantissa), and its
    length. *)
Record numeral := mkNumeral { neg : bool; mant : Z; exp : Z; hex : bool; len : nat }.

Definition readFloat (s : string) : option numeral :=
  match s with
  | EmptyString => None
  | String c rest =>
      let '(neg, cs, i) :=
        if byteIs c "+" then (false, rest, 1%nat)
        else if byteIs c "-" then (true, rest, 1%nat)
        else (false, s, 0%nat) in
      let '(hex, cs, i) :=
        match cs with
        | String c0 (String c1 (String _ _ as tail)) =>
            if byteIs c0 "0" && byteIs (lower c1) "x" then (true, tail, (i + 2)%nat)
            else (false, cs, i)
        | _ => (false, cs, i)
        end in
      let base := if hex then 16 else 10 in
      let '(st, cs, i) := digitLoop base cs i (mkScan false false 0 0 0 false) in
      if negb (sawdigits st) then None
      else
        let dp := if sawdot st then dp st else nd st in
        let '(dp, ndMant) := if hex then (dp * 4, nd st * 4) else (dp, nd st) in
        let finish (dp : Z) (us : bool) (i : nat) :=
          if us && negb (underscoreOK (String.substring 0 i s)) then None
          else Some (mkNumeral neg (mantissa st)
                       (if mantissa st =? 0 then 0 else dp - ndMant) hex i) in
        match cs with
        | String c rest =>
            if byteIs (lower c) (if hex then "p" else "e") then
              match rest with
              | EmptyString => None
              | String c' rest' =>
                  let '(esign, cs, i) :=
                    if byteIs c' "+" then (1, rest', (i + 2)%nat)
                    else if byteIs c' "-" then (-1, rest', (i + 2)%nat)
                    else (1, rest, (i + 1)%nat) in
                  match cs with
                  | String d _ =>
                      if isDigit d then
                        let '(e, us, _, i) := expLoop cs i 0 (underscores st) in
                        finish (dp + e * esign) us i
                      else None
                  | EmptyString => None
                  end
              end
            else if hex then None
            else finish dp (underscores st) i
        | EmptyString => if hex then None else finish dp (underscores st) i
        end
  end.

(** The fraction [num / den], [den > 0], rounded to a [float64]: the
    quotient is taken to 64 bits or more and a remainder is kept as one
    more low bit. *)
Definition roundFraction (neg : bool) (num den : Z) : spec_float :=
  if num =? 0 then S754_zero neg
  else
    let p := Z.max 0 (64 + Z.log2 den - Z.log2 num) in
    let q := num * 2 ^ p / den in
    let r := (num * 2 ^ p) mod den in
    let m := 2 * q + (if r =? 0 then 0 else 1) in
    binary_normalize 53 1024 (cond_Zopp neg m) (- p - 1) neg.

Definition numeralValue (l : numeral) : spec_float :=
  let base := if hex l then 2 else 10 in
  if 0 <=? exp l then roundFraction (neg l) (mant l * base ^ exp l) 1
  else roundFraction (neg l) (mant l) (base ^ (- exp l)).

Definition isInf (x : spec_float) : bool :=
  match x with S754_infinity _ => true | _ => false end.

(** [parseFloatPrefix(s, 64)]: the value, the length read, the error. *)
Definition parseFloatPrefix (s : string) : spec_float * nat * option NumError :=
  match special s with
  | Some (v, n) => (v, n, None)
  | None =>
      match readFloat s with
      | None => (S754_zero false, O, Some (syntaxError "ParseFloat" s))
      | Some l =>
          let v := numeralValue l in
          (v, len l, if isInf v then Some (rangeError "ParseFloat" s) else None)
      end
  end.

(** [strconv.ParseFloat(s, 64)]. *)
Definition ParseFloat (s : string) : spec_float * option NumError :=
  let '(f, n, err) := parseFloatPrefix s in
  let syntax := match err with Some (mkNumError _ _ ErrSyntax) => true | _ => false end in
  if negb (bool_decide (n = String.length s)) && negb syntax
  then (S754_zero false, Some (syntaxError "ParseFloat" s))
  else (f, err).

(** [convErr(err, s)]: the error relabelled for [ParseComplex], a syntax
    error on the left and a range error on the right. *)
Definition convErr (err : NumError) (s : string) : option NumError * option NumError :=
  let x := mkNumError "ParseComplex" s (Cause err) in
  match Cause err with
  | ErrRange => (None, Some x)
  | ErrSyntax => (Some x, None)
  end.

Definition dropN (n : nat) (s : string) : string :=
  String.substring n (String.length s - n) s.

(** [strconv.ParseComplex(s, 128)]. *)
Definition ParseComplex (s : string) : (spec_float * spec_float) * option NumError :=
  let orig := s in
  let fzero := S754_zero false in
  let bad := ((fzero, fzero), Some (syntaxError "ParseComplex" orig)) in
  let s :=
    if bool_decide (2 <= String.length s)%nat &&
       bool_decide (String.get 0 s = Some "("%char) &&
       bool_decide (String.get (String.length s - 1) s = Some ")"%char)
    then String.substring 1 (String.length s - 2) s else s in
  let '(re, n, err) := parseFloatPrefix s in
  let '(syn, pending) :=
    match err with Some err => convErr err orig | None => (None, None) end in
  match syn with
  | Some e => ((fzero, fzero), Some e)
  | None =>
      let s := dropN n s in
      let imaginary (s : string) :=
        let '(im, n, err) := parseFloatPrefix s in
        let '(syn, pending) :=
          match err with Some err => convErr err orig | None => (None, pending) end in
        match syn with
        | Some e => ((fzero, fzero), Some e)
        | None =>
            if String.eqb (dropN n s) "i" then ((re, im), pending) else bad
        end in
      match s with
      | EmptyString => ((re, fzero), pending)
      | String c rest =>
          if byteIs c "+" then
            match rest with
            | String c1 _ => if byteIs c1 "+" then imaginary s else imaginary rest
            | EmptyString => imaginary s
            end
          else if byteIs c "-" then imaginary s
          else if byteIs c "i" then
            match rest with
            | EmptyString => ((fzero, re), pending)
            | _ => bad
            end
          else bad
      end
  end.

End Atof.

(** The float syntax of Go. *)
#[global] Instance GoFloatSyntax : FloatSyntax :=
  {| ParseFloat := Atof.ParseFloat; ParseComplex := Atof.ParseComplex |}.

(** ** The package *)
Module Form.
Import Reflect.

(** [UnmarshalTypeError]. *)
Record UnmarshalTypeError := mkUnmarshalTypeError {
  Value : string;
  Typ : type;
  Struct : string;
  Field : string;
  Err : error
}.

(** [MarshalTypeError]; its [Value] is the value that could not be
    marshalled. *)
Record MarshalTypeError := mkMarshalTypeError {
  MTyp : type;
  MValue : type * data;
  MStruct : string;
  MField : string
}.

(** A field of a struct variable: [reflect.StructField] ([Name], [Type],
    the result of [Tag.Get("form")], whether the name is exported) and the
    content of the field. *)
Record StructField := mkField {
  Name : string;
  FType : type;
  Tag : string;
  Exported : bool;
  Content : data
}.

(** A struct variable: its type and its fields in declaration order. *)
Record StructValue := mkStruct { SType : type; Fields : list StructField }.

(** The argument [i interface{}]: nil, a value that is not a pointer, a
    nil pointer, a pointer to a variable that is not a struct, or a pointer
    to a struct variable. *)
Inductive iface :=
| INil
| IValue (t : type)
| INilPtr (elem : type)
| IPtr (elem : type)
| IPtrStruct (s : StructValue).

(** [reflect.TypeOf(i)], nil for the nil interface. *)
Definition TypeOf (i : iface) : option type :=
  match i with
  | INil => None
  | IValue t => Some t
  | INilPtr e | IPtr e => Some (PointerTo e)
  | IPtrStruct s => Some (PointerTo (SType s))
  end.

(** [reflect.ValueOf(i).Kind()]. *)
Definition rvKind (i : iface) : Kind.t :=
  match i with
  | INil => Kind.Invalid
  | IValue t => TypeKind t
  | _ => Kind.Pointer
  end.

(** [reflect.ValueOf(i).IsNil()], asked of pointers only. *)
Definition rvIsNil (i : iface) : bool :=
  match i with INilPtr _ => true | _ => false end.

(** [rv.Elem()] when its kind is [Struct]. *)
Definition rvElemStruct (i : iface) : option StructValue :=
  match i with IPtrStruct s => Some s | _ => None end.

(** The errors [Unmarshal] and [Marshal] return. *)
Inductive Error :=
| InvalidUnmarshalError (t : option type)
| InvalidMarshalError (t : option type)
| ParseFormError (e : error)
| UnmarshalTypeErr (e : UnmarshalTypeError)
| MarshalTypeErr (e : MarshalTypeError).

(** [(e *InvalidUnmarshalError) Error()]. *)
Definition InvalidUnmarshalError_Error (t : option type) : string :=
  match t with
  | None => "form: Unmarshal(nil)"
  | Some t =>
      if bool_decide (TypeKind t ≠ Kind.Pointer)
      then "form: Unmarshal(non-pointer " +:+ TypeString t +:+ ")"
      else "form: Unmarshal(nil " +:+ TypeString t +:+ ")"
  end.

(** [(e *InvalidMarshalError) Error()]. *)
Definition InvalidMarshalError_Error (t : option type) : string :=
  match t with
  | None => "form: Marshal(nil)"
  | Some t =>
      if bool_decide (TypeKind t ≠ Kind.Pointer)
      then "form: Marshal(non-pointer " +:+ TypeString t +:+ ")"
      else "form: Marshal(nil " +:+ TypeString t +:+ ")"
  end.

(** [*http.Request], as far as the package sees it: the raw query of its
    URL, and what [r.ParseForm()] leaves, the mapping [r.Form] and the
    error it returns. *)
Record Request := mkRequest {
  RawQuery : string;
  Form : Url.Values;
  ParseFormErr : option error
}.

Definition ParseForm (r : Request) : option error := ParseFormErr r.

(** [strings.Join]. *)
Fixpoint Join (elems : list string) (sep : string) : string :=
  match elems with
  | [] => EmptyString
  | [x] => x
  | x :: rest => x +:+ sep +:+ Join rest sep
  end.

(** A fresh [UnmarshalTypeError] with [Value], [Type] and [Err] set. *)
Definition typeError (value : string) (t : type) (err : error) : UnmarshalTypeError :=
  mkUnmarshalTypeError value t EmptyString EmptyString err.

Definition overflows (value : string) (t : type) : error :=
  Errorf (value +:+ " overflows " +:+ TypeString t +:+ " value").

Section Decode.
Context `{FloatSyntax}.

(** [parseFormValue(f, value)]: the new content of [f] and the error. *)
Definition parseFormValue (f : Reflect.Value) (value : string)
  : data * option UnmarshalTypeError :=
  match ValueKind f with
  | Kind.String => (DString value, None)
  | Kind.Bool =>
      let '(v, err) := Strconv.ParseBool value in
      match err with
      | Some err => (dat f, Some (typeError value (typ f) (ENum err)))
      | None => (DBool v, None)
      end
  | Kind.Int | Kind.Int8 | Kind.Int16 | Kind.Int32 | Kind.Int64 =>
      let '(v, err) := Strconv.ParseInt value in
      match err with
      | Some err => (dat f, Some (typeError value (typ f) (ENum err)))
      | None =>
          if OverflowInt f v
          then (dat f, Some (typeError value (typ f) (overflows value (typ f))))
          else (SetInt f v, None)
      end
  | Kind.Uint | Kind.Uint8 | Kind.Uint16 | Kind.Uint32 | Kind.Uint64 =>
      let '(v, err) := Strconv.ParseUint value in
      match err with
      | Some err => (dat f, Some (typeError value (typ f) (ENum err)))
      | None =>
          if OverflowUint f v
          then (dat f, Some (typeError value (typ f) (overflows value (typ f))))
          else (SetUint f v, None)
      end
  | Kind.Float32 | Kind.Float64 =>
      let '(v, err) := ParseFloat value in
      match err with
      | Some err => (dat f, Some (typeError value (typ f) (ENum err)))
      | None =>
          if OverflowFloat f v
          then (dat f, Some (typeError value (typ f) (overflows value (typ f))))
          else (SetFloat f v, None)
      end
  | Kind.Complex64 | Kind.Complex128 =>
      let '(v, err) := ParseComplex value in
      match err with
      | Some err => (dat f, Some (typeError value (typ f) (ENum err)))
      | None =>
          if OverflowComplex f v
          then (dat f, Some (typeError value (typ f) (overflows value (typ f))))
          else (SetComplex f v, None)
      end
  | _ =>
      (dat f,
       Some (typeError value (typ f)
               (Errorf ("type " +:+ TypeString (typ f) +:+
                        " cannot be unmarshalled from form"))))
  end.

(** [s.Index(i)] of a fresh sequence [s] with elements of type [et]. *)
Definition Index (et : type) (s : list data) (i : nat) : Reflect.Value :=
  mkValue et (default (zero et) (s !! i)) false.

(** The loop [for i, val := range values] over the fresh sequence [s]:
    [parseFormValue(s.Index(i), val)] from index [i] on, stopping at the
    first error. *)
Fixpoint parseElems (et : type) (s : list data) (i : nat) (values : list string)
  : list data * option UnmarshalTypeError :=
  match values with
  | [] => (s, None)
  | val :: rest =>
      let '(d, err) := parseFormValue (Index et s i) val in
      match err with
      | Some err => (s, Some err)
      | None => parseElems et (<[i := d]> s) (S i) rest
      end
  end.

Definition bracketed (values : list string) : string :=
  "[" +:+ Join values ", " +:+ "]".

(** [parseFormValues(f, values)]: the new content of [f] and the error. *)
Definition parseFormValues (f : Reflect.Value) (values : list string)
  : data * option UnmarshalTypeError :=
  if bool_decide (length values = 0%nat) || negb (IsValid f) || negb (CanSet f)
  then (dat f, None)
  else if bool_decide (ValueKind f = Kind.Slice) then
    let s := replicate (length values) (zero (TypeElem (typ f))) in
    let '(s, err) := parseElems (TypeElem (typ f)) s 0 values in
    match err with
    | Some err =>
        (dat f, Some (mkUnmarshalTypeError (bracketed values) (typ f)
                        (Struct err) (Field err) (Err err)))
    | None => (DSeq s, None)
    end
  else if bool_decide (ValueKind f = Kind.Array) then
    if bool_decide (TypeLen (typ f) ≠ length values) then
      (dat f,
       Some (typeError (bracketed values) (typ f)
               (Errorf ("cannot use [" +:+ Fmt.Sprintf_d (Z.of_nat (length values)) +:+
                        "]" +:+ TypeString (TypeElem (typ f)) +:+ " as " +:+
                        TypeString (typ f) +:+ " value in struct"))))
    else
      let arr := ArrayOf (length values) (TypeElem (typ f)) in
      let s := getElems (zero arr) in
      let '(s, err) := parseElems (TypeElem (typ f)) s 0 values in
      match err with
      | Some err =>
          (dat f, Some (mkUnmarshalTypeError (bracketed values) (typ f)
                          (Struct err) (Field err) (Err err)))
      | None => (DSeq s, None)
      end
  else if bool_decide (length values ≠ 1%nat) then
    (dat f,
     Some (typeError (bracketed values) (typ f)
             (Errorf "cannot unmarshal more than one value for non-slice field")))
  else
    parseFormValue f (default EmptyString (head values)).

(** [s.Field(i)]: the field as a value, read-only when unexported. *)
Definition FieldValue (sf : StructField) : Reflect.Value :=
  mkValue (FType sf) (Content sf) (negb (Exported sf)).

Definition setContent (sf : StructField) (d : data) : StructField :=
  mkField (Name sf) (FType sf) (Tag sf) (Exported sf) d.

(** The loop of [Unmarshal] over the fields: the fields after the
    loop and the error it stops with. *)
Fixpoint unmarshalFields (form : Url.Values) (sname : string) (fs : list StructField)
  : list StructField * option UnmarshalTypeError :=
  match fs with
  | [] => ([], None)
  | f :: rest =>
      let tag := Tag f in
      let values := Url.index form tag in
      let '(d, err) := parseFormValues (FieldValue f) values in
      match err with
      | Some err =>
          (setContent f d :: rest,
           Some (mkUnmarshalTypeError (Value err) (Typ err) sname (Name f) (Err err)))
      | None =>
          let '(rest', err) := unmarshalFields form sname rest in
          (setContent f d :: rest', err)
      end
  end.

(** [Unmarshal(r, i)]: what [i] refers to afterwards, and the error. *)
Definition Unmarshal (r : Request) (i : iface) : iface * option Error :=
  if bool_decide (rvKind i ≠ Kind.Pointer) || rvIsNil i
  then (i, Some (InvalidUnmarshalError (TypeOf i)))
  else
    match rvElemStruct i with
    | None => (i, Some (InvalidUnmarshalError (TypeOf i)))
    | Some s =>
        match ParseForm r with
        | Some err => (i, Some (ParseFormError err))
        | None =>
            let '(fs, err) := unmarshalFields (Form r) (TypeName (SType s)) (Fields s) in
            (IPtrStruct (mkStruct (SType s) fs), option_map UnmarshalTypeErr err)
        end
    end.

End Decode.

(** What a call on the encode side ends with: nothing, an error, or the
    panic of [Value.Interface] on a value reached through an unexported
    field. *)
Inductive outcome (E : Type) :=
| Done
| Failed (e : E)
| Panicked.
Arguments Done {E}.
Arguments Failed {E} e.
Arguments Panicked {E}.

(** [marshalFormValue(tag, f, form)]: the mapping afterwards and the
    outcome. *)
Definition marshalFormValue (tag : string) (f : Reflect.Value) (form : Url.Values)
  : Url.Values * outcome MarshalTypeError :=
  match ValueKind f with
  | Kind.String => (Url.Add tag (getString (dat f)) form, Done)
  | Kind.Bool => (Url.Add tag (Fmt.Sprintf_t (getBool (dat f))) form, Done)
  | Kind.Int | Kind.Int8 | Kind.Int16 | Kind.Int32 | Kind.Int64 =>
      (Url.Add tag (Fmt.Sprintf_d (getInt (dat f))) form, Done)
  | Kind.Uint | Kind.Uint8 | Kind.Uint16 | Kind.Uint32 | Kind.Uint64 =>
      (Url.Add tag (Fmt.Sprintf_d (getUint (dat f))) form, Done)
  | Kind.Float32 | Kind.Float64 =>
      (Url.Add tag (Fmt.Sprintf_f (getFloat (dat f))) form, Done)
  | Kind.Complex64 | Kind.Complex128 =>
      (Url.Add tag (Fmt.Sprintf_e (getComplex (dat f))) form, Done)
  | _ =>
      if flagRO f then (form, Panicked)
      else (form, Failed (mkMarshalTypeError (typ f) (typ f, dat f) EmptyString EmptyString))
  end.

(** The loop [for i := 0; i < f.Len(); i++] over the elements of [f]. *)
Fixpoint marshalElems (tag : string) (f : Reflect.Value) (elems : list data)
  (form : Url.Values) : Url.Values * outcome MarshalTypeError :=
  match elems with
  | [] => (form, Done)
  | d :: rest =>
      let '(form, err) :=
        marshalFormValue tag (mkValue (TypeElem (typ f)) d (flagRO f)) form in
      match err with
      | Done => marshalElems tag f rest form
      | Failed err =>
          (form, Failed (mkMarshalTypeError (typ f) (MValue err) (MStruct err)
                           (TypeName (typ f))))
      | Panicked => (form, Panicked)
      end
  end.

(** [marshalFormValues(tag, f, form)]. *)
Definition marshalFormValues (tag : string) (f : Reflect.Value) (form : Url.Values)
  : Url.Values * outcome MarshalTypeError :=
  if bool_decide (ValueKind f = Kind.Slice) || bool_decide (ValueKind f = Kind.Array)
  then marshalElems tag f (getElems (dat f)) form
  else marshalFormValue tag f form.

(** The loop of [Marshal] over the fields, from the mapping [form]. *)
Fixpoint marshalFields (sname : string) (fs : list StructField) (form : Url.Values)
  : Url.Values * outcome MarshalTypeError :=
  match fs with
  | [] => (form, Done)
  | f :: rest =>
      let tag := Tag f in
      if decide (tag = EmptyString) then marshalFields sname rest form
      else
        let '(form, err) :=
          marshalFormValues tag (mkValue (FType f) (Content f) (negb (Exported f))) form in
        match err with
        | Done => marshalFields sname rest form
        | Failed err =>
            (form, Failed (mkMarshalTypeError (MTyp err) (MValue err) sname (Name f)))
        | Panicked => (form, Panicked)
        end
  end.

(** [Marshal(r, i)]: the request afterwards and the outcome. *)
Definition Marshal (r : Request) (i : iface) : Request * outcome Error :=
  if bool_decide (rvKind i ≠ Kind.Pointer) || rvIsNil i
  then (r, Failed (InvalidMarshalError (TypeOf i)))
  else
    match rvElemStruct i with
    | None => (r, Failed (InvalidMarshalError (TypeOf i)))
    | Some s =>
        let '(form, err) := marshalFields (TypeName (SType s)) (Fields s) ∅ in
        match err with
        | Done => (mkRequest (Url.Encode form) (Form r) (ParseFormErr r), Done)
        | Failed err => (r, Failed (MarshalTypeErr err))
        | Panicked => (r, Panicked)
        end
    end.

End Form.

(** ** Vocabulary of the properties *)
Import Reflect Form.

(** The kinds [parseFormValue] and [marshalFormValue] convert exactly:
    strings, booleans and integers. *)
Definition exactKind (k : Kind.t) : bool :=
  match k with
  | Kind.String | Kind.Bool
  | Kind.Int | Kind.Int8 | Kind.Int16 | Kind.Int32 | Kind.Int64
  | Kind.Uint | Kind.Uint8 | Kind.Uint16 | Kind.Uint32 | Kind.Uint64 => true
  | _ => false
  end.

Definition floatKind (k : Kind.t) : bool :=
  match k with
  | Kind.Float32 | Kind.Float64 | Kind.Complex64 | Kind.Complex128 => true
  | _ => false
  end.

(** The kinds with a case in the two switches. *)
Definition scalarKind (k : Kind.t) : bool := exactKind k || floatKind k.

Definition uintKind (k : Kind.t) : bool :=
  match k with
  | Kind.Uint | Kind.Uint8 | Kind.Uint16 | Kind.Uint32 | Kind.Uint64 => true
  | _ => false
  end.

Definition seqKind (k : Kind.t) : bool :=
  match k with Kind.Slice | Kind.Array => true | _ => false end.

(** A type is supported when its kind is one of the scalar kinds, or it is
    a slice or an array of such elements; it is exact when the kinds
    involved are exact. *)
Definition typeOver (P : Kind.t -> bool) (t : type) : bool :=
  if seqKind (TypeKind t) then P (TypeKind (TypeElem t)) else P (TypeKind t).

Definition supportedType : type -> bool := typeOver scalarKind.
Definition exactType : type -> bool := typeOver exactKind.

(** The content [d] is a value of a type of kind [k], within the range of
    the kind. *)
Definition inKind (k : Kind.t) (d : data) : bool :=
  match k, d with
  | Kind.String, DString _ => true
  | Kind.Bool, DBool _ => true
  | (Kind.Int | Kind.Int8 | Kind.Int16 | Kind.Int32 | Kind.Int64), DInt n =>
      (- 2 ^ (bitSize k - 1) <=? n) && (n <? 2 ^ (bitSize k - 1))
  | (Kind.Uint | Kind.Uint8 | Kind.Uint16 | Kind.Uint32 | Kind.Uint64), DUint n =>
      (0 <=? n) && (n <? 2 ^ bitSize k)
  | (Kind.Float32 | Kind.Float64), DFloat _ => true
  | (Kind.Complex64 | Kind.Complex128), DComplex _ _ => true
  | _, _ => false
  end.

(** The content [d] is a value of the supported type [t]: a scalar of its
    kind, the elements of a slice, or as many elements as an array has. *)
Definition hasType (t : type) (d : data) : bool :=
  match TypeKind t, d with
  | Kind.Slice, DSeq l => forallb (inKind (TypeKind (TypeElem t))) l
  | Kind.Array, DSeq l =>
      bool_decide (length l = TypeLen t) && forallb (inKind (TypeKind (TypeElem t))) l
  | Kind.Slice, _ | Kind.Array, _ => false
  | k, _ => inKind k d
  end.

(** The step of [Unmarshal] for one field: its new content and the error. *)
Definition decodeField `{FloatSyntax} (form : Url.Values) (f : StructField)
  : data * option UnmarshalTypeError :=
  parseFormValues (FieldValue f) (Url.index form (Tag f)).

(** The field as [Unmarshal] leaves it when its step does not fail. *)
Definition decoded `{FloatSyntax} (form : Url.Values) (f : StructField) : StructField :=
  setContent f (fst (decodeField form f)).

(** The conversion of one value into a fresh element of type [et]. *)
Definition convert `{FloatSyntax} (et : type) (v : string) : data * option UnmarshalTypeError :=
  parseFormValue (mkValue et (zero et) false) v.

(** The error of a field, as [Unmarshal] returns it. *)
Definition located (sname : string) (f : StructField) (e : UnmarshalTypeError) : Error :=
  UnmarshalTypeErr (mkUnmarshalTypeError (Value e) (Typ e) sname (Name f) (Err e)).

(** A fresh variable of the type of [s]. *)
Definition zeroField (f : StructField) : StructField := setContent f (zero (FType f)).
Definition zeroStruct (s : StructValue) : StructValue :=
  mkStruct (SType s) (map zeroField (Fields s)).

(** The strings a field contributes to the mapping, in order. *)
Definition renderScalar (k : Kind.t) (d : data) : string :=
  match k with
  | Kind.String => getString d
  | Kind.Bool => Fmt.Sprintf_t (getBool d)
  | Kind.Int | Kind.Int8 | Kind.Int16 | Kind.Int32 | Kind.Int64 => Fmt.Sprintf_d (getInt d)
  | Kind.Uint | Kind.Uint8 | Kind.Uint16 | Kind.Uint32 | Kind.Uint64 =>
      Fmt.Sprintf_d (getUint d)
  | Kind.Float32 | Kind.Float64 => Fmt.Sprintf_f (getFloat d)
  | _ => Fmt.Sprintf_e (getComplex d)
  end.

Definition render (t : type) (d : data) : list string :=
  if seqKind (TypeKind t) then map (renderScalar (TypeKind (TypeElem t))) (getElems d)
  else [renderScalar (TypeKind t) d].

(** Shapes of formatted numbers. *)
Fixpoint allDigits (s : string) : bool :=
  match s with
  | EmptyString => true
  | String c rest => Strconv.isDigit c && allDigits rest
  end.

(** [s] cut at the first occurrence of [c]. *)
Fixpoint cut (c : ascii) (s : string) : option (string * string) :=
  match s with
  | EmptyString => None
  | String a rest =>
      if Ascii.eqb a c then Some (EmptyString, rest)
      else match cut c rest with
           | Some (l, r) => Some (String a l, r)
           | None => None
           end
  end.

Definition nonEmpty (s : string) : bool := negb (String.eqb s EmptyString).

(** A decimal numeral: digits, with a minus sign in front when [neg]. *)
Definition isDecimal (neg : bool) (s : string) : bool :=
  if neg then match s with String "-" r => nonEmpty r && allDigits r | _ => false end
  else nonEmpty s && allDigits s.

(** Digits, a point, and exactly six digits. *)
Definition isFixed6 (s : string) : bool :=
  match cut "." s with
  | Some (ip, fr) =>
      nonEmpty ip && allDigits ip && allDigits fr && bool_decide (String.length fr = 6%nat)
  | None => false
  end.

(** One digit, a point, six digits, [e], a sign, and two digits or more. *)
Definition isSci6 (s : string) : bool :=
  match cut "e" s with
  | Some (mant, String sg ex) =>
      isFixed6 mant && bool_decide (String.length mant = 8%nat) &&
      (Ascii.eqb sg "+" || Ascii.eqb sg "-") &&
      allDigits ex && bool_decide (2 <= String.length ex)%nat
  | _ => false
  end.

(** [s] is [body] under the sign of [neg]: a minus sign in front, or
    nothing ([plus = false]) or a plus sign ([plus = true]). *)
Definition signedAs (plus neg : bool) (body s : string) : Prop :=
  s = (if neg then "-" else if plus then "+" else "") +:+ body.

(** The error of the first value that does not convert into an element of
    type [et]. *)
Fixpoint firstError `{FloatSyntax} (et : type) (values : list string)
  : option UnmarshalTypeError :=
  match values with
  | [] => None
  | v :: rest =>
      match snd (convert et v) with
      | Some e => Some e
      | None => firstError et rest
      end
  end.

(** Every field of [fs] decodes without an error. *)
Definition decodeOk `{FloatSyntax} (form : Url.Values) (fs : list StructField) : Prop :=
  Forall (fun g => snd (decodeField form g) = None) fs.

(** The field at position [n] of the struct [i] points to. *)
Definition fieldAfter (i : iface) (n : nat) : option StructField :=
  match i with
  | IPtrStruct s => Fields s !! n
  | _ => None
  end.

(** The error messages of [parseFormValues] and [parseFormValue]. *)
Definition moreThanOne : error :=
  Errorf "cannot unmarshal more than one value for non-slice field".

Definition cannotUse (n : nat) (et t : type) : error :=
  Errorf ("cannot use [" +:+ Fmt.Sprintf_d (Z.of_nat n) +:+ "]" +:+ TypeString et +:+
          " as " +:+ TypeString t +:+ " value in struct").

Definition cannotUnmarshal (t : type) : error :=
  Errorf ("type " +:+ TypeString t +:+ " cannot be unmarshalled from form").

(** ** The structs of the examples *)
Module Ex.

(** A struct type [form_test.<name>]. *)
Definition structType (name : string) : type :=
  Named name ("form_test." +:+ name) (Opaque OStruct "struct").

Definition request (form : Url.Values) : Request := mkRequest EmptyString form None.

Definition Tmap : type := Opaque OMap "map[string]string".

(** [type s struct { A string `form:"a"`; B string }], as in
    [TestStructWithoutFormValue]. *)
Definition untagged (a b : string) : StructValue :=
  mkStruct (structType "s")
    [mkField "A" (Basic Tstring) "a" true (DString a);
     mkField "B" (Basic Tstring) "" true (DString b)].

(** [type s struct { Name string `form:"name"`; Val T `form:"value"` }];
    the second field is exported or not. *)
Definition named (t : type) (exported : bool) (name : string) (val : data) : StructValue :=
  mkStruct (structType "s")
    [mkField "Name" (Basic Tstring) "name" true (DString name);
     mkField (if exported then "Val" else "val") t "value" exported val].

Definition nameField (name : string) : StructField :=
  mkField "Name" (Basic Tstring) "name" true (DString name).

Definition valField (t : type) (exported : bool) (val : data) : StructField :=
  mkField (if exported then "Val" else "val") t "value" exported val.

(** The mapping of the query [name=John&value=v1&value=v2...]. *)
Definition query (values : list string) : Url.Values :=
  <["value" := values]> {["name" := ["John"]]}.

(** [type Pair [2]int]. *)
Definition Pair : type := Named "Pair" "form_test.Pair" (ArrayOf 2 (Basic Tint)).

(** [type s struct { X int `form:"x"`; Y int `form:"x"` }]: one tag twice. *)
Definition sameTag (x y : Z) : StructValue :=
  mkStruct (structType "s")
    [mkField "X" (Basic Tint) "x" true (DInt x);
     mkField "Y" (Basic Tint) "x" true (DInt y)].

(** The struct of [TestLargeStructMarshal], without its float. *)
Definition person : StructValue :=
  mkStruct (structType "s")
    [mkField "Name" (Basic Tstring) "name" true (DString "John");
     mkField "Age" (Basic Tint) "age" true (DInt 30);
     mkField "Pets" (SliceOf (Basic Tstring)) "pets" true
       (DSeq [DString "Rabbit"; DString "Bird"]);
     mkField "Lucky" (ArrayOf 2 (Basic Tuint8)) "lucky" true (DSeq [DUint 7; DUint 255]);
     mkField "Member" (Basic Tbool) "member" true (DBool true)].

(** The [float64] and the [float32] that a decimal literal denotes. *)
Definition float64 (literal : string) : spec_float := (Atof.ParseFloat literal).1.
Definition float32 (literal : string) : spec_float := Float.float32 (float64 literal).

(** [Person] of [ExampleUnmarshal]. *)
Definition Person (name : string) (age : Z) (pets : list string) (nums : list spec_float)
  : StructValue :=
  mkStruct (structType "Person")
    [mkField "Name" (Basic Tstring) "name" true (DString name);
     mkField "Age" (Basic Tint) "age" true (DInt age);
     mkField "Pets" (SliceOf (Basic Tstring)) "pets" true (DSeq (map DString pets));
     mkField "Nums" (ArrayOf 2 (Basic Tfloat32)) "nums" true (DSeq (map DFloat nums))].

(** The struct of [TestLargeStructMarshal]. *)
Definition large : StructValue :=
  mkStruct (structType "s")
    [mkField "Name" (Basic Tstring) "name" true (DString "John");
     mkField "Age" (Basic Tint) "age" true (DInt 30);
     mkField "Pets" (SliceOf (Basic Tstring)) "pets" true
       (DSeq [DString "Rabbit"; DString "Bird"]);
     mkField "Balance" (Basic Tfloat64) "balance" true (DFloat (float64 "10.49"))].

(** A struct with the one field [A T `form:"a"`]. *)
Definition single (t : type) (d : data) : StructValue :=
  mkStruct (structType "s") [mkField "A" t "a" true d].

End Ex.

(** A field takes part in [Marshal] when its tag is not empty. *)
Definition tagged (f : StructField) : Prop := Tag f <> EmptyString.

#[global] Instance tagged_dec f : Decision (tagged f).
Proof. unfold tagged. apply _. Defined.

(** [values] added under [tag], in order. *)
Definition addAll (tag : string) (values : list string) (form : Url.Values) : Url.Values :=
  foldl (fun m v => Url.Add tag v m) form values.

(** The mapping [Marshal] builds from fields that are all tagged and
    supported, on top of [form]. *)
Definition mapping (fs : list StructField) (form : Url.Values) : Url.Values :=
  foldl (fun m f => addAll (Tag f) (render (FType f) (Content f)) m) form fs.

(** What the round trip asks of a field: a tag, an exported name, a
    supported type, and a content of that type. *)
Definition roundTrips (f : StructField) : Prop :=
  tagged f /\ Exported f = true /\ supportedType (FType f) = true /\
  hasType (FType f) (Content f) = true.

(** No byte of [s] is [c]. *)
Fixpoint without (c : ascii) (s : string) : bool :=
  match s with
  | EmptyString => true
  | String a rest => negb (Ascii.eqb a c) && without c rest
  end.

(** The conversion table of the specification, for the exact kinds: a
    string is itself, a boolean is a strict literal, an integer is a base-10
    numeral within the range of its width. *)
Definition specParse (k : Kind.t) (raw : string) : option data :=
  match k with
  | Kind.String => Some (DString raw)
  | Kind.Bool =>
      match Strconv.ParseBool raw with
      | (b, None) => Some (DBool b)
      | _ => None
      end
  | Kind.Int | Kind.Int8 | Kind.Int16 | Kind.Int32 | Kind.Int64 =>
      match Strconv.ParseInt raw with
      | (n, None) => if inKind k (DInt n) then Some (DInt n) else None
      | _ => None
      end
  | Kind.Uint | Kind.Uint8 | Kind.Uint16 | Kind.Uint32 | Kind.Uint64 =>
      match Strconv.ParseUint raw with
      | (n, None) => if inKind k (DUint n) then Some (DUint n) else None
      | _ => None
      end
  | _ => None
  end.

(** ** More vocabulary *)

(** The field kept, its content apart. *)
Definition shape (f : StructField) : string * type * string * bool :=
  (Name f, FType f, Tag f, Exported f).

(** ** The messages of the errors *)

(** What the messages take from [strconv] and [fmt]: [strconv.Quote], and
    the format [%v] of a value that could not be marshalled. *)
Class Printing := {
  Quote : string -> string;
  Sprint : type * data -> string
}.

(** [ErrSyntax.Error()] and [ErrRange.Error()]. *)
Definition errkind_Error (k : errkind) : string :=
  match k with ErrSyntax => "invalid syntax" | ErrRange => "value out of range" end.

(** [(e *strconv.NumError) Error()]. *)
Definition NumError_Error `{Printing} (e : NumError) : string :=
  "strconv." +:+ Func e +:+ ": parsing " +:+ Quote (Num e) +:+ ": " +:+
  errkind_Error (Cause e).

(** [err.Error()]. *)
Definition error_Error `{Printing} (e : error) : string :=
  match e with
  | ENum e => NumError_Error e
  | Errorf msg | EParse msg => msg
  end.

(** [(e *UnmarshalTypeError) Error()]. *)
Definition UnmarshalTypeError_Error `{Printing} (e : UnmarshalTypeError) : string :=
  "form: cannot unmarshal " +:+ Value e +:+ " into Go struct field " +:+ Struct e +:+
  "." +:+ Field e +:+ " of type " +:+ TypeString (Typ e) +:+ ": " +:+ error_Error (Err e).

(** [(e *UnmarshalTypeError) Unwrap()]. *)
Definition UnmarshalTypeError_Unwrap (e : UnmarshalTypeError) : error := Err e.

(** [(e *MarshalTypeError) Error()]. *)
Definition MarshalTypeError_Error `{Printing} (e : MarshalTypeError) : string :=
  "form: cannot marshal " +:+ Sprint (MValue e) +:+ " (" +:+ TypeString (MTyp e) +:+
  ") of Go struct field " +:+ MStruct e +:+ "." +:+ MField e +:+ " into form data".

(** The [Value] of the error of a field: the value itself when a scalar
    field has one, the values between brackets otherwise. *)
Definition shownValues (t : type) (values : list string) : string :=
  match values with
  | [v] => if seqKind (TypeKind t) then bracketed values else v
  | _ => bracketed values
  end.

(** The cause is an error of [strconv] or one of the four messages of
    the package. *)
Definition packageCause (e : error) : Prop :=
  match e with
  | ENum _ => True
  | Errorf msg =>
      (exists v t, Errorf msg = overflows v t) \/ Errorf msg = moreThanOne \/
      (exists n et t, Errorf msg = cannotUse n et t) \/
      (exists t, Errorf msg = cannotUnmarshal t)
  | EParse _ => False
  end.

(** ** Decimal numerals, read *)

(** The number that the digits [cs] denote after the number [n]. *)
Fixpoint digitsValue (cs : string) (n : Z) : Z :=
  match cs with
  | EmptyString => n
  | String c rest => digitsValue rest (n * 10 + (Strconv.code c - 48))
  end.

Definition decimalValue (s : string) : Z := digitsValue s 0.

(** One digit or more, and nothing else. *)
Definition isNumeral (s : string) : bool := nonEmpty s && allDigits s.

(** A sign in front, and the rest. *)
Definition signOf (s : string) : bool * string :=
  match s with
  | EmptyString => (false, s)
  | String c rest =>
      if Ascii.eqb c "+" then (false, rest)
      else if Ascii.eqb c "-" then (true, rest)
      else (false, s)
  end.

Definition intKind (k : Kind.t) : bool :=
  match k with
  | Kind.Int | Kind.Int8 | Kind.Int16 | Kind.Int32 | Kind.Int64 => true
  | _ => false
  end.

(** The function of [strconv] that reads a value of the kind. *)
Definition parserOf (k : Kind.t) : string :=
  match k with
  | Kind.Bool => "ParseBool"
  | Kind.Int | Kind.Int8 | Kind.Int16 | Kind.Int32 | Kind.Int64 => "ParseInt"
  | Kind.Uint | Kind.Uint8 | Kind.Uint16 | Kind.Uint32 | Kind.Uint64 => "ParseUint"
  | Kind.Float32 | Kind.Float64 => "ParseFloat"
  | _ => "ParseComplex"
  end.

(** The strings that the fields with the tag [key] contribute, in the
    order of the fields. *)
Definition valuesUnder (key : string) (fs : list StructField) : list string :=
  concat (map (fun f => render (FType f) (Content f)) (filter (fun f => Tag f = key) fs)).

(** Every byte of [s] satisfies [P]. *)
Fixpoint allBytes (P : ascii -> bool) (s : string) : bool :=
  match s with
  | EmptyString => true
  | String c rest => P c && allBytes P rest
  end.

(** The bytes of an encoded query: letters, digits, [-_.~], and the
    [%], [+], [&] and [=] of the encoding. *)
Definition queryByte (c : ascii) : bool :=
  let n := Strconv.code c in
  ((97 <=? n) && (n <=? 122)) || ((65 <=? n) && (n <=? 90)) ||
  ((48 <=? n) && (n <=? 57)) ||
  bool_decide (c ∈ ["-"; "_"; "."; "~"; "%"; "+"; "&"; "="]%char).

(** The value that [marshalFormValues] reports for a field of a type that
    is not supported: the first element of a slice or an array, the value
    of the field otherwise. *)
Definition reported (f : StructField) : option (type * data) :=
  if seqKind (TypeKind (FType f)) then
    match getElems (Content f) with
    | [] => None
    | d :: _ => Some (TypeElem (FType f), d)
    end
  else Some (FType f, Content f).

(** The field [f0] of a target after the round trip of the field [f]: the
    field [f] when it has a string in the mapping, the field [f0] as it
    was when it has none. *)
Definition merged (f0 f : StructField) : StructField :=
  if decide (render (FType f) (Content f) = []) then f0 else f.



(** ** More structs and values for the examples *)
Module Sample.

(** [type basket struct { Items []string `form:"items"`; N int `form:"n"` }]. *)
Definition basket (items : list string) (n : Z) : StructValue :=
  mkStruct (Ex.structType "basket")
    [mkField "Items" (SliceOf (Basic Tstring)) "items" true (DSeq (map DString items));
     mkField "N" (Basic Tint) "n" true (DInt n)].

(** The same fields, declared in the other order. *)
Definition basket' (items : list string) (n : Z) : StructValue :=
  mkStruct (Ex.structType "basket")
    [mkField "N" (Basic Tint) "n" true (DInt n);
     mkField "Items" (SliceOf (Basic Tstring)) "items" true (DSeq (map DString items))].

Definition uint8 (n : Z) : Reflect.Value := mkValue (Basic Tuint8) (DUint n) false.
Definition uint64 (n : Z) : Reflect.Value := mkValue (Basic Tuint64) (DUint n) false.
Definition int8 (n : Z) : Reflect.Value := mkValue (Basic Tint8) (DInt n) false.
Definition int64 (n : Z) : Reflect.Value := mkValue (Basic Tint64) (DInt n) false.

End Sample.

(** * Properties *)

(** ** Decoding, field by field *)
Section Decoding.
Context `{FloatSyntax}.

Lemma parseFormValue_error_keeps f v d e :
  parseFormValue f v = (d, Some e) -> d = dat f.
Proof.
  unfold parseFormValue.
  destruct (ValueKind f); repeat case_match; intros; simplify_eq; done.
Qed.

Lemma parseFormValue_error_shape f v d e :
  parseFormValue f v = (d, Some e) ->
  Value e = v /\ Typ e = typ f /\ Struct e = EmptyString /\ Field e = EmptyString.
Proof.
  unfold parseFormValue.
  destruct (ValueKind f); repeat case_match; intros; simplify_eq; done.
Qed.

(** Every type has a kind: a value reached through a field is valid. *)
Lemma TypeKind_valid t : TypeKind t <> Kind.Invalid.
Proof. induction t as [b | | | | | k ?]; simpl; try done; [by destruct b | by destruct k]. Qed.

Lemma parseFormValues_error_keeps f values d e :
  parseFormValues f values = (d, Some e) -> d = dat f.
Proof.
  unfold parseFormValues.
  repeat case_match; intros; simplify_eq; try done.
  eauto using parseFormValue_error_keeps.
Qed.

Lemma parseFormValues_skip f values :
  values = [] \/ CanSet f = false ->
  parseFormValues f values = (dat f, None).
Proof.
  unfold parseFormValues. intros [-> | ->]; [done |].
  by rewrite orb_true_r.
Qed.

Lemma unmarshalFields_at form sn pre f post :
  Forall (fun g => snd (decodeField form g) = None) pre ->
  unmarshalFields form sn (pre ++ f :: post) =
    match decodeField form f with
    | (d, Some e) =>
        (map (decoded form) pre ++ setContent f d :: post,
         Some (mkUnmarshalTypeError (Value e) (Typ e) sn (Name f) (Err e)))
    | (d, None) =>
        let '(post', e) := unmarshalFields form sn post in
        (map (decoded form) pre ++ setContent f d :: post', e)
    end.
Proof.
  induction 1 as [| g pre Hg Hpre IH]; simpl.
  - unfold decodeField. destruct (parseFormValues _ _) as [d [e |]]; [done |].
    by destruct (unmarshalFields form sn post).
  - unfold decoded, decodeField in *.
    destruct (parseFormValues (FieldValue g) _) as [dg eg]; simpl in *; subst eg.
    rewrite IH.
    destruct (parseFormValues (FieldValue f) _) as [d [e |]]; [done |].
    by destruct (unmarshalFields form sn post).
Qed.

Lemma firstError_None et values :
  firstError et values = None <-> Forall (fun v => snd (convert et v) = None) values.
Proof.
  induction values as [| v values IH]; simpl.
  - split; [constructor | done].
  - destruct (snd (convert et v)) eqn:E.
    + split; [done |]. inversion 1; congruence.
    + rewrite IH. split; [by constructor | by inversion 1].
Qed.

Lemma Index_fresh et (acc : list data) rest :
  Index et (acc ++ zero et :: rest) (length acc) = mkValue et (zero et) false.
Proof.
  unfold Index. rewrite lookup_app_r by lia. by rewrite Nat.sub_diag.
Qed.

Lemma insert_fresh (acc : list data) z rest d :
  <[length acc := d]> (acc ++ z :: rest) = (acc ++ [d]) ++ rest.
Proof.
  rewrite insert_app_r_alt by lia. rewrite Nat.sub_diag. simpl. by rewrite <- app_assoc.
Qed.

Lemma parseElems_error et values : forall acc,
  snd (parseElems et (acc ++ replicate (length values) (zero et)) (length acc) values)
  = firstError et values.
Proof.
  induction values as [| v values IH]; intros acc; simpl; [done |].
  rewrite Index_fresh. fold (convert et v).
  destruct (convert et v) as [d [e |]]; simpl; [done |].
  rewrite insert_fresh.
  replace (S (length acc)) with (length (acc ++ [d])) by (rewrite length_app; simpl; lia).
  apply IH.
Qed.

Lemma parseElems_ok et values : forall acc,
  firstError et values = None ->
  parseElems et (acc ++ replicate (length values) (zero et)) (length acc) values
  = (acc ++ map (fun v => fst (convert et v)) values, None).
Proof.
  induction values as [| v values IH]; intros acc; simpl.
  - by rewrite app_nil_r.
  - rewrite Index_fresh. fold (convert et v).
    destruct (convert et v) as [d [e |]]; simpl; [done |]. intros Hrest.
    rewrite insert_fresh.
    replace (S (length acc)) with (length (acc ++ [d])) by (rewrite length_app; simpl; lia).
    rewrite IH by done. by rewrite <- app_assoc.
Qed.

Lemma Unmarshal_struct r s :
  ParseFormErr r = None ->
  Unmarshal r (IPtrStruct s) =
    let '(fs, err) := unmarshalFields (Form r) (TypeName (SType s)) (Fields s) in
    (IPtrStruct (mkStruct (SType s) fs), option_map UnmarshalTypeErr err).
Proof. intros Hp. unfold Unmarshal, ParseForm. simpl. by rewrite Hp. Qed.

Lemma setContent_same f : setContent f (Content f) = f.
Proof. by destruct f. Qed.

(** Decoding a sequence field, spelled out. *)
Lemma parseFormValues_seq f values :
  values <> [] -> CanSet f = true ->
  (ValueKind f = Kind.Slice \/
   (ValueKind f = Kind.Array /\ TypeLen (typ f) = length values)) ->
  parseFormValues f values =
    match firstError (TypeElem (typ f)) values with
    | Some e => (dat f, Some (mkUnmarshalTypeError (bracketed values) (typ f)
                                (Struct e) (Field e) (Err e)))
    | None => (DSeq (map (fun v => fst (convert (TypeElem (typ f)) v)) values), None)
    end.
Proof.
  intros Hne Hset Hk. pose proof (TypeKind_valid (typ f)) as Hvalid.
  unfold parseFormValues, IsValid, ValueKind in *.
  rewrite Hset. simpl.
  rewrite (bool_decide_eq_false_2 (length values = 0%nat))
    by (destruct values; simpl; [done | lia]).
  rewrite (bool_decide_eq_true_2 _ Hvalid). simpl.
  pose proof (parseElems_error (TypeElem (typ f)) values []) as Herr.
  pose proof (parseElems_ok (TypeElem (typ f)) values []) as Hok.
  simpl in Herr, Hok.
  destruct Hk as [Hk | [Hk Hlen]].
  - rewrite (bool_decide_eq_true_2 _ Hk).
    destruct (parseElems _ _ _ _) as [s' e'] eqn:E. simpl in Herr. subst e'.
    destruct (firstError _ _) as [e |]; [done |].
    specialize (Hok eq_refl). by simplify_eq.
  - rewrite bool_decide_eq_false_2 by congruence.
    rewrite (bool_decide_eq_true_2 _ Hk).
    rewrite bool_decide_eq_false_2 by (intros ?; congruence).
    destruct (parseElems _ _ _ _) as [s' e'] eqn:E. simpl in Herr. subst e'.
    destruct (firstError _ _) as [e |]; [done |].
    specialize (Hok eq_refl). by simplify_eq.
Qed.

End Decoding.

(** ** Strings *)
Section Strings.

Lemma append_cons c s t : String c s +:+ t = String c (s +:+ t).
Proof. done. Qed.

Lemma append_nil_l s : EmptyString +:+ s = s.
Proof. done. Qed.

Lemma append_nil_r s : s +:+ EmptyString = s.
Proof. induction s as [| c s IH]; [done |]. by rewrite append_cons, IH. Qed.

Lemma append_assoc s1 s2 s3 : (s1 +:+ s2) +:+ s3 = s1 +:+ (s2 +:+ s3).
Proof. induction s1 as [| c s1 IH]; [done |]. by rewrite !append_cons, IH. Qed.

Lemma length_append s1 s2 :
  String.length (s1 +:+ s2) = (String.length s1 + String.length s2)%nat.
Proof.
  induction s1 as [| c s1 IH]; [done |]. rewrite append_cons. simpl. by rewrite IH.
Qed.

End Strings.

(** ** Decimal numerals *)
Section Numerals.
Import Strconv.

Lemma digit_cases d : 0 <= d < 10 ->
  d = 0 \/ d = 1 \/ d = 2 \/ d = 3 \/ d = 4 \/ d = 5 \/ d = 6 \/ d = 7 \/ d = 8 \/ d = 9.
Proof. lia. Qed.

Lemma code_digit d : 0 <= d < 10 -> code (digit d) = 48 + d.
Proof.
  intros Hd. destruct (digit_cases d Hd) as [-> | [-> | [-> | [-> | [-> | [-> | [-> | [-> | [-> | ->]]]]]]]]];
    reflexivity.
Qed.

Lemma isDigit_digit d : 0 <= d < 10 -> isDigit (digit d) = true.
Proof. intros Hd. unfold isDigit. rewrite code_digit by done. lia. Qed.

Lemma formatBits_acc fuel : forall u acc,
  formatBits fuel u acc = formatBits fuel u EmptyString +:+ acc.
Proof.
  induction fuel as [| fuel IH]; intros u acc; simpl; [done |].
  destruct (u <? 10); [done |].
  rewrite IH, (IH _ (String _ EmptyString)). by rewrite append_assoc.
Qed.

Lemma formatBits_S fuel u acc :
  formatBits (S fuel) u acc =
  if u <? 10 then String (digit u) acc
  else formatBits fuel (u / 10) (String (digit (u mod 10)) acc).
Proof. done. Qed.

Lemma formatBits_fuel f1 : forall f2 u acc,
  (0 < f1)%nat -> (0 < f2)%nat -> 0 <= u < 10 ^ Z.of_nat f1 -> u < 10 ^ Z.of_nat f2 ->
  formatBits f1 u acc = formatBits f2 u acc.
Proof.
  induction f1 as [| f1 IH]; intros f2 u acc H1 H2 Hu1 Hu2; [lia |].
  destruct f2 as [| f2]; [lia |]. simpl.
  destruct (u <? 10) eqn:E; [done |]. apply Z.ltb_ge in E.
  rewrite Nat2Z.inj_succ, Z.pow_succ_r in Hu1, Hu2 by lia.
  assert (0 < f1)%nat by (destruct f1; [simpl in Hu1; lia | lia]).
  assert (0 < f2)%nat by (destruct f2; [simpl in Hu2; lia | lia]).
  apply IH; try done.
  - split; [apply Z.div_pos; lia | apply Z.div_lt_upper_bound; lia].
  - apply Z.div_lt_upper_bound; lia.
Qed.

Lemma lt_pow10_log2 u : 0 < u -> u < 10 ^ (Z.log2 u + 1).
Proof.
  intros Hu. pose proof (Z.log2_spec u Hu) as [_ Hlt].
  pose proof (Z.log2_nonneg u).
  eapply Z.lt_le_trans; [exact Hlt |].
  rewrite <- Z.add_1_r. apply Z.pow_le_mono_l. lia.
Qed.

Lemma FormatUint_small u : 0 <= u < 10 -> FormatUint u = String (digit u) EmptyString.
Proof.
  intros Hu. unfold FormatUint. simpl.
  by replace (u <? 10) with true by lia.
Qed.

Lemma FormatUint_step u :
  10 <= u -> FormatUint u = FormatUint (u / 10) +:+ String (digit (u mod 10)) EmptyString.
Proof.
  intros Hu. unfold FormatUint.
  rewrite (formatBits_S (Z.to_nat (Z.log2 u)) u).
  replace (u <? 10) with false by lia.
  rewrite formatBits_acc. f_equal.
  assert (0 < u / 10) by (apply Z.div_str_pos; lia).
  assert (3 <= Z.log2 u) by (apply (Z.log2_le_mono 8 u); lia).
  pose proof (Z.log2_nonneg (u / 10)).
  apply formatBits_fuel; try lia.
  - split; [lia |]. rewrite Z2Nat.id by lia.
    apply Z.div_lt_upper_bound; [lia |].
    pose proof (Z.log2_spec u ltac:(lia)) as [_ Hlt].
    eapply Z.lt_le_trans; [exact Hlt |].
    replace (Z.succ (Z.log2 u)) with (1 + Z.log2 u) by lia.
    rewrite Z.pow_add_r by lia.
    assert (2 ^ Z.log2 u <= 10 ^ Z.log2 u) by (apply Z.pow_le_mono_l; lia).
    lia.
  - rewrite Nat2Z.inj_succ, Z2Nat.id by lia.
    rewrite <- Z.add_1_r. by apply lt_pow10_log2.
Qed.

(** Induction along the digits of a number. *)
Lemma digits_ind (P : Z -> Prop) :
  (forall u, 0 <= u < 10 -> P u) ->
  (forall u, 10 <= u -> P (u / 10) -> P u) ->
  forall u, 0 <= u -> P u.
Proof.
  intros Hsmall Hstep. apply Zlt_0_ind. intros u IH Hu.
  destruct (Z_lt_dec u 10); [apply Hsmall; lia |].
  apply Hstep; [lia |]. apply IH.
  split; [apply Z.div_pos; lia | apply Z.div_lt; lia].
Qed.

Lemma allDigits_app s t : allDigits (s +:+ t) = allDigits s && allDigits t.
Proof.
  induction s as [| c s IH]; [done |]. rewrite append_cons. simpl.
  by rewrite IH, andb_assoc.
Qed.

Lemma nonEmpty_app_r s c t : nonEmpty (s +:+ String c t) = true.
Proof. by destruct s. Qed.

Lemma FormatUint_digits u : 0 <= u -> allDigits (FormatUint u) = true.
Proof.
  revert u. apply digits_ind; intros u Hu.
  - rewrite FormatUint_small by done. simpl. by rewrite isDigit_digit.
  - intros IH. rewrite FormatUint_step, allDigits_app, IH by done. simpl.
    rewrite isDigit_digit; [done |]. apply Z.mod_pos_bound. lia.
Qed.

Lemma FormatUint_nonEmpty u : 0 <= u -> nonEmpty (FormatUint u) = true.
Proof.
  intros Hu. destruct (Z_lt_dec u 10).
  - by rewrite FormatUint_small by lia.
  - rewrite FormatUint_step by lia. apply nonEmpty_app_r.
Qed.

(** The length of a numeral is the number of decimal digits. *)
Lemma FormatUint_length u :
  0 <= u ->
  (1 <= String.length (FormatUint u))%nat /\
  u < 10 ^ Z.of_nat (String.length (FormatUint u)) /\
  (1 <= u -> 10 ^ (Z.of_nat (String.length (FormatUint u)) - 1) <= u).
Proof.
  revert u. apply digits_ind; intros u Hu.
  - rewrite FormatUint_small by done. simpl. lia.
  - intros (IH1 & IH2 & IH3). rewrite FormatUint_step, length_append by done.
    simpl String.length. set (n := String.length (FormatUint (u / 10))) in *.
    assert (1 <= u / 10) by (apply Z.div_le_lower_bound; lia).
    specialize (IH3 ltac:(lia)).
    replace (Z.of_nat (n + 1)) with (Z.of_nat n - 1 + 1 + 1) by lia.
    replace (Z.of_nat n) with (Z.of_nat n - 1 + 1) in IH2 by lia.
    rewrite !Z.pow_add_r in * by lia.
    replace (Z.of_nat n - 1 + 1 + 1 - 1) with (Z.of_nat n - 1 + 1) by lia.
    rewrite Z.pow_add_r by lia.
    pose proof (Z.div_mod u 10 ltac:(lia)). pose proof (Z.mod_pos_bound u 10 ltac:(lia)).
    split; [lia |]. split; [lia |]. intros _. lia.
Qed.

(** Reading a numeral gives the number back. *)
Lemma parseUintLoop_FormatUint s0 u : 0 <= u ->
  u <= maxUint64 -> forall rest,
  parseUintLoop s0 (FormatUint u +:+ rest) 0 = parseUintLoop s0 rest u.
Proof.
  revert u. apply (digits_ind (fun u => u <= maxUint64 -> forall rest,
    parseUintLoop s0 (FormatUint u +:+ rest) 0 = parseUintLoop s0 rest u)); intros u Hu.
  - intros Hmax rest. rewrite FormatUint_small, append_cons, append_nil_l by done.
    simpl. rewrite isDigit_digit, code_digit by done.
    unfold maxUint64 in *.
    replace (48 + u - 48) with u by lia.
    rewrite Z.mod_small by lia.
    replace (0 * 10 + u) with u by lia.
    replace (u <? 0 * 10) with false by lia.
    by replace (2 ^ 64 - 1 <? u) with false by lia.
  - intros IH Hmax rest.
    pose proof (Z.div_mod u 10 ltac:(lia)). pose proof (Z.mod_pos_bound u 10 ltac:(lia)).
    rewrite FormatUint_step, append_assoc, append_cons, append_nil_l by done.
    rewrite IH by lia. simpl.
    rewrite isDigit_digit, code_digit by done.
    unfold maxUint64 in *.
    replace (48 + u mod 10 - 48) with (u mod 10) by lia.
    replace (u / 10 * 10 + u mod 10) with u by lia.
    rewrite (Z.mod_small u) by lia.
    change ((2 ^ 64 - 1) `div` 10 + 1) with 1844674407370955162.
    change (2 ^ 64) with 18446744073709551616 in *.
    replace (1844674407370955162 <=? u / 10) with false by lia.
    replace (u <? u / 10 * 10) with false by lia.
    by replace (18446744073709551616 - 1 <? u) with false by lia.
Qed.

Lemma ParseUint_FormatUint u :
  0 <= u <= maxUint64 -> ParseUint (FormatUint u) = (u, None).
Proof.
  intros Hu. unfold ParseUint.
  pose proof (FormatUint_nonEmpty u ltac:(lia)) as Hne.
  destruct (FormatUint u) as [| c s] eqn:E; [done |].
  rewrite <- E. rewrite <- (append_nil_r (FormatUint u)) at 2.
  by rewrite parseUintLoop_FormatUint by lia.
Qed.

Lemma ParseInt_FormatInt i :
  - 2 ^ 63 <= i < 2 ^ 63 -> ParseInt (FormatInt i) = (i, None).
Proof.
  intros Hi. unfold FormatInt. destruct (i <? 0) eqn:E.
  - apply Z.ltb_lt in E. unfold ParseInt. simpl.
    rewrite ParseUint_FormatUint by (unfold maxUint64; lia). simpl.
    replace (2 ^ 63 <? - i) with false by lia.
    by rewrite Z.opp_involutive.
  - apply Z.ltb_ge in E.
    pose proof (FormatUint_nonEmpty i E) as Hne.
    pose proof (FormatUint_digits i E) as Hd.
    unfold ParseInt.
    destruct (FormatUint i) as [| c s] eqn:Ef; [done |].
    simpl in Hd. apply andb_prop in Hd as [Hc _].
    assert (Ascii.eqb c "+" = false /\ Ascii.eqb c "-" = false) as [-> ->].
    { unfold isDigit, code in Hc.
      split; apply Ascii.eqb_neq; intros ->; vm_compute in Hc; discriminate. }
    rewrite <- Ef, ParseUint_FormatUint by (unfold maxUint64; lia). simpl.
    by replace (2 ^ 63 <=? i) with false by lia.
Qed.

End Numerals.

(** ** Widths and overflow *)
Section Widths.
Context `{FloatSyntax}.
Import Strconv.

Lemma wrapS_small w x : 0 < w -> - 2 ^ (w - 1) <= x < 2 ^ (w - 1) -> wrapS w x = x.
Proof.
  intros Hw Hx. unfold wrapS.
  replace (2 ^ w) with (2 * 2 ^ (w - 1))
    by (rewrite <- Z.pow_succ_r by lia; f_equal; lia).
  rewrite Z.mod_small by lia. lia.
Qed.

Lemma wrapU_small w x : 0 <= x < 2 ^ w -> wrapU w x = x.
Proof. intros Hx. unfold wrapU. by rewrite Z.mod_small. Qed.

Lemma pow2_split w : 0 <= w <= 64 -> 2 ^ 64 = 2 ^ w * 2 ^ (64 - w).
Proof. intros Hw. rewrite <- Z.pow_add_r by lia. f_equal. lia. Qed.

(** Within the range of a width, nothing overflows. *)
Lemma no_overflow_signed w x :
  0 < w <= 64 -> - 2 ^ (w - 1) <= x < 2 ^ (w - 1) ->
  Z.shiftr (wrapS 64 (Z.shiftl x (64 - w))) (64 - w) = x.
Proof.
  intros Hw Hx. rewrite Z.shiftl_mul_pow2, Z.shiftr_div_pow2 by lia.
  assert (0 < 2 ^ (64 - w)) by (apply Z.pow_pos_nonneg; lia).
  assert (2 ^ (64 - 1) = 2 ^ (w - 1) * 2 ^ (64 - w))
    by (rewrite <- Z.pow_add_r by lia; f_equal; lia).
  rewrite wrapS_small by nia. by rewrite Z.div_mul by lia.
Qed.

Lemma no_overflow_unsigned w x :
  0 < w <= 64 -> 0 <= x < 2 ^ w ->
  Z.shiftr (wrapU 64 (Z.shiftl x (64 - w))) (64 - w) = x.
Proof.
  intros Hw Hx. rewrite Z.shiftl_mul_pow2, Z.shiftr_div_pow2 by lia.
  assert (0 < 2 ^ (64 - w)) by (apply Z.pow_pos_nonneg; lia).
  pose proof (pow2_split w ltac:(lia)).
  rewrite wrapU_small by nia. by rewrite Z.div_mul by lia.
Qed.

Lemma bitSize_bounds k : 0 < bitSize k <= 64.
Proof. destruct k; simpl; unfold IntSize; lia. Qed.

Lemma pow2_le_63 w : 0 < w <= 64 -> 2 ^ (w - 1) <= 2 ^ 63.
Proof. intros Hw. apply Z.pow_le_mono_r; lia. Qed.

Lemma pow2_le_64 w : 0 < w <= 64 -> 2 ^ w <= 2 ^ 64.
Proof. intros Hw. apply Z.pow_le_mono_r; lia. Qed.

Lemma ParseBool_Sprintf_t b : Strconv.ParseBool (Fmt.Sprintf_t b) = (b, None).
Proof. by destruct b. Qed.

(** A formatted scalar of an exact kind parses back to itself. *)
Lemma roundtrip_scalar t d0 ro d :
  exactKind (TypeKind t) = true -> inKind (TypeKind t) d = true ->
  parseFormValue (mkValue t d0 ro) (renderScalar (TypeKind t) d) = (d, None).
Proof.
  intros Hk Hd. unfold parseFormValue, OverflowInt, OverflowUint, SetInt, SetUint, ValueKind.
  simpl typ.
  destruct (TypeKind t) eqn:K; try discriminate Hk;
    destruct d; try discriminate Hd; cbn [renderScalar getString getBool getInt getUint];
    try done; try (by rewrite ParseBool_Sprintf_t);
    apply andb_prop in Hd as [Hlo Hhi]; apply Z.leb_le in Hlo; apply Z.ltb_lt in Hhi;
    cbn [bitSize] in *; unfold IntSize in *; simpl Z.sub in *; unfold Fmt.Sprintf_d.
  all: try (rewrite ParseInt_FormatInt by lia;
            rewrite no_overflow_signed, Z.eqb_refl by lia; simpl negb; cbv iota;
            by rewrite wrapS_small by lia).
  all: unfold Strconv.FormatInt; replace (n <? 0) with false by lia;
       rewrite ParseUint_FormatUint by (unfold Strconv.maxUint64; lia);
       rewrite no_overflow_unsigned, Z.eqb_refl by lia; simpl negb; cbv iota;
       by rewrite wrapU_small by lia.
Qed.

Lemma parseUintLoop_range s0 cs : forall n v,
  0 <= n <= maxUint64 -> parseUintLoop s0 cs n = (v, None) -> 0 <= v <= maxUint64.
Proof.
  induction cs as [| c cs IH]; intros n v Hn; simpl.
  - intros [= <-]. done.
  - destruct (isDigit c); [| done].
    destruct (_ <=? n); [done |].
    destruct (_ || _) eqn:E; [done |].
    apply orb_false_elim in E as [_ E]. apply Z.ltb_ge in E.
    apply IH. split; [| done]. apply Z.mod_pos_bound. lia.
Qed.

Lemma ParseUint_range s v : ParseUint s = (v, None) -> 0 <= v <= maxUint64.
Proof.
  unfold ParseUint. destruct s; [done |].
  apply parseUintLoop_range. unfold maxUint64. lia.
Qed.

Lemma parseUintLoop_overflow s0 cs : forall n v e,
  parseUintLoop s0 cs n = (v, Some e) -> Cause e = ErrRange -> v = maxUint64.
Proof.
  induction cs as [| c cs IH]; intros n v e; simpl; [done |].
  destruct (isDigit c); [| by intros [= <- <-]].
  destruct (_ <=? n); [by intros [= <- <-] |].
  destruct (_ || _); [by intros [= <- <-] |]. apply IH.
Qed.

Lemma ParseUint_overflow s v e :
  ParseUint s = (v, Some e) -> Cause e = ErrRange -> v = maxUint64.
Proof.
  unfold ParseUint. destruct s; [by intros [= <- <-] |]. apply parseUintLoop_overflow.
Qed.

Lemma ParseInt_range s v : ParseInt s = (v, None) -> - 2 ^ 63 <= v < 2 ^ 63.
Proof.
  unfold ParseInt. destruct s as [| c s]; [done |].
  destruct (if Ascii.eqb c "+" then _ else _) as [neg s'].
  destruct (ParseUint s') as [un [[fn num []] |]] eqn:E; try done.
  - apply ParseUint_overflow in E; [| done]. subst un. by destruct neg.
  - apply ParseUint_range in E.
    destruct (negb neg && (2 ^ 63 <=? un)) eqn:E1; [done |].
    destruct (neg && (2 ^ 63 <? un)) eqn:E2; [done |].
    intros [= <-]. destruct neg; simpl in *; lia.
Qed.

Lemma wrapS_range w x : 0 < w -> - 2 ^ (w - 1) <= wrapS w x < 2 ^ (w - 1).
Proof.
  intros Hw. unfold wrapS.
  assert (2 ^ w = 2 * 2 ^ (w - 1))
    by (rewrite <- Z.pow_succ_r by lia; f_equal; lia).
  pose proof (Z.mod_pos_bound (x + 2 ^ (w - 1)) (2 ^ w) ltac:(lia)). lia.
Qed.

(** The truncation of [OverflowInt] is within the width. *)
Lemma trunc_signed_range w x :
  0 < w <= 64 ->
  - 2 ^ (w - 1) <= Z.shiftr (wrapS 64 (Z.shiftl x (64 - w))) (64 - w) < 2 ^ (w - 1).
Proof.
  intros Hw. rewrite Z.shiftr_div_pow2 by lia.
  pose proof (wrapS_range 64 (Z.shiftl x (64 - w)) ltac:(lia)) as Hr.
  assert (0 < 2 ^ (64 - w)) by (apply Z.pow_pos_nonneg; lia).
  assert (E : 2 ^ (64 - 1) = 2 ^ (w - 1) * 2 ^ (64 - w))
    by (rewrite <- Z.pow_add_r by lia; f_equal; lia).
  rewrite E in Hr.
  set (a := 2 ^ (w - 1)) in *. set (p := 2 ^ (64 - w)) in *.
  set (y := wrapS 64 (Z.shiftl x (64 - w))) in *.
  split; [apply Z.div_le_lower_bound | apply Z.div_lt_upper_bound]; lia.
Qed.

Lemma trunc_unsigned_range w x :
  0 < w <= 64 ->
  0 <= Z.shiftr (wrapU 64 (Z.shiftl x (64 - w))) (64 - w) < 2 ^ w.
Proof.
  intros Hw. rewrite Z.shiftr_div_pow2 by lia. unfold wrapU.
  pose proof (Z.mod_pos_bound (Z.shiftl x (64 - w)) (2 ^ 64) ltac:(lia)) as Hr.
  assert (0 < 2 ^ (64 - w)) by (apply Z.pow_pos_nonneg; lia).
  pose proof (pow2_split w ltac:(lia)) as E.
  set (y := Z.shiftl x (64 - w) `mod` 2 ^ 64) in *.
  set (a := 2 ^ w) in *. set (p := 2 ^ (64 - w)) in *.
  split; [apply Z.div_pos | apply Z.div_lt_upper_bound]; lia.
Qed.

(** [OverflowInt] and [OverflowUint] report exactly the numbers outside
    the range of the width. *)
Lemma OverflowInt_spec f x :
  OverflowInt f x
  = negb ((- 2 ^ (bitSize (ValueKind f) - 1) <=? x) && (x <? 2 ^ (bitSize (ValueKind f) - 1))).
Proof.
  unfold OverflowInt. pose proof (bitSize_bounds (ValueKind f)) as Hb.
  set (w := bitSize (ValueKind f)) in *. f_equal.
  pose proof (trunc_signed_range w x Hb) as Ht.
  destruct (Z_le_dec (- 2 ^ (w - 1)) x), (Z_lt_dec x (2 ^ (w - 1))).
  - rewrite no_overflow_signed by lia. rewrite Z.eqb_refl. symmetry.
    apply andb_true_intro. split; [by apply Z.leb_le | by apply Z.ltb_lt].
  - transitivity false; [apply Z.eqb_neq; lia |]. symmetry.
    apply andb_false_intro2. by apply Z.ltb_ge, Z.nlt_ge.
  - transitivity false; [apply Z.eqb_neq; lia |]. symmetry.
    apply andb_false_intro1. apply Z.leb_gt. lia.
  - lia.
Qed.

Lemma OverflowUint_spec f x :
  0 <= x -> OverflowUint f x = negb (x <? 2 ^ bitSize (ValueKind f)).
Proof.
  intros Hx. unfold OverflowUint. pose proof (bitSize_bounds (ValueKind f)) as Hb.
  set (w := bitSize (ValueKind f)) in *. f_equal.
  pose proof (trunc_unsigned_range w x Hb) as Ht.
  destruct (Z_lt_dec x (2 ^ w)).
  - rewrite no_overflow_unsigned by lia. rewrite Z.eqb_refl. symmetry. by apply Z.ltb_lt.
  - transitivity false; [apply Z.eqb_neq; lia |]. symmetry. by apply Z.ltb_ge, Z.nlt_ge.
Qed.

(** On the exact kinds [parseFormValue] is the conversion table: the value
    of the table when there is one, and otherwise an error, the content as
    it was. *)
Lemma parseFormValue_exact f v :
  exactKind (ValueKind f) = true ->
  match specParse (ValueKind f) v with
  | Some d => parseFormValue f v = (d, None)
  | None => exists e, parseFormValue f v = (dat f, Some e)
  end.
Proof.
  intros Hk. unfold parseFormValue, specParse, SetInt, SetUint.
  pose proof (OverflowInt_spec f) as HI. pose proof (OverflowUint_spec f) as HU.
  destruct (ValueKind f) eqn:K; try discriminate Hk; try done;
    cbn [bitSize inKind] in *; unfold IntSize in *.
  1: { destruct (ParseBool v) as [b [e |]]; [by eexists | done]. }
  all: try (destruct (ParseInt v) as [n [e |]]; [by eexists |]; rewrite HI;
            destruct (_ && _) eqn:R; simpl; [| by eexists];
            by rewrite wrapS_small by lia).
  all: destruct (ParseUint v) as [n [e |]] eqn:E; [by eexists |];
       apply ParseUint_range in E; rewrite HU by lia; replace (0 <=? n) with true by lia;
       destruct (n <? _) eqn:R; simpl; [| by eexists];
       by rewrite wrapU_small by lia.
Qed.

End Widths.

(** ** Unmarshal *)
Section Unmarshalling.
Context `{FloatSyntax}.

(** [Unmarshal] at a field all of whose predecessors decode. *)
Lemma Unmarshal_at r s pre f post :
  ParseFormErr r = None ->
  Fields s = pre ++ f :: post ->
  decodeOk (Form r) pre ->
  Unmarshal r (IPtrStruct s) =
    match decodeField (Form r) f with
    | (_, Some e) =>
        (IPtrStruct (mkStruct (SType s) (map (decoded (Form r)) pre ++ f :: post)),
         Some (located (TypeName (SType s)) f e))
    | (d, None) =>
        let '(post', e) := unmarshalFields (Form r) (TypeName (SType s)) post in
        (IPtrStruct (mkStruct (SType s) (map (decoded (Form r)) pre ++ setContent f d :: post')),
         option_map UnmarshalTypeErr e)
    end.
Proof.
  intros Hp Hfs Hpre. rewrite Unmarshal_struct by done.
  rewrite Hfs, unmarshalFields_at by done.
  destruct (decodeField (Form r) f) as [d [e |]] eqn:E.
  - apply parseFormValues_error_keeps in E. subst d.
    by rewrite setContent_same.
  - by destruct (unmarshalFields _ _ post).
Qed.

Lemma fieldAfter_at T (pre : list StructField) f post :
  fieldAfter (IPtrStruct (mkStruct T (pre ++ f :: post))) (length pre) = Some f.
Proof. simpl. by rewrite list_lookup_middle. Qed.

Lemma length_decoded form (pre : list StructField) :
  length (map (decoded form) pre) = length pre.
Proof. apply length_map. Qed.

(** After [Unmarshal], a field is as it was or as its step left it. *)
Lemma unmarshalFields_lookup form sn fs : forall n f,
  fs !! n = Some f ->
  (unmarshalFields form sn fs).1 !! n = Some f \/
  (unmarshalFields form sn fs).1 !! n = Some (decoded form f).
Proof.
  induction fs as [| g fs IH]; intros n f Hn; [done |]. simpl.
  unfold decoded, decodeField.
  destruct (parseFormValues (FieldValue g) _) as [d [e |]] eqn:E.
  - apply parseFormValues_error_keeps in E. subst d. rewrite setContent_same. by left.
  - destruct (unmarshalFields form sn fs) as [rest' e'] eqn:E'.
    destruct n as [| n]; simpl in *.
    + simplify_eq. right. unfold decoded, decodeField. by rewrite E.
    + apply (IH n f Hn).
Qed.

Lemma Unmarshal_lookup r s n f :
  Fields s !! n = Some f ->
  fieldAfter (Unmarshal r (IPtrStruct s)).1 n = Some f \/
  fieldAfter (Unmarshal r (IPtrStruct s)).1 n = Some (decoded (Form r) f).
Proof.
  intros Hn. unfold Unmarshal, ParseForm. simpl.
  destruct (ParseFormErr r); [by left |].
  pose proof (unmarshalFields_lookup (Form r) (TypeName (SType s)) (Fields s) n f Hn).
  by destruct (unmarshalFields _ _ _).
Qed.

Lemma parseFormValues_scalar f values :
  values <> [] -> CanSet f = true -> seqKind (ValueKind f) = false ->
  parseFormValues f values =
    match values with
    | [v] => parseFormValue f v
    | _ => (dat f, Some (typeError (bracketed values) (typ f) moreThanOne))
    end.
Proof.
  intros Hne Hset Hseq. pose proof (TypeKind_valid (typ f)) as Hvalid.
  unfold parseFormValues, IsValid, ValueKind in *.
  rewrite Hset, (bool_decide_eq_true_2 _ Hvalid). simpl.
  rewrite (bool_decide_eq_false_2 (length values = 0%nat))
    by (destruct values; simpl; [done | lia]).
  simpl.
  rewrite !bool_decide_eq_false_2 by (intros E; rewrite E in Hseq; done).
  destruct values as [| v [| w values]]; simpl; done.
Qed.

(** *** Arity of scalar fields *)

(** C3, as the code has it: for an exported field whose kind is neither
    slice nor array, reached by [Unmarshal] after fields that all decode:
    with no value under its tag the field keeps its content and the step
    has no error; with exactly one value that converts, the field holds
    the converted value, which for a string, a boolean or an integer is
    the value of the conversion table; with two values or more
    [Unmarshal] stops with an
    [UnmarshalTypeError] that wraps "cannot unmarshal more than one value
    for non-slice field", the field as it was. *)
Theorem scalar_field_arity r s pre f post :
  ParseFormErr r = None ->
  Fields s = pre ++ f :: post ->
  decodeOk (Form r) pre ->
  Exported f = true ->
  seqKind (TypeKind (FType f)) = false ->
  let values := Url.index (Form r) (Tag f) in
  let out := Unmarshal r (IPtrStruct s) in
  (values = [] ->
     decodeField (Form r) f = (Content f, None) /\
     fieldAfter out.1 (length pre) = Some f) /\
  (forall v, values = [v] -> (parseFormValue (FieldValue f) v).2 = None ->
     decodeField (Form r) f = ((parseFormValue (FieldValue f) v).1, None) /\
     fieldAfter out.1 (length pre)
     = Some (setContent f (parseFormValue (FieldValue f) v).1)) /\
  (forall v d, values = [v] -> exactKind (TypeKind (FType f)) = true ->
     specParse (TypeKind (FType f)) v = Some d ->
     fieldAfter out.1 (length pre) = Some (setContent f d)) /\
  ((2 <= length values)%nat ->
     out = (IPtrStruct (mkStruct (SType s) (map (decoded (Form r)) pre ++ f :: post)),
            Some (UnmarshalTypeErr
                    (mkUnmarshalTypeError (bracketed values) (FType f)
                       (TypeName (SType s)) (Name f) moreThanOne)))).
Proof.
  intros Hp Hfs Hpre Hexp Hseq values out.
  pose proof (Unmarshal_at r s pre f post Hp Hfs Hpre) as Hout. fold out in Hout.
  assert (Hset : CanSet (FieldValue f) = true) by (unfold CanSet; simpl; by rewrite Hexp).
  assert (Hone : forall v, values = [v] -> (parseFormValue (FieldValue f) v).2 = None ->
            decodeField (Form r) f = ((parseFormValue (FieldValue f) v).1, None) /\
            fieldAfter out.1 (length pre)
            = Some (setContent f (parseFormValue (FieldValue f) v).1)).
  { intros v Hv Hok.
    assert (Hd : decodeField (Form r) f = ((parseFormValue (FieldValue f) v).1, None)).
    { unfold decodeField. fold values. rewrite Hv.
      rewrite parseFormValues_scalar by done.
      destruct (parseFormValue (FieldValue f) v) as [d e]. simpl in *. by subst e. }
    split; [done |]. rewrite Hout, Hd.
    destruct (unmarshalFields _ _ post). simpl.
    rewrite <- (length_decoded (Form r) pre). by rewrite list_lookup_middle. }
  split; [| split; [exact Hone | split]].
  - intros Hv. assert (Hd : decodeField (Form r) f = (Content f, None)).
    { unfold decodeField. fold values. rewrite Hv. by apply parseFormValues_skip; left. }
    split; [done |]. rewrite Hout, Hd.
    destruct (unmarshalFields _ _ post). simpl.
    rewrite setContent_same, <- (length_decoded (Form r) pre).
    by rewrite list_lookup_middle.
  - intros v d Hv Hk Hspec.
    pose proof (parseFormValue_exact (FieldValue f) v Hk) as Hx.
    unfold ValueKind in Hx. simpl typ in Hx. rewrite Hspec in Hx.
    destruct (Hone v Hv) as [_ Hafter]; [by rewrite Hx |]. by rewrite Hx in Hafter.
  - intros Hlen. rewrite Hout. unfold decodeField. fold values.
    assert (Hne : values <> []) by (intros E; rewrite E in Hlen; simpl in Hlen; lia).
    rewrite parseFormValues_scalar by done.
    clearbody values.
    destruct values as [| v [| w values']]; simpl in Hlen; try lia. done.
Qed.



(** *** Size of array fields *)

(** C4, as the code has it: for an exported array field, reached by
    [Unmarshal] after fields that all decode: with a number [N >= 1] of
    values other than its length, [Unmarshal] stops with an
    [UnmarshalTypeError] that wraps "cannot use [N]<elem> as <type> value
    in struct", where <type> is the type of the field as printed, which is
    [[M]<elem>] for an array type without a name; with as many values as
    its length, all converting, the field holds the converted values,
    value [i] at element [i]. *)
Theorem array_field_size r s pre f post :
  ParseFormErr r = None ->
  Fields s = pre ++ f :: post ->
  decodeOk (Form r) pre ->
  Exported f = true ->
  TypeKind (FType f) = Kind.Array ->
  let values := Url.index (Form r) (Tag f) in
  let et := TypeElem (FType f) in
  let out := Unmarshal r (IPtrStruct s) in
  (values <> [] -> length values <> TypeLen (FType f) ->
     out = (IPtrStruct (mkStruct (SType s) (map (decoded (Form r)) pre ++ f :: post)),
            Some (UnmarshalTypeErr
                    (mkUnmarshalTypeError (bracketed values) (FType f)
                       (TypeName (SType s)) (Name f)
                       (cannotUse (length values) et (FType f))))) /\
     forall M e, FType f = ArrayOf M e ->
       cannotUse (length values) et (FType f)
       = Errorf ("cannot use [" +:+ Fmt.Sprintf_d (Z.of_nat (length values)) +:+ "]" +:+
                 TypeString e +:+ " as [" +:+ Fmt.Sprintf_d (Z.of_nat M) +:+ "]" +:+
                 TypeString e +:+ " value in struct")) /\
  (values <> [] -> length values = TypeLen (FType f) -> firstError et values = None ->
     exists elems,
       decodeField (Form r) f = (DSeq elems, None) /\
       fieldAfter out.1 (length pre) = Some (setContent f (DSeq elems)) /\
       length elems = TypeLen (FType f) /\
       forall i v, values !! i = Some v -> elems !! i = Some (convert et v).1).
Proof.
  intros Hp Hfs Hpre Hexp Hk values et out.
  pose proof (Unmarshal_at r s pre f post Hp Hfs Hpre) as Hout. fold out in Hout.
  assert (Hset : CanSet (FieldValue f) = true) by (unfold CanSet; simpl; by rewrite Hexp).
  split.
  - intros Hne Hlen. split.
    + rewrite Hout. unfold decodeField, parseFormValues, IsValid, ValueKind. fold values.
      rewrite Hset. simpl. rewrite Hk.
      rewrite (bool_decide_eq_false_2 (length values = 0%nat))
        by (clearbody values; destruct values; simpl; [done | lia]).
      simpl. rewrite (bool_decide_eq_true_2 (TypeLen (FType f) <> length values)) by congruence.
      done.
    + intros M e HT. unfold cannotUse, et. rewrite HT. simpl.
      change " as [" with (" as " +:+ "["). unfold Fmt.Sprintf_d.
      by rewrite !append_assoc.
  - intros Hne Hlen Hconv.
    exists (map (fun v => (convert et v).1) values).
    assert (Hd : decodeField (Form r) f
                 = (DSeq (map (fun v => (convert et v).1) values), None)).
    { unfold decodeField. fold values.
      rewrite parseFormValues_seq; simpl; try done.
      - fold et. by rewrite Hconv.
      - right. by split. }
    split; [done |]. split; [| split].
    + rewrite Hout, Hd. destruct (unmarshalFields _ _ post). simpl.
      rewrite <- (length_decoded (Form r) pre). by rewrite list_lookup_middle.
    + by rewrite length_map.
    + intros i v Hi. by rewrite list_lookup_fmap, Hi.
Qed.

(** *** The overflow boundary *)

(** C5: into a value of kind [uint8], "257" does not decode, with the
    error "257 overflows <type> value", and "255" decodes to 255; into a
    value of any unsigned kind, "-1" does not decode, with the syntax error
    of [strconv.ParseUint] and no overflow error; and decoding one value
    into a scalar field that can be set is decoding it into the value. *)
Theorem uint8_overflow_boundary (f : Reflect.Value) :
  (ValueKind f = Kind.Uint8 ->
     parseFormValue f "257"
     = (dat f, Some (typeError "257" (typ f)
                       (Errorf ("257" +:+ " overflows " +:+ TypeString (typ f) +:+ " value"))))
     /\ parseFormValue f "255" = (DUint 255, None)) /\
  (uintKind (ValueKind f) = true ->
     parseFormValue f "-1"
     = (dat f, Some (typeError "-1" (typ f) (ENum (mkNumError "ParseUint" "-1" ErrSyntax))))) /\
  (uintKind (ValueKind f) = true -> CanSet f = true ->
     forall v, parseFormValues f [v] = parseFormValue f v).
Proof.
  split; [| split].
  - intros Hk. unfold parseFormValue, OverflowUint, SetUint. rewrite Hk. done.
  - intros Hk. unfold parseFormValue.
    destruct (ValueKind f); try discriminate Hk; done.
  - intros Hk Hset v. rewrite parseFormValues_scalar; try done.
    destruct (ValueKind f); try discriminate Hk; done.
Qed.

(** *** Fields that are skipped, fields that are refused *)

(** C6, as the code has it: a field with no value under its tag, and a
    field that cannot be set, is skipped without an error and keeps its
    content; an exported field of a kind that is not supported, with a
    value under its tag, makes [Unmarshal] stop with an
    [UnmarshalTypeError]: "type <type> cannot be unmarshalled from form"
    for one value, the error of a scalar with several values otherwise. *)
Theorem skipped_or_refused r s pre f post :
  ParseFormErr r = None ->
  Fields s = pre ++ f :: post ->
  decodeOk (Form r) pre ->
  let values := Url.index (Form r) (Tag f) in
  let out := Unmarshal r (IPtrStruct s) in
  (values = [] \/ Exported f = false ->
     decodeField (Form r) f = (Content f, None) /\
     fieldAfter out.1 (length pre) = Some f) /\
  (values <> [] -> Exported f = true ->
   scalarKind (TypeKind (FType f)) = false -> seqKind (TypeKind (FType f)) = false ->
     out = (IPtrStruct (mkStruct (SType s) (map (decoded (Form r)) pre ++ f :: post)),
            Some (UnmarshalTypeErr
                    match values with
                    | [v] => mkUnmarshalTypeError v (FType f) (TypeName (SType s)) (Name f)
                               (cannotUnmarshal (FType f))
                    | _ => mkUnmarshalTypeError (bracketed values) (FType f)
                             (TypeName (SType s)) (Name f) moreThanOne
                    end))).
Proof.
  intros Hp Hfs Hpre values out.
  pose proof (Unmarshal_at r s pre f post Hp Hfs Hpre) as Hout. fold out in Hout.
  split.
  - intros Hskip.
    assert (Hd : decodeField (Form r) f = (Content f, None)).
    { unfold decodeField. fold values. apply (parseFormValues_skip (FieldValue f)).
      destruct Hskip as [? | Hexp]; [by left | right].
      unfold CanSet. simpl. by rewrite Hexp. }
    split; [done |]. rewrite Hout, Hd.
    destruct (unmarshalFields _ _ post). simpl.
    rewrite setContent_same, <- (length_decoded (Form r) pre).
    by rewrite list_lookup_middle.
  - intros Hne Hexp Hsc Hseq. rewrite Hout. unfold decodeField. fold values.
    rewrite parseFormValues_scalar; try done;
      [| unfold CanSet; simpl; by rewrite Hexp].
    clearbody values. destruct values as [| v [| w values']]; try done.
    unfold parseFormValue, ValueKind, located, cannotUnmarshal. simpl.
    destruct (TypeKind (FType f)); try discriminate Hsc; try discriminate Hseq; done.
Qed.

(** *** A failing sequence field is not written *)

Lemma parseFormValues_seq_fails f values :
  seqKind (ValueKind f) = true ->
  firstError (TypeElem (typ f)) values <> None ->
  (parseFormValues f values).1 = dat f /\
  (CanSet f = true -> (parseFormValues f values).2 <> None).
Proof.
  intros Hseq Hfail.
  assert (Hne : values <> []) by (intros ->; done).
  destruct (CanSet f) eqn:Hset;
    [| rewrite parseFormValues_skip by (by right); done].
  assert (Hcases : ValueKind f = Kind.Slice \/ ValueKind f = Kind.Array)
    by (destruct (ValueKind f); try discriminate Hseq; auto).
  destruct (decide (ValueKind f = Kind.Array /\ TypeLen (typ f) <> length values))
    as [[Hk Hlen] | Hother].
  - unfold parseFormValues, IsValid. rewrite Hset, Hk. simpl.
    rewrite (bool_decide_eq_false_2 (length values = 0%nat))
      by (destruct values; simpl; [done | lia]).
    simpl. by rewrite (bool_decide_eq_true_2 _ Hlen).
  - rewrite parseFormValues_seq; try done.
    + by destruct (firstError _ _).
    + destruct Hcases as [? | Hk]; [by left | right]. split; [done |].
      destruct (decide (TypeLen (typ f) = length values)); [done |].
      exfalso. by apply Hother.
Qed.

(** C9: when a value under the tag of a slice or array field does not
    convert, the step of that field leaves its content as it was, and so
    does [Unmarshal]; when moreover the field is exported and the fields
    before it decode, [Unmarshal] stops with an error at that field, the
    fields before it holding their decoded values. *)
Theorem sequence_field_atomic r s pre f post :
  Fields s = pre ++ f :: post ->
  seqKind (TypeKind (FType f)) = true ->
  firstError (TypeElem (FType f)) (Url.index (Form r) (Tag f)) <> None ->
  (decodeField (Form r) f).1 = Content f /\
  fieldAfter (Unmarshal r (IPtrStruct s)).1 (length pre) = Some f /\
  (ParseFormErr r = None -> decodeOk (Form r) pre -> Exported f = true ->
     (Unmarshal r (IPtrStruct s)).1
     = IPtrStruct (mkStruct (SType s) (map (decoded (Form r)) pre ++ f :: post)) /\
     exists e, (Unmarshal r (IPtrStruct s)).2 = Some (UnmarshalTypeErr e) /\
               Struct e = TypeName (SType s) /\ Field e = Name f).
Proof.
  intros Hfs Hseq Hfail.
  destruct (parseFormValues_seq_fails (FieldValue f) (Url.index (Form r) (Tag f)))
    as [Hkeep Herr]; [done | done |].
  fold (decodeField (Form r) f) in Hkeep, Herr. simpl in Hkeep.
  split; [done |]. split.
  - destruct (Unmarshal_lookup r s (length pre) f) as [-> | ->]; try done.
    + rewrite Hfs. by rewrite list_lookup_middle.
    + unfold decoded. by rewrite Hkeep, setContent_same.
  - intros Hp Hpre Hexp. rewrite (Unmarshal_at r s pre f post) by done.
    specialize (Herr ltac:(unfold CanSet; simpl; by rewrite Hexp)).
    destruct (decodeField (Form r) f) as [d [e |]]; simpl in *; [| done].
    split; [done |]. by eexists.
Qed.

End Unmarshalling.

(** ** Invalid arguments *)
Section Arguments.
Context `{FloatSyntax}.

(** C7, as the code has it: an argument that is not a non-nil pointer to
    a struct is refused with an [InvalidUnmarshalError] that carries its
    type, and the message has three variants: "form: Unmarshal(nil)" for
    the nil interface, "form: Unmarshal(non-pointer <type>)" for a value
    that is not a pointer, "form: Unmarshal(nil <type>)" for every pointer,
    nil or pointing to a variable that is not a struct. *)
Theorem invalid_argument_messages (r : Request) :
  (Unmarshal r INil = (INil, Some (InvalidUnmarshalError None)) /\
   InvalidUnmarshalError_Error None = "form: Unmarshal(nil)"%string) /\
  (forall t, TypeKind t <> Kind.Pointer ->
     Unmarshal r (IValue t) = (IValue t, Some (InvalidUnmarshalError (Some t))) /\
     InvalidUnmarshalError_Error (Some t)
     = "form: Unmarshal(non-pointer " +:+ TypeString t +:+ ")") /\
  (forall e,
     Unmarshal r (INilPtr e) = (INilPtr e, Some (InvalidUnmarshalError (Some (PointerTo e)))) /\
     Unmarshal r (IPtr e) = (IPtr e, Some (InvalidUnmarshalError (Some (PointerTo e)))) /\
     InvalidUnmarshalError_Error (Some (PointerTo e))
     = "form: Unmarshal(nil *" +:+ TypeString e +:+ ")").
Proof.
  split; [done |]. split.
  - intros t Ht. unfold Unmarshal, InvalidUnmarshalError_Error. simpl.
    by rewrite (bool_decide_eq_true_2 _ Ht).
  - intros e. unfold InvalidUnmarshalError_Error. simpl.
    change "form: Unmarshal(nil *" with ("form: Unmarshal(nil " +:+ "*").
    by rewrite append_assoc.
Qed.

End Arguments.

(** ** Marshal *)
Section Marshalling.

(** A field without a tag contributes nothing to the mapping. *)
Lemma marshalFields_untagged sn fs : forall form,
  marshalFields sn fs form = marshalFields sn (filter tagged fs) form.
Proof.
  induction fs as [| f fs IH]; intros form; [done |]. simpl.
  destruct (decide (Tag f = EmptyString)) as [E | E].
  - rewrite filter_cons_False by (unfold tagged; by intros ?). apply IH.
  - rewrite filter_cons_True by done. simpl.
    destruct (decide (Tag f = EmptyString)); [done |].
    destruct (marshalFormValues _ _ _) as [form' [| e |]]; [apply IH | done | done].
Qed.

(** C10: [Marshal] ends with the request as it was unless every tagged
    field was formatted; then the raw query is the encoding of the mapping
    built from the tagged fields alone, whatever the query was before. *)
Theorem marshal_query_all_or_nothing (r : Request) (i : iface) :
  match Marshal r i with
  | (r', Done) =>
      exists s form,
        i = IPtrStruct s /\
        marshalFields (TypeName (SType s)) (filter tagged (Fields s)) ∅ = (form, Done) /\
        r' = mkRequest (Url.Encode form) (Form r) (ParseFormErr r) /\
        forall r2, (Marshal r2 i).2 = Done /\ RawQuery (Marshal r2 i).1 = RawQuery r'
  | (r', Failed e) =>
      r' = r /\
      match e with InvalidMarshalError _ | MarshalTypeErr _ => True | _ => False end
  | (r', Panicked) => r' = r
  end.
Proof.
  unfold Marshal.
  destruct (bool_decide (rvKind i <> Kind.Pointer) || rvIsNil i) eqn:E; [done |].
  destruct i as [| | | | s]; simpl in *; try done.
  pose proof (marshalFields_untagged (TypeName (SType s)) (Fields s) ∅) as Hu.
  destruct (marshalFields _ (Fields s) _) as [form [| e |]] eqn:Em; try done.
  exists s, form. by repeat split.
Qed.

End Marshalling.

(** ** The round trip *)
Section RoundTrip.
Context `{FloatSyntax}.

(** *** The mapping of Marshal *)

Lemma marshalFormValue_render tag f form :
  scalarKind (ValueKind f) = true ->
  marshalFormValue tag f form
  = (Url.Add tag (renderScalar (ValueKind f) (dat f)) form, Done).
Proof.
  unfold marshalFormValue. intros Hk.
  destruct (ValueKind f); try discriminate Hk; done.
Qed.

Lemma marshalElems_render tag f elems : forall form,
  scalarKind (TypeKind (TypeElem (typ f))) = true ->
  marshalElems tag f elems form
  = (addAll tag (map (renderScalar (TypeKind (TypeElem (typ f)))) elems) form, Done).
Proof.
  induction elems as [| d elems IH]; intros form Hk; [done |]. simpl.
  rewrite marshalFormValue_render by done. simpl. by rewrite IH.
Qed.

Lemma marshalFormValues_render tag f form :
  supportedType (typ f) = true ->
  marshalFormValues tag f form = (addAll tag (render (typ f) (dat f)) form, Done).
Proof.
  unfold marshalFormValues, supportedType, typeOver, render, ValueKind. intros Hs.
  destruct (seqKind (TypeKind (typ f))) eqn:Hseq.
  - replace (bool_decide (TypeKind (typ f) = Kind.Slice)
             || bool_decide (TypeKind (typ f) = Kind.Array)) with true
      by (destruct (TypeKind (typ f)); done).
    by apply marshalElems_render.
  - replace (bool_decide (TypeKind (typ f) = Kind.Slice)
             || bool_decide (TypeKind (typ f) = Kind.Array)) with false
      by (destruct (TypeKind (typ f)); done).
    by rewrite marshalFormValue_render.
Qed.

Lemma marshalFields_mapping sn fs : forall form,
  Forall (fun f => tagged f /\ supportedType (FType f) = true) fs ->
  marshalFields sn fs form = (mapping fs form, Done).
Proof.
  induction fs as [| f fs IH]; intros form Hfs; [done |].
  apply Forall_cons in Hfs as [[Ht Hs] Hfs]. simpl.
  destruct (decide (Tag f = EmptyString)); [done |].
  rewrite marshalFormValues_render by done. simpl. by apply IH.
Qed.

Lemma index_Add tag v (form : Url.Values) key :
  Url.index (Url.Add tag v form) key
  = if decide (key = tag) then Url.index form key ++ [v] else Url.index form key.
Proof.
  unfold Url.index, Url.Add. destruct (decide (key = tag)) as [-> | Hne].
  - by rewrite lookup_insert_eq.
  - by rewrite lookup_insert_ne.
Qed.

Lemma index_addAll tag vs : forall (form : Url.Values) key,
  Url.index (addAll tag vs form) key
  = if decide (key = tag) then Url.index form key ++ vs else Url.index form key.
Proof.
  induction vs as [| v vs IH]; intros form key; simpl.
  - destruct (decide (key = tag)); [by rewrite app_nil_r | done].
  - unfold addAll in *. simpl. rewrite IH, index_Add.
    destruct (decide (key = tag)); [by rewrite <- app_assoc | done].
Qed.

Lemma index_mapping_other fs : forall (form : Url.Values) key,
  key ∉ map Tag fs -> Url.index (mapping fs form) key = Url.index form key.
Proof.
  induction fs as [| f fs IH]; intros form key Hkey; [done |]. simpl in *.
  apply not_elem_of_cons in Hkey as [Hne Hkey]. unfold mapping in *. simpl.
  rewrite IH, index_addAll by done. by destruct (decide (key = Tag f)).
Qed.

Lemma index_mapping fs : forall (form : Url.Values) f,
  NoDup (map Tag fs) -> f ∈ fs ->
  Url.index (mapping fs form) (Tag f)
  = Url.index form (Tag f) ++ render (FType f) (Content f).
Proof.
  induction fs as [| g fs IH]; intros form f Hnd Hf; [by apply elem_of_nil in Hf |].
  simpl in Hnd. apply NoDup_cons in Hnd as [Hg Hnd].
  unfold mapping in *. simpl.
  apply elem_of_cons in Hf as [-> | Hf].
  - fold (mapping fs (addAll (Tag g) (render (FType g) (Content g)) form)).
    rewrite index_mapping_other, index_addAll by done.
    by destruct (decide (Tag g = Tag g)).
  - rewrite IH, index_addAll by done.
    destruct (decide (Tag f = Tag g)) as [E | ?]; [| done].
    exfalso. apply Hg. rewrite <- E. apply list_elem_of_fmap. by exists f.
Qed.

(** *** Decoding what Marshal wrote *)

Lemma zero_slice t : TypeKind t = Kind.Slice -> zero t = DSeq [].
Proof.
  induction t as [b | | | | | k ?]; simpl; try done; [by destruct b | by destruct k].
Qed.

Lemma zero_array t :
  TypeKind t = Kind.Array -> zero t = DSeq (replicate (TypeLen t) (zero (TypeElem t))).
Proof.
  induction t as [b | | | | | k ?]; simpl; try done; [by destruct b | by destruct k].
Qed.

Lemma firstError_render et (l : list data) :
  exactKind (TypeKind et) = true ->
  forallb (inKind (TypeKind et)) l = true ->
  firstError et (map (renderScalar (TypeKind et)) l) = None /\
  map (fun v => (convert et v).1) (map (renderScalar (TypeKind et)) l) = l.
Proof.
  intros Hk. induction l as [| d l IH]; intros Hl; [done |]. simpl in *.
  apply andb_prop in Hl as [Hd Hl]. destruct (IH Hl) as [IH1 IH2].
  unfold convert in *. rewrite roundtrip_scalar by done. simpl.
  split; [done |]. by rewrite IH2.
Qed.

(** A field of an exact type, written by [Marshal] into values of its own,
    is read back by the step of [Unmarshal] into a fresh field. *)
Lemma decode_render f :
  Exported f = true -> exactType (FType f) = true -> hasType (FType f) (Content f) = true ->
  parseFormValues (FieldValue (zeroField f)) (render (FType f) (Content f))
  = (Content f, None).
Proof.
  intros Hexp Hex Hty. unfold exactType, typeOver, render, hasType in *.
  assert (Hset : CanSet (FieldValue (zeroField f)) = true)
    by (unfold CanSet; simpl; by rewrite Hexp).
  destruct (seqKind (TypeKind (FType f))) eqn:Hseq.
  - assert (Hd : exists l, Content f = DSeq l /\
                   forallb (inKind (TypeKind (TypeElem (FType f)))) l = true /\
                   (TypeKind (FType f) = Kind.Slice \/
                    TypeKind (FType f) = Kind.Array /\ length l = TypeLen (FType f))).
    { destruct (TypeKind (FType f)); try discriminate Hseq;
        destruct (Content f) as [| | | | | | l |]; try discriminate Hty.
      - exists l. split; [done |]. apply andb_prop in Hty as [Hlen Hty].
        apply bool_decide_eq_true_1 in Hlen. split; [done |]. by right.
      - exists l. split; [done |]. split; [done |]. by left. }
    destruct Hd as (l & -> & Hl & Hkind). simpl getElems.
    destruct (firstError_render _ l Hex Hl) as [Herr Hmap].
    destruct l as [| d l].
    + rewrite parseFormValues_skip by (by left). simpl. f_equal.
      destruct Hkind as [Hk | [Hk Hlen]].
      * by apply zero_slice.
      * rewrite zero_array by done. simpl in Hlen. by rewrite <- Hlen.
    + rewrite parseFormValues_seq; try done.
      * simpl typ. rewrite Herr. by rewrite Hmap.
      * unfold ValueKind. simpl typ. destruct Hkind as [Hk | [Hk Hlen]]; [by left | right].
        split; [done |]. by rewrite length_map.
  - rewrite parseFormValues_scalar by done.
    apply roundtrip_scalar; [done |].
    destruct (TypeKind (FType f)); try discriminate Hseq; try discriminate Hex; done.
Qed.

Lemma unmarshalFields_ok form sn fs :
  decodeOk form fs -> unmarshalFields form sn fs = (map (decoded form) fs, None).
Proof.
  induction 1 as [| f fs Hf Hfs IH]; [done |]. simpl.
  unfold decoded, decodeField in *.
  destruct (parseFormValues (FieldValue f) _) as [d e]. simpl in *. subst e.
  by rewrite IH.
Qed.

Lemma decoded_zeroField form f :
  decodeField form (zeroField f) = (Content f, None) -> decoded form (zeroField f) = f.
Proof. unfold decoded. intros ->. by destruct f. Qed.

Lemma map_decoded_zeroField form fs :
  (forall f, f ∈ fs -> decodeField form (zeroField f) = (Content f, None)) ->
  map (decoded form) (map zeroField fs) = fs.
Proof.
  induction fs as [| f fs IH]; intros Hfs; [done |]. simpl.
  rewrite decoded_zeroField by (apply Hfs; by left).
  rewrite IH; [done |]. intros g Hg. apply Hfs. by right.
Qed.

(** C1, as the code has it: for a struct whose fields all have a tag, an
    exported name, a supported type and a content of that type within its
    range, no tag occurring twice: [Marshal] succeeds and writes the
    encoding of a mapping from which the step of [Unmarshal] reads every
    field of string, boolean or integer kind (or slice or array of these)
    back into a fresh field; when all the fields are such, [Unmarshal] of
    that mapping into a fresh struct of the type returns no error and
    leaves the struct equal to the one marshalled. *)
Theorem marshal_unmarshal_roundtrip (r : Request) (s : StructValue) :
  NoDup (map Tag (Fields s)) ->
  Forall roundTrips (Fields s) ->
  exists form,
    Marshal r (IPtrStruct s) = (mkRequest (Url.Encode form) (Form r) (ParseFormErr r), Done) /\
    marshalFields (TypeName (SType s)) (Fields s) ∅ = (form, Done) /\
    (forall f, f ∈ Fields s -> exactType (FType f) = true ->
       Url.index form (Tag f) = render (FType f) (Content f) /\
       decodeField form (zeroField f) = (Content f, None)) /\
    (Forall (fun f => exactType (FType f) = true) (Fields s) ->
     forall r', Form r' = form -> ParseFormErr r' = None ->
       Unmarshal r' (IPtrStruct (zeroStruct s)) = (IPtrStruct s, None)).
Proof.
  intros Hnd Hfs. exists (mapping (Fields s) ∅).
  assert (Hm : marshalFields (TypeName (SType s)) (Fields s) ∅
               = (mapping (Fields s) ∅, Done)).
  { apply marshalFields_mapping. eapply Forall_impl; [exact Hfs |].
    intros f (? & _ & ? & _). done. }
  assert (Hdec : forall f, f ∈ Fields s -> exactType (FType f) = true ->
            Url.index (mapping (Fields s) ∅) (Tag f) = render (FType f) (Content f) /\
            decodeField (mapping (Fields s) ∅) (zeroField f) = (Content f, None)).
  { intros f Hf Hex.
    assert (Hi : Url.index (mapping (Fields s) ∅) (Tag f) = render (FType f) (Content f))
      by (rewrite index_mapping by done; done).
    split; [done |]. unfold decodeField. simpl Tag. rewrite Hi.
    rewrite Forall_forall in Hfs. destruct (Hfs f Hf) as (_ & ? & _ & ?).
    by apply decode_render. }
  split; [| split; [done | split; [done |]]].
  - unfold Marshal. simpl. by rewrite Hm.
  - intros Hex r' Hform Hp. rewrite Unmarshal_struct by done. simpl. rewrite Hform.
    rewrite unmarshalFields_ok.
    + simpl. destruct s as [T fs]. simpl in *. do 3 f_equal.
      apply map_decoded_zeroField. intros f Hf.
      rewrite Forall_forall in Hex. apply Hdec; [done | by apply Hex].
    + apply Forall_fmap, Forall_forall. intros f Hf. simpl.
      rewrite Forall_forall in Hex. by rewrite (proj2 (Hdec f Hf (Hex f Hf))).
Qed.

End RoundTrip.

(** ** Formatted floats *)
Section Floats.
Import Strconv Fmt.

Lemma roundHalfEven_bounds a b c c' :
  0 < b -> c * b <= a -> a < c' * b -> c <= roundHalfEven a b <= c'.
Proof.
  intros Hb Hlo Hhi. unfold roundHalfEven.
  assert (c <= a / b) by (apply Z.div_le_lower_bound; lia).
  assert (a / b < c') by (apply Z.div_lt_upper_bound; lia).
  destruct (2 * (a mod b) ?= b); [destruct (Z.even (a / b)) |..]; lia.
Qed.

Lemma length_pad0 w s :
  String.length (pad0 w s) = Nat.max w (String.length s).
Proof.
  unfold pad0. induction (w - String.length s)%nat as [| n IH] eqn:E in w |- *; simpl.
  - lia.
  - rewrite (IH (w - 1)%nat) by lia. lia.
Qed.

Lemma allDigits_pad0 w s : allDigits s = true -> allDigits (pad0 w s) = true.
Proof.
  intros Hs. unfold pad0. induction (w - String.length s)%nat as [| n IH]; [done |].
  simpl. by rewrite IH.
Qed.

Lemma FormatUint_length_le u k :
  0 <= u < 10 ^ Z.of_nat k -> (1 <= k)%nat -> (String.length (FormatUint u) <= k)%nat.
Proof.
  intros Hu Hk. destruct (FormatUint_length u ltac:(lia)) as (H1 & H2 & H3).
  destruct (Z.eq_dec u 0) as [-> | Hne]; [by rewrite FormatUint_small by lia |].
  specialize (H3 ltac:(lia)).
  assert (Z.of_nat (String.length (FormatUint u)) - 1 < Z.of_nat k); [| lia].
  apply (Z.pow_lt_mono_r_iff 10); lia.
Qed.

Lemma without_app c s t : without c (s +:+ t) = without c s && without c t.
Proof.
  induction s as [| a s IH]; [done |]. rewrite append_cons. simpl.
  by rewrite IH, andb_assoc.
Qed.

Lemma without_digits c s : isDigit c = false -> allDigits s = true -> without c s = true.
Proof.
  intros Hc. induction s as [| a s IH]; [done |]. simpl. intros Hs.
  apply andb_prop in Hs as [Ha Hs]. rewrite IH by done.
  destruct (Ascii.eqb_spec a c) as [-> |]; [congruence | done].
Qed.

Lemma cut_app c s rest :
  without c s = true -> cut c (s +:+ String c rest) = Some (s, rest).
Proof.
  induction s as [| a s IH]; simpl.
  - intros _. by rewrite Ascii.eqb_refl.
  - intros Hs. apply andb_prop in Hs as [Ha Hs]. rewrite ?append_cons. simpl.
    apply negb_true_iff in Ha. by rewrite Ha, IH.
Qed.

Lemma append_char c s : String c EmptyString +:+ s = String c s.
Proof. done. Qed.

(** The digits around the point. *)
Lemma fixedDigits_shape q :
  0 <= q ->
  isFixed6 (fixedDigits 6 q) = true /\
  without "e" (fixedDigits 6 q) = true /\
  String.length (fixedDigits 6 q)
  = (String.length (FormatUint (q / 10 ^ 6)) + 7)%nat /\
  exists c rest, fixedDigits 6 q = String c rest /\ isDigit c = true.
Proof.
  intros Hq. unfold fixedDigits, isFixed6.
  assert (0 <= q / 10 ^ 6) by (apply Z.div_pos; lia).
  pose proof (Z.mod_pos_bound q (10 ^ 6) ltac:(lia)) as Hr.
  pose proof (FormatUint_digits (q / 10 ^ 6) ltac:(lia)) as Hd1.
  pose proof (FormatUint_nonEmpty (q / 10 ^ 6) ltac:(lia)) as Hn1.
  pose proof (FormatUint_digits (q mod 10 ^ 6) ltac:(lia)) as Hd2.
  pose proof (FormatUint_length_le (q mod 10 ^ 6) 6 ltac:(lia) ltac:(lia)) as Hl2.
  pose proof (allDigits_pad0 6 _ Hd2) as Hd3.
  pose proof (length_pad0 6 (FormatUint (q mod 10 ^ 6))) as Hl3.
  change (Z.to_nat 6) with 6%nat. rewrite append_char.
  split; [| split; [| split]].
  - rewrite cut_app by (by apply without_digits).
    rewrite Hn1, Hd1, Hd3. simpl. apply bool_decide_eq_true_2. lia.
  - rewrite !without_app. simpl.
    by rewrite !without_digits.
  - rewrite !length_append. simpl. lia.
  - destruct (FormatUint (q / 10 ^ 6)) as [| c s]; [done |].
    exists c. eexists. rewrite append_cons. split; [done |].
    simpl in Hd1. by apply andb_prop in Hd1 as [? _].
Qed.

Lemma roundHalfEven_nonneg a b : 0 <= a -> 0 < b -> 0 <= roundHalfEven a b.
Proof.
  intros Ha Hb. destruct (roundHalfEven_bounds a b 0 (a + 1) Hb); nia.
Qed.

Lemma fraction_pos m e : 0 < (fraction m e).1 /\ 0 < (fraction m e).2.
Proof.
  unfold fraction. destruct (0 <=? e) eqn:E; simpl.
  - apply Z.leb_le in E. split; [| lia]. apply Z.mul_pos_pos; [lia |].
    apply Z.pow_pos_nonneg; lia.
  - apply Z.leb_gt in E. split; [lia |]. apply Z.pow_pos_nonneg; lia.
Qed.

Lemma fmtF_shape m e :
  isFixed6 (fmtF 6 m e) = true /\
  exists c rest, fmtF 6 m e = String c rest /\ isDigit c = true.
Proof.
  unfold fmtF. pose proof (fraction_pos m e) as [Hn Hd].
  destruct (fraction m e) as [num den]. simpl in *.
  destruct (fixedDigits_shape (roundHalfEven (num * 10 ^ 6) den)) as (? & _ & _ & ?);
    [apply roundHalfEven_nonneg; lia | done].
Qed.

(** *** The decimal exponent *)

(** [10^j <= num / den], over a common power of ten. *)
Lemma gePow10_scaled num den j N :
  Z.abs j <= N ->
  gePow10 num den j = true <-> den * 10 ^ (N + j) <= num * 10 ^ N.
Proof.
  intros HN. unfold gePow10. destruct (0 <=? j) eqn:E.
  - apply Z.leb_le in E. rewrite Z.leb_le, Z.pow_add_r by lia.
    assert (0 < 10 ^ N) by (apply Z.pow_pos_nonneg; lia). nia.
  - apply Z.leb_gt in E. rewrite Z.leb_le.
    replace N with (N + j + - j) at 2 by lia. rewrite (Z.pow_add_r 10 (N + j)) by lia.
    assert (0 < 10 ^ (N + j)) by (apply Z.pow_pos_nonneg; lia). nia.
Qed.

Lemma floorLog10_spec num den :
  0 < num -> 0 < den ->
  gePow10 num den (floorLog10 num den) = true /\
  gePow10 num den (floorLog10 num den + 1) = false.
Proof.
  intros Hn Hd. unfold floorLog10, ndigits.
  destruct (FormatUint_length num ltac:(lia)) as (Hn1 & Hn2 & Hn3).
  destruct (FormatUint_length den ltac:(lia)) as (Hd1 & Hd2 & Hd3).
  specialize (Hn3 ltac:(lia)). specialize (Hd3 ltac:(lia)).
  set (dn := Z.of_nat (String.length (FormatUint num))) in *.
  set (dd := Z.of_nat (String.length (FormatUint den))) in *.
  set (N := dn + dd + 2).
  assert (Hpos : forall a, 0 <= a -> 0 < 10 ^ a) by (intros; apply Z.pow_pos_nonneg; lia).
  assert (Hup : gePow10 num den (dn - dd + 1) = false).
  { apply not_true_is_false. rewrite (gePow10_scaled num den _ N) by lia. unfold N.
    replace (dn + dd + 2 + (dn - dd + 1)) with (2 * dn + 3) by lia.
    assert (E1 : 10 ^ dn * 10 ^ (dn + dd + 2) = 10 ^ (dd - 1) * 10 ^ (2 * dn + 3))
      by (rewrite <- !Z.pow_add_r by lia; f_equal; lia).
    assert (num * 10 ^ (dn + dd + 2) < 10 ^ dn * 10 ^ (dn + dd + 2))
      by (apply Z.mul_lt_mono_pos_r; [apply Hpos |]; lia).
    assert (10 ^ (dd - 1) * 10 ^ (2 * dn + 3) <= den * 10 ^ (2 * dn + 3))
      by (apply Z.mul_le_mono_nonneg_r; [apply Z.lt_le_incl, Hpos |]; lia).
    lia. }
  assert (Hdown : gePow10 num den (dn - dd - 1) = true).
  { rewrite (gePow10_scaled num den _ N) by lia. unfold N.
    replace (dn + dd + 2 + (dn - dd - 1)) with (2 * dn + 1) by lia.
    assert (E1 : 10 ^ dd * 10 ^ (2 * dn + 1) = 10 ^ (dn - 1) * 10 ^ (dn + dd + 2))
      by (rewrite <- !Z.pow_add_r by lia; f_equal; lia).
    assert (den * 10 ^ (2 * dn + 1) <= 10 ^ dd * 10 ^ (2 * dn + 1))
      by (apply Z.mul_le_mono_nonneg_r; [apply Z.lt_le_incl, Hpos |]; lia).
    assert (10 ^ (dn - 1) * 10 ^ (dn + dd + 2) <= num * 10 ^ (dn + dd + 2))
      by (apply Z.mul_le_mono_nonneg_r; [apply Z.lt_le_incl, Hpos |]; lia).
    lia. }
  destruct (gePow10 num den (dn - dd)) eqn:E; [done |].
  split; [done |]. by replace (dn - dd - 1 + 1) with (dn - dd) by lia.
Qed.

Lemma roundScaled_bounds num den s c c' N :
  0 < den -> Z.abs s <= N ->
  c * den * 10 ^ (N + s) <= num * 10 ^ N ->
  num * 10 ^ N < c' * den * 10 ^ (N + s) ->
  c <= roundScaled num den s <= c'.
Proof.
  intros Hd HN Hlo Hhi. unfold roundScaled.
  destruct (0 <=? s) eqn:E.
  - apply Z.leb_le in E. rewrite Z.pow_add_r in * by lia.
    assert (0 < 10 ^ N) by (apply Z.pow_pos_nonneg; lia).
    assert (0 < 10 ^ s) by (apply Z.pow_pos_nonneg; lia).
    apply roundHalfEven_bounds; nia.
  - apply Z.leb_gt in E.
    replace N with (N + s + - s) in Hlo at 2 by lia.
    replace N with (N + s + - s) in Hhi at 1 by lia.
    rewrite (Z.pow_add_r 10 (N + s)) in * by lia.
    assert (0 < 10 ^ (N + s)) by (apply Z.pow_pos_nonneg; lia).
    apply roundHalfEven_bounds; nia.
Qed.

(** Seven significant digits. *)
Lemma fmtE_mantissa num den :
  0 < num -> 0 < den ->
  10 ^ 6 <= roundScaled num den (floorLog10 num den - 6) <= 10 ^ 7.
Proof.
  intros Hn Hd. destruct (floorLog10_spec num den Hn Hd) as [Hge Hlt].
  set (k := floorLog10 num den) in *. set (N := Z.abs k + 7).
  apply (gePow10_scaled num den k N) in Hge; [| lia].
  apply not_true_iff_false in Hlt. rewrite (gePow10_scaled num den (k + 1) N) in Hlt by lia.
  apply (roundScaled_bounds num den (k - 6) _ _ N); try lia.
  - replace (N + k) with (6 + (N + (k - 6))) in Hge by lia.
    rewrite Z.pow_add_r in Hge by lia. lia.
  - replace (N + (k + 1)) with (7 + (N + (k - 6))) in Hlt by lia.
    rewrite Z.pow_add_r in Hlt by lia. lia.
Qed.

Lemma fmtE_shape m e :
  isSci6 (fmtE 6 m e) = true /\
  exists c rest, fmtE 6 m e = String c rest /\ isDigit c = true.
Proof.
  unfold fmtE. pose proof (fraction_pos m e) as [Hn Hd].
  destruct (fraction m e) as [num den]. simpl in Hn, Hd.
  pose proof (fmtE_mantissa num den Hn Hd) as Hq.
  set (k := floorLog10 num den) in *. set (q := roundScaled num den (k - 6)) in *.
  assert (Hnorm : exists q' k', (if 10 ^ (6 + 1) <=? q then (q / 10, k + 1) else (q, k)) = (q', k')
                                /\ 10 ^ 6 <= q' < 10 ^ 7).
  { destruct (10 ^ (6 + 1) <=? q) eqn:E.
    - apply Z.leb_le in E. change (10 ^ (6 + 1)) with (10 ^ 7) in E.
      assert (q = 10 ^ 7) as -> by lia. exists (10 ^ 7 / 10), (k + 1). split; [done |].
      by vm_compute.
    - apply Z.leb_gt in E. change (10 ^ (6 + 1)) with (10 ^ 7) in E.
      exists q, k. split; [done | lia]. }
  destruct Hnorm as (q' & k' & -> & Hq').
  destruct (fixedDigits_shape q' ltac:(lia)) as (Hfix & Hno & Hlen & c & rest & Hc & Hdig).
  assert (Hone : String.length (FormatUint (q' / 10 ^ 6)) = 1%nat).
  { rewrite FormatUint_small; [done |].
    split; [apply Z.div_pos; lia | apply Z.div_lt_upper_bound; lia]. }
  split.
  - unfold isSci6. rewrite append_char, cut_app by done.
    pose proof (FormatUint_digits (Z.abs k') ltac:(lia)) as Hd1.
    pose proof (length_pad0 2 (FormatUint (Z.abs k'))) as Hl.
    destruct (k' <? 0); rewrite append_char;
      rewrite Hfix, allDigits_pad0 by done; simpl;
      rewrite !bool_decide_eq_true_2 by lia; done.
  - exists c. eexists. rewrite Hc, append_cons. by split.
Qed.

(** *** Signs *)

Lemma fmtFloat_finite plus v x body c rest :
  FormatFloat v x = (if Float.sign x then "-" else "") +:+ body ->
  body = String c rest -> isDigit c = true ->
  signedAs plus (Float.sign x) body (fmtFloat plus v x).
Proof.
  intros Hf -> Hc. unfold fmtFloat, signedAs. rewrite Hf.
  assert (Hc' : Ascii.eqb c "-" = false /\ Ascii.eqb c "+" = false /\
                Ascii.eqb c "I" = false /\ Ascii.eqb c "N" = false).
  { unfold isDigit, code in Hc.
    repeat split; apply Ascii.eqb_neq; intros ->; vm_compute in Hc; discriminate. }
  destruct Hc' as (E1 & E2 & E3 & E4).
  destruct (Float.sign x); rewrite ?append_cons, ?append_nil_l; simpl.
  - rewrite E3, E4, orb_true_r. done.
  - rewrite E1, E2. simpl. rewrite E3, E4. simpl. by destruct plus.
Qed.

Lemma FormatFloat_finite v x :
  Float.is_finite x = true ->
  exists body c rest,
    FormatFloat v x = (if Float.sign x then "-" else "") +:+ body /\
    body = String c rest /\ isDigit c = true /\
    match v with VerbF => isFixed6 body | VerbE => isSci6 body end = true.
Proof.
  destruct x as [s | s | | s m e]; try discriminate; intros _; simpl.
  - destruct v; eexists; exists "0"%char; eexists; repeat split.
  - destruct v.
    + destruct (fmtE_shape m e) as (? & c & rest & ? & ?). by exists (fmtE 6 m e), c, rest.
    + destruct (fmtF_shape m e) as (? & c & rest & ? & ?). by exists (fmtF 6 m e), c, rest.
Qed.

Lemma Sprintf_f_finite x :
  Float.is_finite x = true ->
  exists body, isFixed6 body = true /\ signedAs false (Float.sign x) body (Sprintf_f x).
Proof.
  intros Hx. destruct (FormatFloat_finite VerbF x Hx) as (body & c & rest & Hf & Hb & Hc & Hs).
  exists body. split; [done |]. by eapply fmtFloat_finite.
Qed.

Lemma Sprintf_e_finite re im :
  Float.is_finite re = true -> Float.is_finite im = true ->
  exists a b sa sb,
    isSci6 a = true /\ isSci6 b = true /\
    signedAs false (Float.sign re) a sa /\ signedAs true (Float.sign im) b sb /\
    Sprintf_e (re, im) = "(" +:+ sa +:+ sb +:+ "i)".
Proof.
  intros Hre Him.
  destruct (FormatFloat_finite VerbE re Hre) as (a & c & rest & Hf & Hb & Hc & Hs).
  destruct (FormatFloat_finite VerbE im Him) as (b & c' & rest' & Hf' & Hb' & Hc' & Hs').
  exists a, b, (fmtFloat false VerbE re), (fmtFloat true VerbE im).
  repeat split; try done; by eapply fmtFloat_finite.
Qed.

Lemma isDecimal_FormatInt n : isDecimal (n <? 0) (FormatInt n) = true.
Proof.
  unfold FormatInt, isDecimal. destruct (n <? 0) eqn:E.
  - apply Z.ltb_lt in E.
    by rewrite FormatUint_nonEmpty, FormatUint_digits by lia.
  - apply Z.ltb_ge in E. by rewrite FormatUint_nonEmpty, FormatUint_digits by lia.
Qed.

(** C8, as the code has it: a value of a supported scalar kind is added to
    the mapping as one string: a string as it is, a boolean as [true] or
    [false], an integer as its decimal numeral, a finite float as digits, a
    point and six digits under its sign, a complex number with finite parts
    as both parts in the form [d.dddddde+dd], the imaginary part always
    under a sign, between parentheses and before [i]; a float that is not
    finite is written [NaN], [+Inf] or [-Inf]. *)
Theorem scalar_formats (tag : string) (f : Reflect.Value) (form : Url.Values) :
  scalarKind (ValueKind f) = true -> inKind (ValueKind f) (dat f) = true ->
  exists str,
    marshalFormValue tag f form = (Url.Add tag str form, Done) /\
    match dat f with
    | DString s => str = s
    | DBool b => str = if b then "true"%string else "false"%string
    | DInt n => isDecimal (n <? 0) str = true /\ ParseInt str = (n, None)
    | DUint n => isDecimal false str = true /\ ParseUint str = (n, None)
    | DFloat x =>
        (Float.is_finite x = true ->
         exists body, isFixed6 body = true /\ signedAs false (Float.sign x) body str) /\
        (x = S754_nan -> str = "NaN"%string) /\
        (forall s, x = S754_infinity s -> str = if s then "-Inf"%string else "+Inf"%string)
    | DComplex re im =>
        Float.is_finite re = true -> Float.is_finite im = true ->
        exists a b sa sb,
          isSci6 a = true /\ isSci6 b = true /\
          signedAs false (Float.sign re) a sa /\ signedAs true (Float.sign im) b sb /\
          str = "(" +:+ sa +:+ sb +:+ "i)"
    | _ => False
    end.
Proof.
  intros Hk Hd. exists (renderScalar (ValueKind f) (dat f)).
  unfold scalarKind in Hk. rewrite marshalFormValue_render by done.
  split; [done |].
  destruct (ValueKind f) eqn:K; try discriminate Hk;
    destruct (dat f) as [s | b | n | n | x | re im | l | o]; try discriminate Hd;
    cbn [renderScalar getString getBool getInt getUint getFloat getComplex]; try done.
  all: try (apply andb_prop in Hd as [Hlo Hhi]; apply Z.leb_le in Hlo; apply Z.ltb_lt in Hhi;
            cbn [bitSize] in *; unfold IntSize in *; simpl Z.sub in *; unfold Sprintf_d).
  all: try (split; [apply isDecimal_FormatInt | apply ParseInt_FormatInt; lia]).
  all: try (pose proof (isDecimal_FormatInt n) as Hdec;
            replace (n <? 0) with false in Hdec by lia; split; [done |];
            unfold FormatInt; replace (n <? 0) with false by lia;
            apply ParseUint_FormatUint; unfold maxUint64; lia).
  all: try (split; [apply Sprintf_f_finite | split; [by intros -> | by intros [] ->]]).
  all: apply Sprintf_e_finite.
Qed.

End Floats.

(** ** The claims on concrete inputs *)

(** C2: [Marshal] adds nothing to the mapping for a field without a tag,
    and the step of [Unmarshal] leaves such a field as it was when the
    mapping has no value under the empty key; but [Unmarshal] looks the
    empty tag up like any other, and a field without a tag is written when
    the mapping has values under the empty key, here the query [=x] into
    [struct { A string `form:"a"`; B string }]. *)
Theorem untagged_field_written :
  (forall sn fs form,
     marshalFields sn fs form = marshalFields sn (filter tagged fs) form) /\
  (forall form f, Tag f = EmptyString -> Url.index form EmptyString = [] ->
     decodeField form f = (Content f, None)) /\
  Unmarshal (Ex.request {["" := ["x"]]}) (IPtrStruct (Ex.untagged "a" "b"))
  = (IPtrStruct (Ex.untagged "a" "x"), None).
Proof.
  split; [exact marshalFields_untagged | split].
  - intros form f Htag Hidx. unfold decodeField. rewrite Htag, Hidx.
    apply parseFormValues_skip. by left.
  - vm_compute. reflexivity.
Qed.

(** C3 fails as stated on a field that is not exported: two values under
    its tag are let through, the field as it was. *)
Lemma scalar_field_arity_counterexample :
  Unmarshal (Ex.request (Ex.query ["5"; "6"]))
    (IPtrStruct (Ex.named (Basic Tint) false "" (DInt 0)))
  = (IPtrStruct (Ex.named (Basic Tint) false "John" (DInt 0)), None).
Proof. vm_compute. reflexivity. Qed.

Lemma scalar_field_arity_witness :
  Unmarshal (Ex.request (Ex.query ["5"; "6"]))
    (IPtrStruct (Ex.named (Basic Tint) true "" (DInt 0)))
  = (IPtrStruct (Ex.named (Basic Tint) true "John" (DInt 0)),
     Some (UnmarshalTypeErr
             (mkUnmarshalTypeError "[5, 6]" (Basic Tint) "s" "Val" moreThanOne)))
  /\
  fieldAfter (Unmarshal (Ex.request (Ex.query ["24"]))
                (IPtrStruct (Ex.named (Basic Tint) true "" (DInt 0)))).1 1
  = Some (Ex.valField (Basic Tint) true (DInt 24)).
Proof.
  split.
  - refine (proj2 (proj2 (proj2 (scalar_field_arity (Ex.request (Ex.query ["5"; "6"]))
              (Ex.named (Basic Tint) true "" (DInt 0))
              [Ex.nameField ""] (Ex.valField (Basic Tint) true (DInt 0)) []
              _ _ _ _ _))) _).
    + reflexivity.
    + reflexivity.
    + repeat constructor.
    + reflexivity.
    + reflexivity.
    + vm_compute. lia.
  - refine (proj1 (proj2 (proj2 (scalar_field_arity (Ex.request (Ex.query ["24"]))
              (Ex.named (Basic Tint) true "" (DInt 0))
              [Ex.nameField ""] (Ex.valField (Basic Tint) true (DInt 0)) []
              _ _ _ _ _))) "24"%string (DInt 24) _ _ _).
    + reflexivity.
    + reflexivity.
    + repeat constructor.
    + reflexivity.
    + reflexivity.
    + vm_compute. reflexivity.
    + reflexivity.
    + vm_compute. reflexivity.
Defined.

(** C4 fails as stated on an array field that is not exported (three values
    for a [[2]int] are let through), and on an array field of a defined type
    (the message names the type, not its length). *)
Lemma array_field_size_counterexample :
  Unmarshal (Ex.request (Ex.query ["5"; "6"; "7"]))
    (IPtrStruct (Ex.named (ArrayOf 2 (Basic Tint)) false "" (DSeq [DInt 0; DInt 0])))
  = (IPtrStruct (Ex.named (ArrayOf 2 (Basic Tint)) false "John" (DSeq [DInt 0; DInt 0])), None)
  /\
  Unmarshal (Ex.request (Ex.query ["5"; "6"; "7"]))
    (IPtrStruct (Ex.named Ex.Pair true "" (DSeq [DInt 0; DInt 0])))
  = (IPtrStruct (Ex.named Ex.Pair true "John" (DSeq [DInt 0; DInt 0])),
     Some (UnmarshalTypeErr
             (mkUnmarshalTypeError "[5, 6, 7]" Ex.Pair "s" "Val"
                (Errorf "cannot use [3]int as form_test.Pair value in struct")))).
Proof. split; vm_compute; reflexivity. Qed.

Lemma array_field_size_witness :
  Unmarshal (Ex.request (Ex.query ["5"; "6"; "7"]))
    (IPtrStruct (Ex.named (ArrayOf 2 (Basic Tint)) true "" (DSeq [DInt 0; DInt 0])))
  = (IPtrStruct (Ex.named (ArrayOf 2 (Basic Tint)) true "John" (DSeq [DInt 0; DInt 0])),
     Some (UnmarshalTypeErr
             (mkUnmarshalTypeError "[5, 6, 7]" (ArrayOf 2 (Basic Tint)) "s" "Val"
                (Errorf "cannot use [3]int as [2]int value in struct"))))
  /\
  exists elems,
    fieldAfter (Unmarshal (Ex.request (Ex.query ["5"; "6"]))
                  (IPtrStruct (Ex.named (ArrayOf 2 (Basic Tint)) true "" (DSeq [DInt 0; DInt 0])))).1 1
    = Some (Ex.valField (ArrayOf 2 (Basic Tint)) true (DSeq elems)) /\
    elems !! 0%nat = Some (DInt 5) /\ elems !! 1%nat = Some (DInt 6).
Proof.
  split.
  - refine (proj1 (proj1 (array_field_size (Ex.request (Ex.query ["5"; "6"; "7"]))
              (Ex.named (ArrayOf 2 (Basic Tint)) true "" (DSeq [DInt 0; DInt 0]))
              [Ex.nameField ""] (Ex.valField (ArrayOf 2 (Basic Tint)) true (DSeq [DInt 0; DInt 0])) []
              _ _ _ _ _) _ _)).
    + reflexivity.
    + reflexivity.
    + repeat constructor.
    + reflexivity.
    + reflexivity.
    + vm_compute. discriminate.
    + vm_compute. discriminate.
  - destruct (proj2 (array_field_size (Ex.request (Ex.query ["5"; "6"]))
              (Ex.named (ArrayOf 2 (Basic Tint)) true "" (DSeq [DInt 0; DInt 0]))
              [Ex.nameField ""] (Ex.valField (ArrayOf 2 (Basic Tint)) true (DSeq [DInt 0; DInt 0])) []
              eq_refl eq_refl ltac:(repeat constructor) eq_refl eq_refl)
              ltac:(vm_compute; discriminate) ltac:(vm_compute; reflexivity)
              ltac:(vm_compute; reflexivity))
      as (elems & _ & Hfield & _ & Hpos).
    exists elems. split; [exact Hfield |]. split.
    + exact (Hpos 0%nat "5"%string ltac:(vm_compute; reflexivity)).
    + exact (Hpos 1%nat "6"%string ltac:(vm_compute; reflexivity)).
Defined.

Lemma uint8_overflow_boundary_witness :
  parseFormValue (mkValue (Basic Tuint8) (DUint 7) false) "257"
  = (DUint 7, Some (typeError "257" (Basic Tuint8) (Errorf "257 overflows uint8 value"))) /\
  parseFormValue (mkValue (Basic Tuint8) (DUint 7) false) "255" = (DUint 255, None) /\
  parseFormValue (mkValue (Basic Tuint32) (DUint 7) false) "-1"
  = (DUint 7, Some (typeError "-1" (Basic Tuint32) (ENum (mkNumError "ParseUint" "-1" ErrSyntax))))
  /\
  parseFormValues (mkValue (Basic Tuint8) (DUint 7) false) ["257"%string]
  = parseFormValue (mkValue (Basic Tuint8) (DUint 7) false) "257".
Proof.
  split; [| split; [| split]].
  - exact (proj1 (proj1 (uint8_overflow_boundary (mkValue (Basic Tuint8) (DUint 7) false))
                    eq_refl)).
  - exact (proj2 (proj1 (uint8_overflow_boundary (mkValue (Basic Tuint8) (DUint 7) false))
                    eq_refl)).
  - exact (proj1 (proj2 (uint8_overflow_boundary (mkValue (Basic Tuint32) (DUint 7) false)))
             eq_refl).
  - exact (proj2 (proj2 (uint8_overflow_boundary (mkValue (Basic Tuint8) (DUint 7) false)))
             eq_refl eq_refl "257"%string).
Defined.

(** C6 fails as stated on a field of kind map with a value under its tag:
    [Unmarshal] stops with an error. *)
Lemma skipped_or_refused_counterexample :
  Unmarshal (Ex.request (Ex.query ["x"]))
    (IPtrStruct (Ex.named Ex.Tmap true "" (DOpaque "")))
  = (IPtrStruct (Ex.named Ex.Tmap true "John" (DOpaque "")),
     Some (UnmarshalTypeErr
             (mkUnmarshalTypeError "x" Ex.Tmap "s" "Val"
                (Errorf "type map[string]string cannot be unmarshalled from form")))).
Proof. vm_compute. reflexivity. Qed.

Lemma skipped_or_refused_witness :
  Unmarshal (Ex.request (Ex.query ["x"]))
    (IPtrStruct (Ex.named Ex.Tmap true "" (DOpaque "")))
  = (IPtrStruct (Ex.named Ex.Tmap true "John" (DOpaque "")),
     Some (UnmarshalTypeErr
             (mkUnmarshalTypeError "x" Ex.Tmap "s" "Val"
                (Errorf "type map[string]string cannot be unmarshalled from form"))))
  /\
  fieldAfter (Unmarshal (Ex.request (Ex.query ["x"]))
                (IPtrStruct (Ex.named Ex.Tmap false "" (DOpaque "")))).1 1
  = Some (Ex.valField Ex.Tmap false (DOpaque "")).
Proof.
  split.
  - refine (proj2 (skipped_or_refused (Ex.request (Ex.query ["x"]))
              (Ex.named Ex.Tmap true "" (DOpaque ""))
              [Ex.nameField ""] (Ex.valField Ex.Tmap true (DOpaque "")) []
              _ _ _) _ _ _ _).
    + reflexivity.
    + reflexivity.
    + repeat constructor.
    + vm_compute. discriminate.
    + reflexivity.
    + reflexivity.
    + reflexivity.
  - refine (proj2 (proj1 (skipped_or_refused (Ex.request (Ex.query ["x"]))
              (Ex.named Ex.Tmap false "" (DOpaque ""))
              [Ex.nameField ""] (Ex.valField Ex.Tmap false (DOpaque "")) []
              _ _ _) _)).
    + reflexivity.
    + reflexivity.
    + repeat constructor.
    + right. reflexivity.
Defined.

Lemma sequence_field_atomic_witness :
  fieldAfter (Unmarshal (Ex.request (Ex.query ["5"; "value"]))
                (IPtrStruct (Ex.named (SliceOf (Basic Tint)) true "" (DSeq [DInt 1; DInt 2])))).1 1
  = Some (Ex.valField (SliceOf (Basic Tint)) true (DSeq [DInt 1; DInt 2]))
  /\
  (Unmarshal (Ex.request (Ex.query ["5"; "value"]))
     (IPtrStruct (Ex.named (SliceOf (Basic Tint)) true "" (DSeq [DInt 1; DInt 2])))).1
  = IPtrStruct (Ex.named (SliceOf (Basic Tint)) true "John" (DSeq [DInt 1; DInt 2])).
Proof.
  pose proof (sequence_field_atomic (Ex.request (Ex.query ["5"; "value"]))
                (Ex.named (SliceOf (Basic Tint)) true "" (DSeq [DInt 1; DInt 2]))
                [Ex.nameField ""] (Ex.valField (SliceOf (Basic Tint)) true (DSeq [DInt 1; DInt 2])) []
                eq_refl eq_refl ltac:(vm_compute; discriminate)) as (_ & Hfield & Hall).
  split; [exact Hfield |].
  exact (proj1 (Hall eq_refl ltac:(repeat constructor) eq_refl)).
Defined.

(** C7 fails as stated on a pointer to a variable that is not a struct: the
    pointer is not nil, and the message is the one of a nil pointer. *)
Lemma invalid_argument_messages_counterexample :
  Unmarshal (Ex.request ∅) (IPtr (Basic Tfloat32))
  = (IPtr (Basic Tfloat32), Some (InvalidUnmarshalError (Some (PointerTo (Basic Tfloat32))))) /\
  rvIsNil (IPtr (Basic Tfloat32)) = false /\
  InvalidUnmarshalError_Error (Some (PointerTo (Basic Tfloat32)))
  = "form: Unmarshal(nil *float32)"%string.
Proof. repeat split. Qed.

Lemma invalid_argument_messages_witness :
  Unmarshal (Ex.request ∅) (IValue (Basic Tint))
  = (IValue (Basic Tint), Some (InvalidUnmarshalError (Some (Basic Tint)))) /\
  InvalidUnmarshalError_Error (Some (Basic Tint)) = "form: Unmarshal(non-pointer int)"%string.
Proof.
  exact (proj1 (proj2 (invalid_argument_messages (Ex.request ∅))) (Basic Tint)
           ltac:(discriminate)).
Defined.

(** C1 fails as stated on a struct with one tag on two fields (the mapping
    holds two values and a scalar field takes one), and on a field that is
    not exported ([Marshal] writes it, [Unmarshal] skips it). *)
Lemma marshal_unmarshal_roundtrip_counterexample :
  (marshalFields "s" (Fields (Ex.sameTag 1 2)) ∅ = ({["x" := ["1"; "2"]]}, Done) /\
   Unmarshal (Ex.request {["x" := ["1"; "2"]]}) (IPtrStruct (zeroStruct (Ex.sameTag 1 2)))
   = (IPtrStruct (zeroStruct (Ex.sameTag 1 2)),
      Some (UnmarshalTypeErr
              (mkUnmarshalTypeError "[1, 2]" (Basic Tint) "s" "X" moreThanOne)))) /\
  (marshalFields "s" [Ex.valField (Basic Tint) false (DInt 5)] ∅
   = ({["value" := ["5"]]}, Done) /\
   Unmarshal (Ex.request {["value" := ["5"]]})
     (IPtrStruct (mkStruct (Ex.structType "s") [Ex.valField (Basic Tint) false (DInt 0)]))
   = (IPtrStruct (mkStruct (Ex.structType "s") [Ex.valField (Basic Tint) false (DInt 0)]),
      None)).
Proof. repeat split; vm_compute; reflexivity. Qed.

Lemma marshal_unmarshal_roundtrip_witness :
  exists form,
    Marshal (Ex.request ∅) (IPtrStruct Ex.person)
    = (mkRequest (Url.Encode form) ∅ None, Done) /\
    Unmarshal (Ex.request form) (IPtrStruct (zeroStruct Ex.person))
    = (IPtrStruct Ex.person, None).
Proof.
  destruct (marshal_unmarshal_roundtrip (Ex.request ∅) Ex.person) as (form & HM & _ & _ & Hall).
  - apply (bool_decide_unpack _). vm_compute. exact I.
  - repeat constructor; try discriminate.
  - exists form. split; [exact HM |].
    apply Hall; [repeat constructor | reflexivity | reflexivity].
Defined.

(** C8 fails as stated on a float that is not finite: NaN is written
    without a point or a digit, and so are the parts of a complex number. *)
Lemma scalar_formats_counterexample :
  marshalFormValue "a" (mkValue (Basic Tfloat64) (DFloat S754_nan) false) ∅
  = (Url.Add "a" "NaN" ∅, Done) /\
  isFixed6 "NaN" = false /\
  marshalFormValue "a"
    (mkValue (Basic Tcomplex128) (DComplex (S754_infinity false) S754_nan) false) ∅
  = (Url.Add "a" "(+Inf+NaNi)" ∅, Done).
Proof. repeat split. Qed.

(** The [float32] nearest to 5.349, as in [TestFloatMarshal]. *)
Lemma scalar_formats_witness :
  exists str,
    marshalFormValue "a"
      (mkValue (Basic Tfloat32) (DFloat (S754_finite false 11217666 (-21))) false) ∅
    = (Url.Add "a" str ∅, Done) /\
    exists body, isFixed6 body = true /\ signedAs false false body str.
Proof.
  destruct (scalar_formats "a"
              (mkValue (Basic Tfloat32) (DFloat (S754_finite false 11217666 (-21))) false) ∅
              eq_refl eq_refl) as (str & Hm & Hfin & _).
  exists str. split; [exact Hm | exact (Hfin eq_refl)].
Defined.

(** ** The tests of the package, run on the embedding *)

(** [ExampleUnmarshal]: [&{John 24 [Sam Spot Chester] [10 20]}]. *)
Example ExampleUnmarshal :
  Unmarshal
    (Ex.request (list_to_map [("name", ["John"]); ("age", ["24"]);
                              ("pets", ["Sam"; "Spot"; "Chester"]); ("nums", ["10"; "20"])]
                 : Url.Values))
    (IPtrStruct (zeroStruct (Ex.Person "" 0 [] [])))
  = (IPtrStruct (Ex.Person "John" 24 ["Sam"; "Spot"; "Chester"]
                   [Ex.float32 "10"; Ex.float32 "20"]), None).
Proof. vm_compute. reflexivity. Qed.

(** [ExampleMarshal] and [TestLargeStructMarshal]. *)
Example TestLargeStructMarshal :
  RawQuery (Marshal (Ex.request ∅) (IPtrStruct Ex.large)).1
  = "age=30&balance=10.490000&name=John&pets=Rabbit&pets=Bird"%string.
Proof. vm_compute. reflexivity. Qed.

Example TestFloatMarshal :
  RawQuery (Marshal (Ex.request ∅)
              (IPtrStruct (Ex.single (Basic Tfloat32) (DFloat (Ex.float32 "5.349"))))).1
  = "a=5.349000"%string.
Proof. vm_compute. reflexivity. Qed.

Example TestComplexMarshal :
  RawQuery (Marshal (Ex.request ∅)
              (IPtrStruct (Ex.single (Basic Tcomplex64)
                             (DComplex (Ex.float32 "9.421") (S754_zero false))))).1
  = "a=%289.421000e%2B00%2B0.000000e%2B00i%29"%string.
Proof. vm_compute. reflexivity. Qed.

Example TestStructWithoutFormValue :
  RawQuery (Marshal (Ex.request ∅) (IPtrStruct (Ex.untagged "a" "b"))).1 = "a=a"%string.
Proof. vm_compute. reflexivity. Qed.

Example TestMarshalTypeError :
  Marshal (Ex.request ∅) (IPtrStruct (Ex.single Ex.Tmap (DOpaque "map[test:123]")))
  = (Ex.request ∅,
     Failed (MarshalTypeErr
               (mkMarshalTypeError Ex.Tmap (Ex.Tmap, DOpaque "map[test:123]") "s" "A"))).
Proof. vm_compute. reflexivity. Qed.

Example TestSliceMarshalTypeError :
  Marshal (Ex.request ∅)
    (IPtrStruct (Ex.single (SliceOf Ex.Tmap) (DSeq [DOpaque "map[test:123]"])))
  = (Ex.request ∅,
     Failed (MarshalTypeErr
               (mkMarshalTypeError (SliceOf Ex.Tmap) (Ex.Tmap, DOpaque "map[test:123]")
                  "s" "A"))).
Proof. vm_compute. reflexivity. Qed.

Example TestInvalidMarshalError :
  InvalidMarshalError_Error (TypeOf INil) = "form: Marshal(nil)"%string /\
  Marshal (Ex.request ∅) (IPtr (Basic Tfloat32))
  = (Ex.request ∅, Failed (InvalidMarshalError (Some (PointerTo (Basic Tfloat32))))) /\
  InvalidMarshalError_Error (Some (PointerTo (Basic Tfloat32)))
  = "form: Marshal(nil *float32)"%string.
Proof. repeat split. Qed.

(** [TestUnmarshalIntError], [TestUnmarshalUIntError], [TestUnmarshalFloatError],
    [TestUnmarshalComplexError]: the error of each value. *)
Example TestUnmarshalErrors :
  (parseFormValue (mkValue (Basic Tint8) (DInt 0) false) "notAInt").2
  = Some (typeError "notAInt" (Basic Tint8) (ENum (mkNumError "ParseInt" "notAInt" ErrSyntax)))
  /\
  (parseFormValue (mkValue (Basic Tint8) (DInt 0) false) "257").2
  = Some (typeError "257" (Basic Tint8) (Errorf "257 overflows int8 value")) /\
  (parseFormValue (mkValue (Basic Tfloat32) (DFloat (S754_zero false)) false)
     "3402823000000000000000000000000000000000001").2
  = Some (typeError "3402823000000000000000000000000000000000001" (Basic Tfloat32)
            (Errorf "3402823000000000000000000000000000000000001 overflows float32 value"))
  /\
  (parseFormValue (mkValue (Basic Tcomplex64) (DComplex (S754_zero false) (S754_zero false))
                     false) "1.7976931348623157e+308").2
  = Some (typeError "1.7976931348623157e+308" (Basic Tcomplex64)
            (Errorf "1.7976931348623157e+308 overflows complex64 value")) /\
  (parseFormValue (mkValue (Basic Tcomplex64) (DComplex (S754_zero false) (S754_zero false))
                     false) "notAComplex").2
  = Some (typeError "notAComplex" (Basic Tcomplex64)
            (ENum (mkNumError "ParseComplex" "notAComplex" ErrSyntax))).
Proof. repeat split; vm_compute; reflexivity. Qed.

(** [TestInvalidSliceTypeError]. *)
Example TestInvalidSliceTypeError :
  (Unmarshal (Ex.request (Ex.query ["5"; "value"]))
     (IPtrStruct (Ex.named (SliceOf (Basic Tint)) true "" (DSeq [])))).2
  = Some (UnmarshalTypeErr
            (mkUnmarshalTypeError "[5, value]" (SliceOf (Basic Tint)) "s" "Val"
               (ENum (mkNumError "ParseInt" "value" ErrSyntax)))).
Proof. vm_compute. reflexivity. Qed.

(** * Further properties *)

(** ** The outcomes of Unmarshal *)
Section Outcomes.
Context `{FloatSyntax}.

(** The step of a field looks at its content only to keep it. *)
Lemma parseFormValue_content t ro d d' v :
  parseFormValue (mkValue t d' ro) v =
  match parseFormValue (mkValue t d ro) v with
  | (_, Some e) => (d', Some e)
  | (d1, None) => (d1, None)
  end.
Proof.
  unfold parseFormValue, ValueKind, OverflowInt, OverflowUint, OverflowFloat,
    OverflowComplex, SetInt, SetUint, SetFloat, SetComplex, ValueKind. simpl.
  destruct (TypeKind t); repeat case_match; simplify_eq; done.
Qed.

Lemma parseFormValues_content t ro d d' values :
  parseFormValues (mkValue t d' ro) values =
  match parseFormValues (mkValue t d ro) values with
  | (_, Some e) => (d', Some e)
  | (d1, None) => (if bool_decide (values = []) || ro then d' else d1, None)
  end.
Proof.
  unfold parseFormValues, IsValid, CanSet, ValueKind. simpl.
  destruct values as [| v values]; [done |].
  rewrite (bool_decide_eq_false_2 (length (v :: values) = 0%nat)) by done.
  rewrite (bool_decide_eq_false_2 (v :: values = [])) by done.
  rewrite (bool_decide_eq_true_2 _ (TypeKind_valid t)). simpl.
  destruct ro; simpl; [done |].
  repeat case_match; simplify_eq; try done.
  all: rewrite (parseFormValue_content t false d d'); by case_match; simplify_eq.
Qed.

Lemma decodeField_setContent form f d' :
  decodeField form (setContent f d') =
  match decodeField form f with
  | (_, Some e) => (d', Some e)
  | (d1, None) =>
      (if bool_decide (Url.index form (Tag f) = []) || negb (Exported f) then d' else d1, None)
  end.
Proof.
  unfold decodeField, FieldValue. simpl.
  apply parseFormValues_content.
Qed.


Lemma decodeField_error form f d e :
  decodeField form f = (d, Some e) ->
  d = Content f /\ Exported f = true /\ Url.index form (Tag f) <> [].
Proof.
  intros E. split; [| split].
  - by apply (parseFormValues_error_keeps _ _ _ _ E).
  - destruct (Exported f) eqn:Hx; [done |].
    unfold decodeField in E. rewrite parseFormValues_skip in E; [done |].
    right. unfold CanSet. simpl. by rewrite Hx.
  - intros Hv. unfold decodeField in E. rewrite Hv in E. done.
Qed.

Lemma unmarshalFields_cons form sn f rest :
  unmarshalFields form sn (f :: rest) =
  match decodeField form f with
  | (d, Some err) =>
      (setContent f d :: rest,
       Some (mkUnmarshalTypeError (Value err) (Typ err) sn (Name f) (Err err)))
  | (d, None) =>
      let '(rest', err) := unmarshalFields form sn rest in (setContent f d :: rest', err)
  end.
Proof. done. Qed.

(** The loop of [Unmarshal], by its result. *)
Lemma unmarshalFields_cases form sn fs :
  match unmarshalFields form sn fs with
  | (fs', None) => decodeOk form fs /\ fs' = map (decoded form) fs
  | (fs', Some e) =>
      exists pre f post e0,
        fs = pre ++ f :: post /\ decodeOk form pre /\
        decodeField form f = (Content f, Some e0) /\
        fs' = map (decoded form) pre ++ f :: post /\
        e = mkUnmarshalTypeError (Value e0) (Typ e0) sn (Name f) (Err e0)
  end.
Proof.
  induction fs as [| f fs IH]; [by split; [constructor |] |].
  rewrite unmarshalFields_cons.
  destruct (decodeField form f) as [d [e0 |]] eqn:E.
  - destruct (decodeField_error _ _ _ _ E) as (-> & _ & _).
    exists [], f, fs, e0. rewrite setContent_same. by repeat split; try constructor.
  - destruct (unmarshalFields form sn fs) as [fs' [e |]].
    + destruct IH as (pre & g & post & e0 & -> & Hpre & Hg & -> & ->).
      exists (f :: pre), g, post, e0. repeat split; try done.
      * constructor; [by rewrite E | done].
      * cbn [map app]. by replace (decoded form f) with (setContent f d)
          by (unfold decoded; by rewrite E).
    + destruct IH as [Hok ->]. split.
      * constructor; [by rewrite E | done].
      * cbn [map]. by replace (decoded form f) with (setContent f d)
          by (unfold decoded; by rewrite E).
Qed.


Lemma parseFormValue_cause f v d e :
  parseFormValue f v = (d, Some e) -> packageCause (Err e).
Proof.
  unfold parseFormValue.
  destruct (ValueKind f); repeat case_match; intros; simplify_eq; simpl; try done.
  all: try (left; by eexists _, _).
  all: do 3 right; by eexists.
Qed.

Lemma firstError_cause et values e :
  firstError et values = Some e -> packageCause (Err e).
Proof.
  induction values as [| v values IH]; simpl; [done |].
  destruct (convert et v) as [d [e0 |]] eqn:E; simpl; [| done].
  intros; simplify_eq. by eapply parseFormValue_cause.
Qed.

(** The error of the step of a field, by its parts. *)
Lemma parseFormValues_error f values d e :
  parseFormValues f values = (d, Some e) ->
  Typ e = typ f /\ Value e = shownValues (typ f) values /\
  Struct e = EmptyString /\ Field e = EmptyString /\ packageCause (Err e).
Proof.
  intros E.
  assert (Hne : values <> []) by (intros ->; done).
  assert (Hset : CanSet f = true).
  { destruct (CanSet f) eqn:Hs; [done |]. rewrite parseFormValues_skip in E by auto. done. }
  destruct (seqKind (ValueKind f)) eqn:Hseq.
  - assert (Hshown : shownValues (typ f) values = bracketed values).
    { unfold shownValues. fold (ValueKind f). rewrite Hseq. by repeat case_match. }
    rewrite Hshown.
    destruct (decide (ValueKind f = Kind.Array /\ TypeLen (typ f) <> length values))
      as [[Hk Hlen] | Hother].
    + unfold parseFormValues, IsValid in E. rewrite Hset, Hk in E. simpl in E.
      rewrite (bool_decide_eq_false_2 (length values = 0%nat)) in E
        by (destruct values; simpl; [done | lia]).
      simpl in E. rewrite (bool_decide_eq_true_2 _ Hlen) in E. simplify_eq. simpl.
      repeat split; try done. do 2 right. left. by eexists _, _, _.
    + rewrite parseFormValues_seq in E; try done.
      * destruct (firstError _ _) as [e0 |] eqn:E0; [| done]. simplify_eq. simpl.
        pose proof (firstError_cause _ _ _ E0) as Hc.
        assert (Hsh : Struct e0 = EmptyString /\ Field e0 = EmptyString).
        { clear -E0. induction values as [| v values IH]; simpl in E0; [done |].
          destruct (convert _ v) as [d [e1 |]] eqn:E; simpl in E0; [| by apply IH].
          simplify_eq. by destruct (parseFormValue_error_shape _ _ _ _ E) as (_ & _ & ? & ?). }
        destruct Hsh as [-> ->]. done.
      * destruct (ValueKind f) eqn:Hk; try discriminate Hseq; [right | by left].
        split; [done |]. destruct (decide (TypeLen (typ f) = length values)); [done |].
        exfalso. by apply Hother.
  - rewrite parseFormValues_scalar in E by done.
    unfold shownValues. fold (ValueKind f). rewrite Hseq.
    destruct values as [| v [| w values]]; [done | |].
    + destruct (parseFormValue_error_shape _ _ _ _ E) as (-> & -> & -> & ->).
      repeat split; try done. by eapply parseFormValue_cause.
    + simplify_eq. simpl. repeat split; try done. by right; left.
Qed.

Lemma unmarshalFields_ext form form' sn fs :
  (forall f, f ∈ fs -> Url.index form (Tag f) = Url.index form' (Tag f)) ->
  unmarshalFields form sn fs = unmarshalFields form' sn fs.
Proof.
  induction fs as [| f fs IH]; intros Hfs; [done |].
  rewrite !unmarshalFields_cons. unfold decodeField.
  rewrite <- (Hfs f) by (by left).
  specialize (IH ltac:(intros g Hg; apply Hfs; by right)). by rewrite IH.
Qed.

Lemma shape_setContent f f' : shape f = shape f' -> f' = setContent f (Content f').
Proof. destruct f, f'. unfold shape, setContent. simpl. by intros [= -> -> -> ->]. Qed.

Lemma unmarshalFields_shape form sn fs fs' :
  Forall2 (fun f f' => shape f = shape f') fs fs' ->
  (unmarshalFields form sn fs).2 = (unmarshalFields form sn fs').2 /\
  ((unmarshalFields form sn fs).2 = None ->
   forall n f, fs !! n = Some f ->
     Exported f = true -> Url.index form (Tag f) <> [] ->
     (Content <$> (unmarshalFields form sn fs).1 !! n)
     = (Content <$> (unmarshalFields form sn fs').1 !! n)).
Proof.
  induction 1 as [| f f' fs fs' Hf Hfs IH]; [done |].
  rewrite !unmarshalFields_cons.
  rewrite (shape_setContent f f' Hf), decodeField_setContent.
  assert (Hn : Name (setContent f (Content f')) = Name f) by done.
  destruct (decodeField form f) as [d [e |]] eqn:E; simpl; [done |].
  destruct IH as [IHe IHc].
  destruct (unmarshalFields form sn fs) as [r1 e1].
  destruct (unmarshalFields form sn fs') as [r2 e2]. simpl in *.
  split; [done |]. intros -> [| n] g Hg Hx Hv; simpl in *.
  - simplify_eq. rewrite Hx. simpl.
    by rewrite (bool_decide_eq_false_2 _ Hv).
  - by apply (IHc eq_refl n g).
Qed.

(** X1: [Unmarshal] into a struct has one of three outcomes.  Without an error
    every field went through its step, and holds what the step left.  The
    error of [r.ParseForm()] is returned as it is, before any field is
    looked at.  An [UnmarshalTypeError] comes from the first field whose
    step fails: the fields before it hold what their steps left, that field
    and the fields after it are as they were; the field is exported and has
    a value under its tag; the error carries the name of the struct type,
    the name and the type of that field, and no error of another kind is
    returned. *)
Theorem unmarshal_outcome (r : Request) (s : StructValue) :
  match Unmarshal r (IPtrStruct s) with
  | (i', None) =>
      ParseFormErr r = None /\ decodeOk (Form r) (Fields s) /\
      i' = IPtrStruct (mkStruct (SType s) (map (decoded (Form r)) (Fields s)))
  | (i', Some (ParseFormError err)) => ParseFormErr r = Some err /\ i' = IPtrStruct s
  | (i', Some (UnmarshalTypeErr e)) =>
      ParseFormErr r = None /\
      exists pre f post,
        Fields s = pre ++ f :: post /\ decodeOk (Form r) pre /\
        (decodeField (Form r) f).2 <> None /\
        i' = IPtrStruct (mkStruct (SType s) (map (decoded (Form r)) pre ++ f :: post)) /\
        Exported f = true /\ Url.index (Form r) (Tag f) <> [] /\
        Struct e = TypeName (SType s) /\ Field e = Name f /\ Typ e = FType f
  | (_, Some _) => False
  end.
Proof.
  unfold Unmarshal, ParseForm. simpl.
  destruct (ParseFormErr r) as [err |] eqn:Hp; [done |].
  pose proof (unmarshalFields_cases (Form r) (TypeName (SType s)) (Fields s)) as Hc.
  destruct (unmarshalFields _ _ _) as [fs' [e |]]; simpl.
  - destruct Hc as (pre & f & post & e0 & Hfs & Hpre & Hf & -> & ->).
    split; [done |]. exists pre, f, post.
    destruct (decodeField_error _ _ _ _ Hf) as (_ & Hx & Hv).
    destruct (parseFormValues_error _ _ _ _ Hf) as (Ht & _).
    rewrite Hf. by repeat split.
  - destruct Hc as [Hok ->]. by repeat split.
Qed.

(** X2: a field with no value under its tag, and a field that is not
    exported, is as it was after [Unmarshal], whatever the call returns and
    wherever it stops. *)
Theorem unmarshal_frame (r : Request) (s : StructValue) (n : nat) (f : StructField) :
  Fields s !! n = Some f ->
  Url.index (Form r) (Tag f) = [] \/ Exported f = false ->
  fieldAfter (Unmarshal r (IPtrStruct s)).1 n = Some f.
Proof.
  intros Hn Hskip.
  destruct (Unmarshal_lookup r s n f Hn) as [-> | ->]; [done |].
  unfold decoded, decodeField. rewrite parseFormValues_skip; [by rewrite setContent_same |].
  destruct Hskip as [? | Hx]; [by left | right]. unfold CanSet. simpl. by rewrite Hx.
Qed.


(** X4: [Unmarshal] reads the mapping at the tags of the fields and nowhere
    else: two requests whose mappings agree at every tag of the struct (a
    key with no value counting as an absent key), and whose parsing ended
    the same way, give the same result, whatever other keys they hold. *)
Theorem unmarshal_reads_only_tags (r r' : Request) (s : StructValue) :
  ParseFormErr r = ParseFormErr r' ->
  (forall f, f ∈ Fields s -> Url.index (Form r) (Tag f) = Url.index (Form r') (Tag f)) ->
  Unmarshal r (IPtrStruct s) = Unmarshal r' (IPtrStruct s).
Proof.
  intros Hp Hfs. unfold Unmarshal, ParseForm. simpl. rewrite <- Hp.
  by rewrite (unmarshalFields_ext (Form r) (Form r') _ _ Hfs).
Qed.

(** X5: what the target holds before the call has no part in the result
    beyond being kept: two structs of one type that differ in the contents
    of their fields get the same error, and when there is none, every
    exported field with a value under its tag holds the same content in
    both. *)
Theorem unmarshal_prior_content (r : Request) (s s' : StructValue) :
  SType s = SType s' ->
  Forall2 (fun f f' => shape f = shape f') (Fields s) (Fields s') ->
  (Unmarshal r (IPtrStruct s)).2 = (Unmarshal r (IPtrStruct s')).2 /\
  ((Unmarshal r (IPtrStruct s)).2 = None ->
   forall n f, Fields s !! n = Some f ->
     Exported f = true -> Url.index (Form r) (Tag f) <> [] ->
     (Content <$> fieldAfter (Unmarshal r (IPtrStruct s)).1 n)
     = (Content <$> fieldAfter (Unmarshal r (IPtrStruct s')).1 n)).
Proof.
  intros HT Hfs. unfold Unmarshal, ParseForm. simpl. rewrite <- HT.
  destruct (ParseFormErr r) as [err |]; simpl; [done |].
  destruct (unmarshalFields_shape (Form r) (TypeName (SType s)) _ _ Hfs) as [He Hc].
  destruct (unmarshalFields _ _ (Fields s)) as [fs1 e1].
  destruct (unmarshalFields _ _ (Fields s')) as [fs2 e2]. simpl in *.
  split; [by rewrite He |].
  intros He1 n f Hn Hx Hv. apply (Hc ltac:(by destruct e1) n f Hn Hx Hv).
Qed.

(** X6: an exported slice field reached by [Unmarshal]: with no value under
    its tag it keeps its elements; with values that all convert it holds
    as many elements as there are values, element [i] the conversion of
    value [i], whatever it held; when a value does not convert,
    [Unmarshal] stops with an error that shows all the values between
    brackets, the type of the field, and the cause of the first value that
    does not convert. *)
Theorem slice_field_decoding r s pre f post :
  ParseFormErr r = None ->
  Fields s = pre ++ f :: post ->
  decodeOk (Form r) pre ->
  Exported f = true ->
  TypeKind (FType f) = Kind.Slice ->
  let values := Url.index (Form r) (Tag f) in
  let et := TypeElem (FType f) in
  let out := Unmarshal r (IPtrStruct s) in
  (values = [] -> fieldAfter out.1 (length pre) = Some f) /\
  (values <> [] -> firstError et values = None ->
     exists elems,
       fieldAfter out.1 (length pre) = Some (setContent f (DSeq elems)) /\
       length elems = length values /\
       forall i v, values !! i = Some v -> elems !! i = Some (convert et v).1) /\
  (forall e0, firstError et values = Some e0 ->
     out = (IPtrStruct (mkStruct (SType s) (map (decoded (Form r)) pre ++ f :: post)),
            Some (UnmarshalTypeErr
                    (mkUnmarshalTypeError (bracketed values) (FType f)
                       (TypeName (SType s)) (Name f) (Err e0))))).
Proof.
  intros Hp Hfs Hpre Hexp Hk values et out.
  pose proof (Unmarshal_at r s pre f post Hp Hfs Hpre) as Hout. fold out in Hout.
  assert (Hset : CanSet (FieldValue f) = true) by (unfold CanSet; simpl; by rewrite Hexp).
  assert (Hseq : values <> [] ->
            decodeField (Form r) f =
            match firstError et values with
            | Some e => (Content f, Some (mkUnmarshalTypeError (bracketed values) (FType f)
                                            (Struct e) (Field e) (Err e)))
            | None => (DSeq (map (fun v => (convert et v).1) values), None)
            end).
  { intros Hne. unfold decodeField. fold values.
    rewrite parseFormValues_seq; try done. by left. }
  split; [| split].
  - intros Hv. rewrite Hout. unfold decodeField. fold values. rewrite Hv.
    rewrite parseFormValues_skip by (by left). simpl.
    destruct (unmarshalFields _ _ post). simpl.
    rewrite setContent_same, <- (length_decoded (Form r) pre).
    by rewrite list_lookup_middle.
  - intros Hne Hconv. exists (map (fun v => (convert et v).1) values).
    split; [| split].
    + rewrite Hout, Hseq, Hconv by done. destruct (unmarshalFields _ _ post). simpl.
      rewrite <- (length_decoded (Form r) pre). by rewrite list_lookup_middle.
    + by rewrite length_map.
    + intros i v Hi. by rewrite list_lookup_fmap, Hi.
  - intros e0 He0.
    assert (Hne : values <> []) by (intros Hv; rewrite Hv in He0; done).
    rewrite Hout, Hseq, He0 by done. done.
Qed.

End Outcomes.

(** ** The message of an UnmarshalTypeError *)
Section Messages.
Context `{FloatSyntax} `{Printing}.

(** X7: the message of the error [Unmarshal] returns for a field: it shows
    the value of the field (all its values between brackets and separated
    by commas when the field is a slice or an array, or has more than one),
    the name of the struct type and of the field, the type of the field,
    and the message of the cause, which [Unwrap] returns: an error of
    [strconv] or one of the four messages of the package. *)
Theorem unmarshal_error_message (r : Request) (s : StructValue) :
  match Unmarshal r (IPtrStruct s) with
  | (_, Some (UnmarshalTypeErr e)) =>
      exists f, f ∈ Fields s /\
        UnmarshalTypeError_Error e
        = "form: cannot unmarshal " +:+
          shownValues (FType f) (Url.index (Form r) (Tag f)) +:+
          " into Go struct field " +:+ TypeName (SType s) +:+ "." +:+ Name f +:+
          " of type " +:+ TypeString (FType f) +:+ ": " +:+
          error_Error (UnmarshalTypeError_Unwrap e) /\
        packageCause (UnmarshalTypeError_Unwrap e)
  | _ => True
  end.
Proof.
  unfold Unmarshal, ParseForm. simpl.
  destruct (ParseFormErr r) as [err |] eqn:Hp; [done |].
  pose proof (unmarshalFields_cases (Form r) (TypeName (SType s)) (Fields s)) as Hc.
  destruct (unmarshalFields _ _ _) as [fs' [e |]]; simpl; [| done].
  destruct Hc as (pre & f & post & e0 & Hfs & Hpre & Hf & -> & ->).
  exists f. split; [rewrite Hfs; set_solver |].
  destruct (parseFormValues_error _ _ _ _ Hf) as (Ht & Hv & _ & _ & Hcause).
  unfold UnmarshalTypeError_Error, UnmarshalTypeError_Unwrap. simpl in *.
  by rewrite Ht, Hv.
Qed.

End Messages.

(** ** The numerals a field takes *)
Section Accepted.
Context `{FloatSyntax}.
Import Strconv.

Lemma isDigit_bounds c : isDigit c = true -> 0 <= code c - 48 <= 9.
Proof. unfold isDigit. intros Hc. apply andb_prop in Hc as [? ?]. lia. Qed.

Lemma digitsValue_ge cs : forall n,
  allDigits cs = true -> 0 <= n -> n <= digitsValue cs n.
Proof.
  induction cs as [| c cs IH]; intros n Hd Hn; simpl in *; [lia |].
  apply andb_prop in Hd as [Hc Hd]. apply isDigit_bounds in Hc.
  etrans; [| apply IH]; [lia | done | lia].
Qed.

Lemma parseUintLoop_digits s0 cs : forall n,
  0 <= n <= maxUint64 -> allDigits cs = true ->
  parseUintLoop s0 cs n =
  if digitsValue cs n <=? maxUint64 then (digitsValue cs n, None)
  else (maxUint64, Some (rangeError "ParseUint" s0)).
Proof.
  induction cs as [| c cs IH]; intros n Hn Hd; simpl in *.
  - by rewrite (proj2 (Z.leb_le _ _)) by lia.
  - apply andb_prop in Hd as [Hc Hd]. rewrite Hc.
    pose proof (isDigit_bounds c Hc) as Hb.
    pose proof (digitsValue_ge cs (n * 10 + (code c - 48)) Hd ltac:(lia)) as Hge.
    unfold maxUint64 in *.
    change (2 ^ 64 - 1) with 18446744073709551615 in *.
    change (18446744073709551615 / 10 + 1) with 1844674407370955162.
    change (2 ^ 64) with 18446744073709551616.
    destruct (1844674407370955162 <=? n) eqn:Hcut.
    + apply Z.leb_le in Hcut. by rewrite (proj2 (Z.leb_gt _ _)) by lia.
    + apply Z.leb_gt in Hcut.
      destruct (decide (n * 10 + (code c - 48) < 18446744073709551616)) as [Hlt | Hge2].
      * rewrite Z.mod_small by lia.
        rewrite (proj2 (Z.ltb_ge _ _)) by lia.
        rewrite (proj2 (Z.ltb_ge _ _)) by lia. simpl.
        apply IH; [lia | done].
      * replace ((n * 10 + (code c - 48)) mod 18446744073709551616)
          with (n * 10 + (code c - 48) - 18446744073709551616).
        2: { apply Z.mod_unique with 1; lia. }
        rewrite (proj2 (Z.ltb_lt _ _)) by lia. simpl.
        by rewrite (proj2 (Z.leb_gt _ _)) by lia.
Qed.

Lemma parseUintLoop_bad s0 cs : forall n,
  allDigits cs = false -> exists v e, parseUintLoop s0 cs n = (v, Some e).
Proof.
  induction cs as [| c cs IH]; intros n Hd; simpl in *; [done |].
  destruct (isDigit c); simpl in Hd; [| by eexists _, _].
  repeat case_match; try by eexists _, _. by apply IH.
Qed.

Lemma ParseUint_numeral s :
  isNumeral s = true ->
  ParseUint s =
  if decimalValue s <=? maxUint64 then (decimalValue s, None)
  else (maxUint64, Some (rangeError "ParseUint" s)).
Proof.
  unfold isNumeral, ParseUint, decimalValue. intros Hs. apply andb_prop in Hs as [Hne Hd].
  destruct s as [| c s]; [done |].
  apply parseUintLoop_digits; [unfold maxUint64; lia | done].
Qed.

Lemma ParseUint_bad s :
  isNumeral s = false -> exists v e, ParseUint s = (v, Some e).
Proof.
  unfold isNumeral, ParseUint. intros Hs. destruct s as [| c s]; [by eexists _, _ |].
  apply parseUintLoop_bad. by destruct (allDigits (String c s)).
Qed.

Lemma decimalValue_nonneg s : allDigits s = true -> 0 <= decimalValue s.
Proof. intros Hd. by apply (digitsValue_ge s 0). Qed.

(** X8: what a field of an unsigned kind takes: the numerals (digits only:
    no sign, no space, no underscore, no other base) below [2^w], for the
    width [w] of the kind, zeros in front allowed.  A numeral that is too
    large is refused with the message of an overflow when it fits 64
    bits and with the range error of [strconv.ParseUint] when it does not,
    anything else with another error of [strconv]; the field keeps its
    content when a value is refused. *)
Theorem unsigned_field_accepts (f : Reflect.Value) (v : string) :
  uintKind (ValueKind f) = true ->
  if isNumeral v then
    if decimalValue v <? 2 ^ bitSize (ValueKind f)
    then parseFormValue f v = (DUint (decimalValue v), None)
    else parseFormValue f v
         = (dat f,
            Some (typeError v (typ f)
                    (if decimalValue v <=? maxUint64 then overflows v (typ f)
                     else ENum (rangeError "ParseUint" v))))
  else exists ne, parseFormValue f v = (dat f, Some (typeError v (typ f) (ENum ne))).
Proof.
  intros Hk.
  assert (Hpf : parseFormValue f v =
            let '(n, err) := ParseUint v in
            match err with
            | Some err => (dat f, Some (typeError v (typ f) (ENum err)))
            | None =>
                if OverflowUint f n
                then (dat f, Some (typeError v (typ f) (overflows v (typ f))))
                else (SetUint f n, None)
            end).
  { unfold parseFormValue. destruct (ValueKind f); try discriminate Hk; done. }
  rewrite Hpf. clear Hpf.
  pose proof (bitSize_bounds (ValueKind f)) as Hw.
  pose proof (pow2_le_64 _ Hw) as Hw64.
  destruct (isNumeral v) eqn:Hnum.
  - rewrite (ParseUint_numeral v Hnum).
    pose proof (decimalValue_nonneg v) as Hpos.
    unfold isNumeral in Hnum. apply andb_prop in Hnum as [_ Hd]. specialize (Hpos Hd).
    unfold maxUint64 in *.
    destruct (decimalValue v <=? 2 ^ 64 - 1) eqn:Hmax.
    + apply Z.leb_le in Hmax. rewrite OverflowUint_spec by done.
      destruct (decimalValue v <? 2 ^ bitSize (ValueKind f)) eqn:Hlt; simpl; [| done].
      apply Z.ltb_lt in Hlt. unfold SetUint. by rewrite wrapU_small by lia.
    + apply Z.leb_gt in Hmax. by rewrite (proj2 (Z.ltb_ge _ _)) by lia.
  - destruct (ParseUint_bad v Hnum) as (n & e & ->). by eexists.
Qed.

Lemma ParseInt_cons c rest :
  ParseInt (String c rest) =
  let s0 := String c rest in
  let '(neg, s) := signOf s0 in
  let '(un, err) := ParseUint s in
  match err with
  | Some (mkNumError _ _ ErrSyntax) => (0, Some (syntaxError "ParseInt" s0))
  | _ =>
      let cutoff := 2 ^ 63 in
      if negb neg && (cutoff <=? un) then (cutoff - 1, Some (rangeError "ParseInt" s0))
      else if neg && (cutoff <? un) then (- cutoff, Some (rangeError "ParseInt" s0))
      else (if neg then - un else un, None)
  end.
Proof. unfold ParseInt, signOf. by repeat case_match. Qed.

Ltac by_cases :=
  repeat match goal with
         | |- context [?a <=? ?b] => destruct (Z.leb_spec a b)
         | |- context [?a <? ?b] => destruct (Z.ltb_spec a b)
         end; simpl; try done; try lia.

Lemma ParseInt_numeral v :
  isNumeral (signOf v).2 = true ->
  let n := if (signOf v).1 then - decimalValue (signOf v).2 else decimalValue (signOf v).2 in
  ParseInt v =
  if (- 2 ^ 63 <=? n) && (n <? 2 ^ 63) then (n, None)
  else (if (signOf v).1 then - 2 ^ 63 else 2 ^ 63 - 1, Some (rangeError "ParseInt" v)).
Proof.
  destruct v as [| c rest]; [done |]. rewrite ParseInt_cons. cbn zeta.
  destruct (signOf (String c rest)) as [neg body]. simpl. intros Hnum.
  rewrite (ParseUint_numeral body Hnum).
  pose proof (decimalValue_nonneg body) as Hpos.
  unfold isNumeral in Hnum. apply andb_prop in Hnum as [_ Hd]. specialize (Hpos Hd).
  unfold maxUint64.
  change (2 ^ 64 - 1) with 18446744073709551615.
  change (2 ^ 63) with 9223372036854775808.
  destruct neg; by_cases.
Qed.

Lemma ParseInt_bad v :
  isNumeral (signOf v).2 = false -> exists x ne, ParseInt v = (x, Some ne).
Proof.
  destruct v as [| c rest]; [by eexists _, _ |]. rewrite ParseInt_cons. cbn zeta.
  destruct (signOf (String c rest)) as [neg body]. simpl. intros Hnum.
  destruct (ParseUint_bad body Hnum) as (un & e & HP). rewrite HP.
  destruct e as [fn num [|]]; [by eexists _, _ |].
  pose proof (ParseUint_overflow _ _ _ HP eq_refl) as ->.
  unfold maxUint64. destruct neg; simpl; by eexists _, _.
Qed.

(** X9: what a field of a signed kind takes: a numeral, with or without one
    sign in front, whose value lies in [-2^(w-1), 2^(w-1)), for the width
    [w] of the kind.  A numeral out of that range is refused with the
    message of an overflow when it fits 64 bits and with the range error
    of [strconv.ParseInt] when it does not, anything else with another
    error of [strconv]; the field keeps its content when a value is
    refused. *)
Theorem signed_field_accepts (f : Reflect.Value) (v : string) :
  intKind (ValueKind f) = true ->
  let w := bitSize (ValueKind f) in
  let n := if (signOf v).1 then - decimalValue (signOf v).2 else decimalValue (signOf v).2 in
  if isNumeral (signOf v).2 then
    if (- 2 ^ (w - 1) <=? n) && (n <? 2 ^ (w - 1))
    then parseFormValue f v = (DInt n, None)
    else parseFormValue f v
         = (dat f,
            Some (typeError v (typ f)
                    (if (- 2 ^ 63 <=? n) && (n <? 2 ^ 63) then overflows v (typ f)
                     else ENum (rangeError "ParseInt" v))))
  else exists ne, parseFormValue f v = (dat f, Some (typeError v (typ f) (ENum ne))).
Proof.
  intros Hk w n.
  assert (Hpf : parseFormValue f v =
            let '(n, err) := ParseInt v in
            match err with
            | Some err => (dat f, Some (typeError v (typ f) (ENum err)))
            | None =>
                if OverflowInt f n
                then (dat f, Some (typeError v (typ f) (overflows v (typ f))))
                else (SetInt f n, None)
            end).
  { unfold parseFormValue. destruct (ValueKind f); try discriminate Hk; done. }
  rewrite Hpf. clear Hpf.
  pose proof (bitSize_bounds (ValueKind f)) as Hw. fold w in Hw.
  pose proof (pow2_le_63 _ Hw) as Hw63.
  destruct (isNumeral (signOf v).2) eqn:Hnum.
  - rewrite (ParseInt_numeral v Hnum). fold n.
    destruct ((- 2 ^ 63 <=? n) && (n <? 2 ^ 63)) eqn:H64.
    + cbv beta iota. rewrite OverflowInt_spec. fold w.
      destruct ((- 2 ^ (w - 1) <=? n) && (n <? 2 ^ (w - 1))) eqn:Hin; simpl; [| done].
      apply andb_prop in Hin as [Hlo Hhi]. apply Z.leb_le in Hlo. apply Z.ltb_lt in Hhi.
      unfold SetInt. fold w. by rewrite wrapS_small by lia.
    + cbv beta iota. replace ((- 2 ^ (w - 1) <=? n) && (n <? 2 ^ (w - 1))) with false; [done |].
      symmetry. apply andb_false_iff. apply andb_false_iff in H64 as [Hlo | Hhi].
      * left. apply Z.leb_gt in Hlo. apply Z.leb_gt. lia.
      * right. apply Z.ltb_ge in Hhi. apply Z.ltb_ge. lia.
  - destruct (ParseInt_bad v Hnum) as (x & ne & ->). by eexists.
Qed.

End Accepted.

(** X10: one empty value under the tag of a scalar field that can be set is a
    value, not a missing one: a string field is set to the empty string,
    and a field of any other supported kind is refused with the syntax
    error of the function of [strconv] that reads its kind, its content
    kept. *)
Theorem empty_value_is_a_value (f : Reflect.Value) :
  scalarKind (ValueKind f) = true -> CanSet f = true ->
  parseFormValues f [EmptyString] =
  if bool_decide (ValueKind f = Kind.String) then (DString EmptyString, None)
  else (dat f,
        Some (typeError EmptyString (typ f)
                (ENum (mkNumError (parserOf (ValueKind f)) EmptyString ErrSyntax)))).
Proof.
  intros Hk Hset. rewrite parseFormValues_scalar; try done.
  - unfold parseFormValue.
    destruct (ValueKind f); try discriminate Hk; try done.
  - by destruct (ValueKind f).
Qed.

(** ** The mapping of Marshal, key by key *)
Section Mapping.

Lemma lookup_Add tag v (form : Url.Values) key :
  Url.Add tag v form !! key
  = if decide (key = tag) then Some (Url.index form key ++ [v]) else form !! key.
Proof.
  unfold Url.Add. destruct (decide (key = tag)) as [-> | Hne].
  - by rewrite lookup_insert_eq.
  - by rewrite lookup_insert_ne.
Qed.

Lemma lookup_addAll tag vs : forall (form : Url.Values) key,
  addAll tag vs form !! key
  = if decide (key = tag /\ vs <> []) then Some (Url.index form key ++ vs) else form !! key.
Proof.
  induction vs as [| v vs IH]; intros form key; simpl.
  - by rewrite decide_False by (intros [_ Hn]; by apply Hn).
  - fold (addAll tag vs (Url.Add tag v form)). rewrite IH, index_Add, lookup_Add.
    destruct vs as [| w vs];
      repeat case_decide; destruct_and?; simplify_eq/=;
      rewrite <- ?app_assoc; try done; naive_solver.
Qed.

Lemma valuesUnder_cons key f fs :
  valuesUnder key (f :: fs)
  = (if decide (Tag f = key) then render (FType f) (Content f) else []) ++ valuesUnder key fs.
Proof.
  unfold valuesUnder. destruct (decide (Tag f = key)).
  - by rewrite filter_cons_True.
  - by rewrite filter_cons_False.
Qed.

Lemma lookup_mapping fs : forall (form : Url.Values) key,
  mapping fs form !! key
  = if decide (valuesUnder key fs = []) then form !! key
    else Some (Url.index form key ++ valuesUnder key fs).
Proof.
  induction fs as [| f fs IH]; intros form key; [done |].
  change (mapping (f :: fs) form)
    with (mapping fs (addAll (Tag f) (render (FType f) (Content f)) form)).
  rewrite IH, valuesUnder_cons, index_addAll, lookup_addAll.
  destruct (render (FType f) (Content f)) as [| v vs];
    destruct (valuesUnder key fs) as [| w ws];
    repeat case_decide; destruct_and?; simplify_eq/=;
    rewrite ?app_nil_r, <- ?app_assoc; try done; naive_solver.
Qed.

Lemma valuesUnder_tagged key fs :
  valuesUnder key (filter tagged fs)
  = if decide (key = EmptyString) then [] else valuesUnder key fs.
Proof.
  induction fs as [| f fs IH]; [by case_decide |].
  destruct (decide (tagged f)) as [Ht | Ht].
  - rewrite filter_cons_True by done. rewrite !valuesUnder_cons, IH.
    destruct (decide (key = EmptyString)) as [-> | ?]; [| done].
    by rewrite decide_False.
  - rewrite filter_cons_False by done. rewrite valuesUnder_cons, IH.
    destruct (decide (key = EmptyString)) as [-> | ?]; [done |].
    rewrite decide_False; [done |]. intros <-. apply Ht. done.
Qed.

Lemma marshalFields_supported sn fs :
  Forall (fun f => tagged f -> supportedType (FType f) = true) fs ->
  forall form, marshalFields sn fs form = (mapping (filter tagged fs) form, Done).
Proof.
  intros Hfs form. rewrite marshalFields_untagged. apply marshalFields_mapping.
  apply Forall_forall. intros f Hf. apply list_elem_of_filter in Hf as [Ht Hf].
  rewrite Forall_forall in Hfs. split; [done |]. by apply Hfs.
Qed.

Lemma lookup_marshalled fs key :
  mapping (filter tagged fs) ∅ !! key
  = if decide (key = EmptyString \/ valuesUnder key fs = []) then None
    else Some (valuesUnder key fs).
Proof.
  rewrite lookup_mapping, valuesUnder_tagged, lookup_empty.
  unfold Url.index. rewrite lookup_empty. simpl.
  destruct (decide (key = EmptyString)) as [-> | Hk].
  - rewrite decide_True by done. by rewrite decide_True by (by left).
  - destruct (decide (valuesUnder key fs = [])) as [E | E].
    + by rewrite decide_True by (by right).
    + by rewrite decide_False by (by intros [? | ?]).
Qed.

(** X11: when every tagged field is of a supported type, exported or not,
    [Marshal] succeeds, and the mapping it encodes holds, under each key,
    the strings of the fields with that tag, in the order of the fields
    and of their elements: fields that share a tag share a key, a key
    exists only when a field has a string for it (an empty slice gives no
    key), and the empty key never exists. *)
Theorem marshal_mapping (r : Request) (s : StructValue) :
  Forall (fun f => tagged f -> supportedType (FType f) = true) (Fields s) ->
  exists form,
    Marshal r (IPtrStruct s) = (mkRequest (Url.Encode form) (Form r) (ParseFormErr r), Done) /\
    marshalFields (TypeName (SType s)) (Fields s) ∅ = (form, Done) /\
    forall key,
      form !! key
      = if decide (key = EmptyString \/ valuesUnder key (Fields s) = []) then None
        else Some (valuesUnder key (Fields s)).
Proof.
  intros Hfs. exists (mapping (filter tagged (Fields s)) ∅).
  pose proof (marshalFields_supported (TypeName (SType s)) _ Hfs ∅) as Hm.
  split; [| split; [done |]].
  - unfold Marshal. simpl. by rewrite Hm.
  - apply lookup_marshalled.
Qed.

Lemma filter_tag_none key (l : list StructField) :
  key ∉ map Tag l -> filter (fun f => Tag f = key) l = [].
Proof.
  induction l as [| f l IH]; intros Hk; [done |]. simpl in Hk.
  apply not_elem_of_cons in Hk as [Hne Hk].
  rewrite filter_cons_False by congruence. by apply IH.
Qed.

Lemma filter_tag_le1 key (l : list StructField) :
  NoDup (map Tag l) -> (length (filter (fun f => Tag f = key) l) <= 1)%nat.
Proof.
  induction l as [| f l IH]; intros Hnd; [simpl; lia |].
  simpl in Hnd. apply NoDup_cons in Hnd as [Hnot Hnd].
  destruct (decide (Tag f = key)) as [Hf | Hf].
  - rewrite filter_cons_True by done. rewrite filter_tag_none by congruence. simpl. lia.
  - rewrite filter_cons_False by done. by apply IH.
Qed.

Lemma perm_short {A} (l l' : list A) : l ≡ₚ l' -> (length l <= 1)%nat -> l = l'.
Proof.
  intros Hp Hl. destruct l as [| x [| y l]]; simpl in Hl; try lia.
  - by apply Permutation_nil_l in Hp.
  - by apply Permutation_singleton_l in Hp.
Qed.

Lemma valuesUnder_perm key fs fs' :
  fs ≡ₚ fs' -> NoDup (map Tag (filter tagged fs)) ->
  valuesUnder key (filter tagged fs) = valuesUnder key (filter tagged fs').
Proof.
  intros Hp Hnd. unfold valuesUnder. f_equal. f_equal.
  apply perm_short; [by rewrite Hp | by apply filter_tag_le1].
Qed.

(** X12: the order of the fields has no part in the query when no tag is on
    two fields: two structs whose fields are the same up to their order,
    all tagged fields of supported types, give [Marshal] the same result,
    which is a success. *)
Theorem marshal_field_order (r : Request) (s s' : StructValue) :
  Fields s ≡ₚ Fields s' ->
  NoDup (map Tag (filter tagged (Fields s))) ->
  Forall (fun f => tagged f -> supportedType (FType f) = true) (Fields s) ->
  Marshal r (IPtrStruct s) = Marshal r (IPtrStruct s') /\
  (Marshal r (IPtrStruct s)).2 = Done.
Proof.
  intros Hp Hnd Hfs.
  assert (Hfs' : Forall (fun f => tagged f -> supportedType (FType f) = true) (Fields s'))
    by (by rewrite <- Hp).
  unfold Marshal. simpl.
  rewrite !marshalFields_supported by done. split; [| done].
  do 2 f_equal. f_equal. apply map_eq. intros key.
  rewrite !lookup_mapping, (valuesUnder_perm key _ _ Hp Hnd). done.
Qed.

(** *** Fields that cannot be marshalled *)

Lemma marshalFields_app sn pre : forall rest form,
  marshalFields sn (pre ++ rest) form =
  match marshalFields sn pre form with
  | (form', Done) => marshalFields sn rest form'
  | other => other
  end.
Proof.
  induction pre as [| f pre IH]; intros rest form; [done |]. simpl.
  destruct (decide (Tag f = EmptyString)); [apply IH |].
  destruct (marshalFormValues _ _ _) as [form' [| e |]]; [apply IH | done | done].
Qed.

Lemma marshalFormValue_unsupported tag f form :
  scalarKind (ValueKind f) = false ->
  marshalFormValue tag f form =
  (form, if flagRO f then Panicked
         else Failed (mkMarshalTypeError (typ f) (typ f, dat f) EmptyString EmptyString)).
Proof.
  unfold marshalFormValue. intros Hk.
  destruct (ValueKind f); try discriminate Hk; by destruct (flagRO f).
Qed.

Lemma marshalFormValues_unsupported tag f form :
  supportedType (typ f) = false ->
  marshalFormValues tag f form =
  if seqKind (ValueKind f) then
    match getElems (dat f) with
    | [] => (form, Done)
    | d :: _ =>
        (form, if flagRO f then Panicked
               else Failed (mkMarshalTypeError (typ f) (TypeElem (typ f), d) EmptyString
                              (TypeName (typ f))))
    end
  else
    (form, if flagRO f then Panicked
           else Failed (mkMarshalTypeError (typ f) (typ f, dat f) EmptyString EmptyString)).
Proof.
  unfold supportedType, typeOver, marshalFormValues. fold (ValueKind f). intros Hs.
  destruct (seqKind (ValueKind f)) eqn:Hseq.
  - replace (bool_decide (ValueKind f = Kind.Slice) || bool_decide (ValueKind f = Kind.Array))
      with true by (by destruct (ValueKind f)).
    destruct (getElems (dat f)) as [| d rest]; [done |]. simpl.
    rewrite marshalFormValue_unsupported by done. simpl. by destruct (flagRO f).
  - replace (bool_decide (ValueKind f = Kind.Slice) || bool_decide (ValueKind f = Kind.Array))
      with false by (by destruct (ValueKind f)).
    by apply marshalFormValue_unsupported.
Qed.

(** X13: a tagged field of a type that is not supported, reached by [Marshal]
    after fields that it can marshal.  A slice or an array without
    elements is passed over.  Otherwise [Marshal] stops, the request as it
    was: with a [MarshalTypeError] when the field is exported, which
    carries the type of the field, the names of the struct type and of the
    field, and as its value the value of the field, or the first element
    when the field is a slice or an array; with the panic of
    [Value.Interface] when the field is not exported. *)
Theorem marshal_unsupported_field (r : Request) (s : StructValue) pre f post :
  Fields s = pre ++ f :: post ->
  Forall (fun g => tagged g -> supportedType (FType g) = true) pre ->
  tagged f ->
  supportedType (FType f) = false ->
  Marshal r (IPtrStruct s) =
  match reported f with
  | None => Marshal r (IPtrStruct (mkStruct (SType s) (pre ++ post)))
  | Some v =>
      (r, if Exported f
          then Failed (MarshalTypeErr
                         (mkMarshalTypeError (FType f) v (TypeName (SType s)) (Name f)))
          else Panicked)
  end.
Proof.
  intros Hfs Hpre Ht Hs. unfold Marshal. simpl. rewrite Hfs.
  rewrite !marshalFields_app, !marshalFields_supported by done.
  simpl. rewrite decide_False by done.
  rewrite marshalFormValues_unsupported by done.
  unfold reported, ValueKind. simpl.
  destruct (seqKind (TypeKind (FType f))).
  - destruct (getElems (Content f)) as [| d rest]; [done |].
    by destruct (Exported f).
  - by destruct (Exported f).
Qed.

Lemma marshalFields_failed sn fs : forall form form' e,
  marshalFields sn fs form = (form', Failed e) ->
  exists f v, f ∈ fs /\ tagged f /\ Exported f = true /\
    supportedType (FType f) = false /\ reported f = Some v /\
    e = mkMarshalTypeError (FType f) v sn (Name f).
Proof.
  induction fs as [| f fs IH]; intros form form' e; [done |]. simpl.
  assert (Hrest : forall form, marshalFields sn fs form = (form', Failed e) ->
            exists g v, g ∈ f :: fs /\ tagged g /\ Exported g = true /\
              supportedType (FType g) = false /\ reported g = Some v /\
              e = mkMarshalTypeError (FType g) v sn (Name g)).
  { intros form0 E. destruct (IH _ _ _ E) as (g & v & Hg & ?).
    exists g, v. split; [by right | done]. }
  destruct (decide (Tag f = EmptyString)) as [Ht | Ht]; [apply Hrest |].
  destruct (supportedType (FType f)) eqn:Hs.
  - rewrite marshalFormValues_render by done. apply Hrest.
  - rewrite marshalFormValues_unsupported by done.
    unfold ValueKind. simpl.
    destruct (seqKind (TypeKind (FType f))) eqn:Hseq.
    + destruct (getElems (Content f)) as [| d rest] eqn:Hel; [apply Hrest |].
      destruct (Exported f) eqn:Hx; simpl; [| done].
      intros [= <- <-]. exists f, (TypeElem (FType f), d).
      unfold reported. rewrite Hseq, Hel. repeat split; try done. by left.
    + destruct (Exported f) eqn:Hx; simpl; [| done].
      intros [= <- <-]. exists f, (FType f, Content f).
      unfold reported. rewrite Hseq. repeat split; try done. by left.
Qed.

End Mapping.

(** ** The message of a MarshalTypeError *)
Section MarshalMessages.
Context `{Printing}.

(** X14: the [MarshalTypeError] that [Marshal] returns comes from an exported
    tagged field of a type that is not supported, and its message shows
    the value that could not be marshalled (for a slice or an array, its
    first element), between parentheses the type of the field, and the
    names of the struct type and of the field. *)
Theorem marshal_error_message (r : Request) (i : iface) :
  match Marshal r i with
  | (_, Failed (MarshalTypeErr e)) =>
      exists s f v,
        i = IPtrStruct s /\ f ∈ Fields s /\ tagged f /\ Exported f = true /\
        supportedType (FType f) = false /\ reported f = Some v /\
        MarshalTypeError_Error e
        = "form: cannot marshal " +:+ Sprint v +:+ " (" +:+ TypeString (FType f) +:+
          ") of Go struct field " +:+ TypeName (SType s) +:+ "." +:+ Name f +:+
          " into form data"
  | _ => True
  end.
Proof.
  unfold Marshal.
  destruct (bool_decide (rvKind i <> Kind.Pointer) || rvIsNil i); [done |].
  destruct i as [| | | | s]; simpl; try done.
  destruct (marshalFields _ _ _) as [form [| e |]] eqn:E; try done.
  destruct (marshalFields_failed _ _ _ _ _ E) as (f & v & Hf & Ht & Hx & Hs & Hr & ->).
  by exists s, f, v.
Qed.

End MarshalMessages.

(** ** The arguments that Marshal refuses *)
Section BothArguments.
Context `{FloatSyntax}.

(** X15: [Marshal] refuses what [Unmarshal] refuses, the nil interface, a
    value that is not a pointer, a nil pointer and a pointer to a variable
    that is not a struct: the request stays as it was, and the
    [InvalidMarshalError] carries the type of the argument.  Its message
    is "form: Marshal(nil)" without a type, "form: Marshal(non-pointer T)"
    for a type that is not a pointer type, and "form: Marshal(nil *T)" for
    a pointer, nil or not. *)
Theorem marshal_invalid_argument (r : Request) (i : iface) :
  rvElemStruct i = None ->
  Marshal r i = (r, Failed (InvalidMarshalError (TypeOf i))) /\
  Unmarshal r i = (i, Some (InvalidUnmarshalError (TypeOf i))) /\
  InvalidMarshalError_Error (TypeOf i)
  = match i with
    | INil => "form: Marshal(nil)"
    | IValue t =>
        if bool_decide (TypeKind t = Kind.Pointer)
        then "form: Marshal(nil " +:+ TypeString t +:+ ")"
        else "form: Marshal(non-pointer " +:+ TypeString t +:+ ")"
    | INilPtr e | IPtr e => "form: Marshal(nil *" +:+ TypeString e +:+ ")"
    | IPtrStruct s => EmptyString
    end.
Proof.
  intros Hi. destruct i as [| t | e | e | s]; try done.
  unfold Marshal, Unmarshal, InvalidMarshalError_Error. simpl.
  destruct (decide (TypeKind t = Kind.Pointer)) as [E | E].
  - rewrite (bool_decide_eq_false_2 (TypeKind t <> Kind.Pointer)) by (by intros ?).
    by rewrite (bool_decide_eq_true_2 _ E).
  - rewrite (bool_decide_eq_true_2 (TypeKind t <> Kind.Pointer)) by done.
    by rewrite (bool_decide_eq_false_2 _ E).
Qed.

End BothArguments.

(** ** The bytes of the query *)
Section Query.

Lemma allBytes_app P s t : allBytes P (s +:+ t) = allBytes P s && allBytes P t.
Proof.
  induction s as [| c s IH]; [done |]. rewrite append_cons. simpl.
  by rewrite IH, andb_assoc.
Qed.

Lemma QueryEscape_byte c :
  allBytes queryByte (Url.QueryEscape (String c EmptyString)) = true.
Proof. destruct c as [[] [] [] [] [] [] [] []]; vm_compute; reflexivity. Qed.

Lemma QueryEscape_cons c s :
  Url.QueryEscape (String c s) = Url.QueryEscape (String c EmptyString) +:+ Url.QueryEscape s.
Proof. simpl. by repeat case_match. Qed.

Lemma QueryEscape_bytes s : allBytes queryByte (Url.QueryEscape s) = true.
Proof.
  induction s as [| c s IH]; [done |].
  by rewrite QueryEscape_cons, allBytes_app, QueryEscape_byte, IH.
Qed.

Lemma Encode_bytes (v : Url.Values) : allBytes queryByte (Url.Encode v) = true.
Proof.
  unfold Url.Encode.
  generalize (merge_sort Url.str_le (map fst (map_to_list v))). intros keys.
  assert (Hinner : forall k vals buf, allBytes queryByte buf = true ->
            allBytes queryByte
              (foldl (fun buf val =>
                        (if decide (buf = EmptyString) then buf else buf +:+ "&") +:+
                        Url.QueryEscape k +:+ "=" +:+ Url.QueryEscape val) buf vals) = true).
  { intros k vals. induction vals as [| val vals IH]; intros buf Hbuf; [done |]. simpl.
    apply IH. rewrite !allBytes_app, !QueryEscape_bytes.
    case_decide; rewrite ?allBytes_app, Hbuf; done. }
  assert (Houter : forall buf, allBytes queryByte buf = true ->
            allBytes queryByte
              (foldl (fun buf k =>
                        foldl (fun buf val =>
                                 (if decide (buf = EmptyString) then buf else buf +:+ "&") +:+
                                 Url.QueryEscape k +:+ "=" +:+ Url.QueryEscape val)
                              buf (Url.index v k)) buf keys) = true).
  { induction keys as [| k keys IH]; intros buf Hbuf; [done |]. simpl.
    apply IH. by apply Hinner. }
  by apply Houter.
Qed.

(** X16: the query that [Marshal] writes is made of letters, digits, the
    bytes [-_.~], and the bytes [%], [+], [&] and [=] of the encoding:
    every other byte of a tag or of a value is escaped. *)
Theorem marshal_query_bytes (r : Request) (i : iface) :
  match Marshal r i with
  | (r', Done) => allBytes queryByte (RawQuery r') = true
  | _ => True
  end.
Proof.
  unfold Marshal.
  destruct (bool_decide (rvKind i <> Kind.Pointer) || rvIsNil i); [done |].
  destruct (rvElemStruct i) as [s |]; [| done].
  destruct (marshalFields _ _ _) as [form [| e |]]; try done.
  apply Encode_bytes.
Qed.

End Query.

(** ** The round trip into a target in use *)
Section UsedTarget.
Context `{FloatSyntax}.

Lemma decodeField_used form f f0 :
  shape f0 = shape f -> Exported f = true ->
  Url.index form (Tag f) = render (FType f) (Content f) ->
  decodeField form (zeroField f) = (Content f, None) ->
  decodeField form f0 = ((if decide (render (FType f) (Content f) = []) then Content f0
                          else Content f), None) /\
  decoded form f0 = merged f0 f.
Proof.
  intros Hsh Hx Hi Hz.
  assert (Hf0 : f0 = setContent (zeroField f) (Content f0)).
  { symmetry in Hsh. rewrite (shape_setContent f f0 Hsh) at 1. by destruct f. }
  assert (Hd : decodeField form f0
               = ((if decide (render (FType f) (Content f) = []) then Content f0
                   else Content f), None)).
  { rewrite Hf0 at 1. rewrite decodeField_setContent, Hz. simpl. rewrite Hi, Hx. simpl.
    by destruct (decide (render (FType f) (Content f) = [])) as [-> | E];
      [rewrite bool_decide_eq_true_2 | rewrite bool_decide_eq_false_2]. }
  split; [done |]. unfold decoded, merged. rewrite Hd. simpl.
  case_decide; [apply setContent_same |].
  symmetry. by apply shape_setContent.
Qed.

Lemma decoded_used form l0 l :
  Forall2 (fun f0 f => shape f0 = shape f) l0 l ->
  (forall f, f ∈ l ->
     Exported f = true /\
     Url.index form (Tag f) = render (FType f) (Content f) /\
     decodeField form (zeroField f) = (Content f, None)) ->
  decodeOk form l0 /\ map (decoded form) l0 = zip_with merged l0 l.
Proof.
  induction 1 as [| f0 f l0 l Hf Hl IH]; intros Hdec; [by split; [constructor |] |].
  destruct (Hdec f ltac:(by left)) as (Hx & Hi & Hz).
  destruct (decodeField_used form f f0 Hf Hx Hi Hz) as [Hd Hm].
  destruct IH as [IH1 IH2]; [intros g Hg; apply Hdec; by right |].
  split.
  - constructor; [by rewrite Hd | done].
  - simpl. by rewrite Hm, IH2.
Qed.

(** X17: the round trip into a target that already holds data: for a struct
    whose fields are exported, tagged with tags of their own and of exact
    types, [Unmarshal] of the mapping that [Marshal] built, into a struct
    of the same type with any contents, returns no error and leaves every
    field equal to the field marshalled, except the fields that had no
    string to give (a slice or an array without elements), which stay as
    the target had them. *)
Theorem roundtrip_into_used_target (s s0 : StructValue) :
  NoDup (map Tag (Fields s)) ->
  Forall roundTrips (Fields s) ->
  Forall (fun f => exactType (FType f) = true) (Fields s) ->
  SType s0 = SType s ->
  Forall2 (fun f0 f => shape f0 = shape f) (Fields s0) (Fields s) ->
  exists form,
    marshalFields (TypeName (SType s)) (Fields s) ∅ = (form, Done) /\
    forall r, Form r = form -> ParseFormErr r = None ->
      Unmarshal r (IPtrStruct s0)
      = (IPtrStruct (mkStruct (SType s) (zip_with merged (Fields s0) (Fields s))), None).
Proof.
  intros Hnd Hfs Hex HT Hsh. exists (mapping (Fields s) ∅).
  split.
  { apply marshalFields_mapping. eapply Forall_impl; [exact Hfs |].
    intros f (? & _ & ? & _). done. }
  intros r Hform Hp. rewrite Unmarshal_struct by done. rewrite Hform, HT.
  assert (Hdec : forall f, f ∈ Fields s ->
            Exported f = true /\
            Url.index (mapping (Fields s) ∅) (Tag f) = render (FType f) (Content f) /\
            decodeField (mapping (Fields s) ∅) (zeroField f) = (Content f, None)).
  { intros f Hf. rewrite Forall_forall in Hfs, Hex.
    destruct (Hfs f Hf) as (_ & Hx & _ & Hty).
    assert (Hi : Url.index (mapping (Fields s) ∅) (Tag f) = render (FType f) (Content f))
      by (rewrite index_mapping by done; done).
    repeat split; try done. unfold decodeField. simpl Tag. rewrite Hi.
    apply decode_render; auto. }
  pose proof (decoded_used _ _ _ Hsh Hdec) as Hall.
  destruct Hall as [Hok Hmap].
  by rewrite unmarshalFields_ok, Hmap.
Qed.

End UsedTarget.

(** ** The decimal of a float *)
Section Nearest.
Import Strconv Fmt.

Lemma digitsValue_app s t : forall n,
  digitsValue (s +:+ t) n = digitsValue t (digitsValue s n).
Proof.
  induction s as [| c s IH]; intros n; [done |].
  rewrite append_cons. simpl. apply IH.
Qed.

Lemma decimalValue_FormatUint u : 0 <= u -> decimalValue (FormatUint u) = u.
Proof.
  apply (digits_ind (fun u => decimalValue (FormatUint u) = u)).
  - intros v Hv. rewrite FormatUint_small by done. unfold decimalValue. simpl.
    rewrite code_digit by done. lia.
  - intros v Hv IH. rewrite FormatUint_step by done. unfold decimalValue in *.
    rewrite digitsValue_app, IH. simpl.
    rewrite code_digit by (apply Z.mod_pos_bound; lia).
    pose proof (Z.div_mod v 10 ltac:(lia)). lia.
Qed.

Lemma decimalValue_pad0 w s : decimalValue (pad0 w s) = decimalValue s.
Proof.
  unfold pad0. induction (w - String.length s)%nat as [| k IH]; [done |].
  simpl. unfold decimalValue in *. simpl. exact IH.
Qed.

Lemma roundHalfEven_nearest a b :
  0 < b -> 2 * Z.abs (roundHalfEven a b * b - a) <= b /\
           (2 * Z.abs (roundHalfEven a b * b - a) = b -> Z.even (roundHalfEven a b) = true).
Proof.
  intros Hb. unfold roundHalfEven.
  pose proof (Z.div_mod a b ltac:(lia)) as Hdm.
  pose proof (Z.mod_pos_bound a b Hb) as Hr.
  destruct (Z.compare_spec (2 * (a mod b)) b) as [E | E | E].
  - destruct (Z.even (a / b)) eqn:Hev.
    + split; [lia | done].
    + split; [lia |]. intros _. rewrite Z.even_add, Hev. done.
  - split; lia.
  - split; lia.
Qed.

Lemma fixedDigits_value q :
  0 <= q ->
  exists ip fr,
    fixedDigits 6 q = ip +:+ "." +:+ fr /\
    isNumeral ip = true /\ allDigits fr = true /\ String.length fr = 6%nat /\
    decimalValue ip * 10 ^ 6 + decimalValue fr = q.
Proof.
  intros Hq. unfold fixedDigits.
  pose proof (Z.div_mod q (10 ^ 6) ltac:(lia)) as Hdm.
  pose proof (Z.mod_pos_bound q (10 ^ 6) ltac:(lia)) as Hr.
  assert (Hd : 0 <= q / 10 ^ 6) by (apply Z.div_pos; lia).
  exists (FormatUint (q / 10 ^ 6)), (pad0 (Z.to_nat 6) (FormatUint (q mod 10 ^ 6))).
  split; [done |]. split; [| split; [| split]].
  - unfold isNumeral. by rewrite FormatUint_nonEmpty, FormatUint_digits.
  - apply allDigits_pad0. apply FormatUint_digits. lia.
  - rewrite length_pad0.
    pose proof (FormatUint_length_le (q mod 10 ^ 6) 6 ltac:(simpl; lia) ltac:(lia)).
    change (Z.to_nat 6) with 6%nat. lia.
  - rewrite decimalValue_pad0, !decimalValue_FormatUint by lia. lia.
Qed.

Lemma Sprintf_f_fmtF s m e :
  Sprintf_f (S754_finite s m e) = (if s then "-" else "") +:+ fmtF 6 m e.
Proof.
  destruct (fmtF_shape m e) as (_ & c & rest & Hb & Hc).
  exact (fmtFloat_finite false VerbF (S754_finite s m e) (fmtF 6 m e) c rest eq_refl Hb Hc).
Qed.

(** X18: a float that is finite and not zero, [(-1)^s * m * 2^e], is
    written by [Marshal] as its sign, when negative, and the decimal with
    six digits after the point that is nearest to [m * 2^e], the even one
    of two that are equally near: the string is [ip.fr] with [ip] a
    numeral and [fr] six digits, and the number [Q] that the digits of
    [ip] and [fr] denote together is within half a unit of [m * 2^e * 10^6]. *)
Theorem float_format_nearest (tag : string) (f : Reflect.Value) (form : Url.Values) s m e :
  ValueKind f = Kind.Float32 \/ ValueKind f = Kind.Float64 ->
  dat f = DFloat (S754_finite s m e) ->
  exists ip fr,
    marshalFormValue tag f form
    = (Url.Add tag ((if s then "-" else "") +:+ ip +:+ "." +:+ fr) form, Done) /\
    isNumeral ip = true /\ allDigits fr = true /\ String.length fr = 6%nat /\
    let Q := decimalValue ip * 10 ^ 6 + decimalValue fr in
    2 * Z.abs (Q * (fraction m e).2 - (fraction m e).1 * 10 ^ 6) <= (fraction m e).2 /\
    (2 * Z.abs (Q * (fraction m e).2 - (fraction m e).1 * 10 ^ 6) = (fraction m e).2 ->
     Z.even Q = true).
Proof.
  intros Hk Hd.
  assert (Hm : marshalFormValue tag f form
               = (Url.Add tag (Sprintf_f (S754_finite s m e)) form, Done)).
  { unfold marshalFormValue. rewrite Hd. by destruct Hk as [-> | ->]. }
  rewrite Hm, Sprintf_f_fmtF. unfold fmtF.
  pose proof (fraction_pos m e) as [Hn Hden].
  destruct (fraction m e) as [num den]. simpl in *.
  destruct (fixedDigits_value (roundHalfEven (num * 10 ^ 6) den)) as (ip & fr & -> & ? & ? & ? & HQ);
    [apply roundHalfEven_nonneg; lia |].
  exists ip, fr. repeat split; try done.
  all: rewrite HQ; by apply roundHalfEven_nearest.
Qed.

End Nearest.

(** ** Values of their types *)
Section Typed.
Context `{FloatSyntax}.







End Typed.

(** ** The further properties on concrete inputs *)

Lemma marshal_invalid_argument_witness :
  Marshal (Ex.request ∅) (IPtr (Basic Tfloat32))
  = (Ex.request ∅, Failed (InvalidMarshalError (Some (PointerTo (Basic Tfloat32))))) /\
  InvalidMarshalError_Error (Some (PointerTo (Basic Tfloat32)))
  = "form: Marshal(nil *float32)"%string.
Proof.
  destruct (marshal_invalid_argument (Ex.request ∅) (IPtr (Basic Tfloat32)) eq_refl)
    as (HM & _ & HE).
  split; [exact HM | exact HE].
Defined.

(** A key that is no tag of the struct changes nothing. *)
Lemma unmarshal_reads_only_tags_witness :
  Unmarshal (Ex.request (<["colour" := ["red"]]> (Ex.query ["24"])))
    (IPtrStruct (Ex.named (Basic Tint) true "" (DInt 0)))
  = Unmarshal (Ex.request (Ex.query ["24"]))
      (IPtrStruct (Ex.named (Basic Tint) true "" (DInt 0))).
Proof.
  apply unmarshal_reads_only_tags; [reflexivity |].
  intros f Hf. simpl in Hf.
  repeat (apply elem_of_cons in Hf as [-> | Hf]); [reflexivity | reflexivity |].
  by apply elem_of_nil in Hf.
Defined.

Lemma unmarshal_prior_content_witness :
  (Unmarshal (Ex.request (Ex.query ["24"]))
     (IPtrStruct (Ex.named (Basic Tint) true "" (DInt 0)))).2
  = (Unmarshal (Ex.request (Ex.query ["24"]))
       (IPtrStruct (Ex.named (Basic Tint) true "Jane" (DInt 7)))).2.
Proof.
  refine (proj1 (unmarshal_prior_content (Ex.request (Ex.query ["24"]))
                   (Ex.named (Basic Tint) true "" (DInt 0))
                   (Ex.named (Basic Tint) true "Jane" (DInt 7)) _ _)).
  - reflexivity.
  - repeat constructor.
Defined.

(** Three values into a slice that held one; and [TestInvalidSliceTypeError]. *)
Lemma slice_field_decoding_witness :
  (exists elems,
     fieldAfter (Unmarshal (Ex.request (Ex.query ["5"; "6"; "7"]))
                   (IPtrStruct (Ex.named (SliceOf (Basic Tint)) true "" (DSeq [DInt 1])))).1 1
     = Some (Ex.valField (SliceOf (Basic Tint)) true (DSeq elems)) /\
     length elems = 3%nat /\ elems !! 2%nat = Some (DInt 7)) /\
  Unmarshal (Ex.request (Ex.query ["5"; "value"]))
    (IPtrStruct (Ex.named (SliceOf (Basic Tint)) true "" (DSeq [DInt 1])))
  = (IPtrStruct (Ex.named (SliceOf (Basic Tint)) true "John" (DSeq [DInt 1])),
     Some (UnmarshalTypeErr
             (mkUnmarshalTypeError "[5, value]" (SliceOf (Basic Tint)) "s" "Val"
                (ENum (mkNumError "ParseInt" "value" ErrSyntax))))).
Proof.
  split.
  - destruct (proj1 (proj2 (slice_field_decoding (Ex.request (Ex.query ["5"; "6"; "7"]))
                (Ex.named (SliceOf (Basic Tint)) true "" (DSeq [DInt 1]))
                [Ex.nameField ""] (Ex.valField (SliceOf (Basic Tint)) true (DSeq [DInt 1])) []
                eq_refl eq_refl ltac:(repeat constructor) eq_refl eq_refl))
                ltac:(vm_compute; discriminate) ltac:(vm_compute; reflexivity))
      as (elems & Hfield & Hlen & Hpos).
    exists elems. split; [exact Hfield |]. split; [exact Hlen |].
    exact (Hpos 2%nat "7"%string ltac:(vm_compute; reflexivity)).
  - refine (proj2 (proj2 (slice_field_decoding (Ex.request (Ex.query ["5"; "value"]))
                (Ex.named (SliceOf (Basic Tint)) true "" (DSeq [DInt 1]))
                [Ex.nameField ""] (Ex.valField (SliceOf (Basic Tint)) true (DSeq [DInt 1])) []
                _ _ _ _ _))
              (typeError "value" (Basic Tint) (ENum (mkNumError "ParseInt" "value" ErrSyntax)))
              _).
    + reflexivity.
    + reflexivity.
    + repeat constructor.
    + reflexivity.
    + reflexivity.
    + vm_compute. reflexivity.
Defined.

(** Zeros in front, a sign, one past the width, and one past 64 bits. *)
Lemma unsigned_field_accepts_witness :
  parseFormValue (Sample.uint8 7) "0255" = (DUint 255, None) /\
  (exists ne, parseFormValue (Sample.uint8 7) "+5"
              = (DUint 7, Some (typeError "+5" (Basic Tuint8) (ENum ne)))) /\
  parseFormValue (Sample.uint8 7) "256"
  = (DUint 7, Some (typeError "256" (Basic Tuint8) (Errorf "256 overflows uint8 value"))) /\
  parseFormValue (Sample.uint64 7) "18446744073709551616"
  = (DUint 7, Some (typeError "18446744073709551616" (Basic Tuint64)
                      (ENum (mkNumError "ParseUint" "18446744073709551616" ErrRange)))).
Proof.
  split; [| split; [| split]].
  - exact (unsigned_field_accepts (Sample.uint8 7) "0255" eq_refl).
  - exact (unsigned_field_accepts (Sample.uint8 7) "+5" eq_refl).
  - exact (unsigned_field_accepts (Sample.uint8 7) "256" eq_refl).
  - exact (unsigned_field_accepts (Sample.uint64 7) "18446744073709551616" eq_refl).
Defined.

Lemma signed_field_accepts_witness :
  parseFormValue (Sample.int8 7) "-128" = (DInt (-128), None) /\
  parseFormValue (Sample.int8 7) "+05" = (DInt 5, None) /\
  parseFormValue (Sample.int8 7) "128"
  = (DInt 7, Some (typeError "128" (Basic Tint8) (Errorf "128 overflows int8 value"))) /\
  parseFormValue (Sample.int64 7) "9223372036854775808"
  = (DInt 7, Some (typeError "9223372036854775808" (Basic Tint64)
                     (ENum (mkNumError "ParseInt" "9223372036854775808" ErrRange)))) /\
  (exists ne, parseFormValue (Sample.int8 7) "1 "
              = (DInt 7, Some (typeError "1 " (Basic Tint8) (ENum ne)))).
Proof.
  split; [| split; [| split; [| split]]].
  - exact (signed_field_accepts (Sample.int8 7) "-128" eq_refl).
  - exact (signed_field_accepts (Sample.int8 7) "+05" eq_refl).
  - exact (signed_field_accepts (Sample.int8 7) "128" eq_refl).
  - exact (signed_field_accepts (Sample.int64 7) "9223372036854775808" eq_refl).
  - exact (signed_field_accepts (Sample.int8 7) "1 " eq_refl).
Defined.

Lemma empty_value_is_a_value_witness :
  parseFormValues (Sample.int8 7) [EmptyString]
  = (DInt 7, Some (typeError "" (Basic Tint8) (ENum (mkNumError "ParseInt" "" ErrSyntax)))) /\
  parseFormValues (mkValue (Basic Tstring) (DString "old") false) [EmptyString]
  = (DString "", None).
Proof.
  split.
  - exact (empty_value_is_a_value (Sample.int8 7) eq_refl eq_refl).
  - exact (empty_value_is_a_value (mkValue (Basic Tstring) (DString "old") false)
             eq_refl eq_refl).
Defined.

(** Two fields with one tag, and a slice without elements. *)
Lemma marshal_mapping_witness :
  (exists form,
     marshalFields "s" (Fields (Ex.sameTag 1 2)) ∅ = (form, Done) /\
     form !! "x"%string = Some ["1"; "2"]%string /\ form !! ""%string = None) /\
  (exists form,
     marshalFields "basket" (Fields (Sample.basket [] 3)) ∅ = (form, Done) /\
     form !! "items"%string = None /\ form !! "n"%string = Some ["3"%string]).
Proof.
  split.
  - destruct (marshal_mapping (Ex.request ∅) (Ex.sameTag 1 2)) as (form & _ & HM & Hk).
    + repeat constructor.
    + exists form. split; [exact HM |]. split; [exact (Hk "x"%string) | exact (Hk ""%string)].
  - destruct (marshal_mapping (Ex.request ∅) (Sample.basket [] 3)) as (form & _ & HM & Hk).
    + repeat constructor.
    + exists form. split; [exact HM |].
      split; [exact (Hk "items"%string) | exact (Hk "n"%string)].
Defined.

Lemma marshal_field_order_witness :
  Marshal (Ex.request ∅) (IPtrStruct (Sample.basket ["a"; "b"] 3))
  = Marshal (Ex.request ∅) (IPtrStruct (Sample.basket' ["a"; "b"] 3)).
Proof.
  refine (proj1 (marshal_field_order (Ex.request ∅) (Sample.basket ["a"; "b"] 3)
                   (Sample.basket' ["a"; "b"] 3) _ _ _)).
  - apply perm_swap.
  - apply (bool_decide_unpack _). vm_compute. exact I.
  - repeat constructor.
Defined.

(** [TestSliceMarshalTypeError]; the same field, not exported; and a
    slice of maps without elements. *)
Lemma marshal_unsupported_field_witness :
  Marshal (Ex.request ∅)
    (IPtrStruct (Ex.single (SliceOf Ex.Tmap) (DSeq [DOpaque "map[test:123]"])))
  = (Ex.request ∅,
     Failed (MarshalTypeErr
               (mkMarshalTypeError (SliceOf Ex.Tmap) (Ex.Tmap, DOpaque "map[test:123]")
                  "s" "A"))) /\
  Marshal (Ex.request ∅)
    (IPtrStruct (mkStruct (Ex.structType "s")
                   [Ex.valField (SliceOf Ex.Tmap) false (DSeq [DOpaque "map[test:123]"])]))
  = (Ex.request ∅, Panicked) /\
  Marshal (Ex.request ∅) (IPtrStruct (Ex.single (SliceOf Ex.Tmap) (DSeq [])))
  = (Ex.request ∅, Done).
Proof.
  split; [| split].
  - refine (marshal_unsupported_field (Ex.request ∅)
              (Ex.single (SliceOf Ex.Tmap) (DSeq [DOpaque "map[test:123]"]))
              [] (mkField "A" (SliceOf Ex.Tmap) "a" true (DSeq [DOpaque "map[test:123]"])) []
              _ _ _ _).
    + reflexivity.
    + constructor.
    + discriminate.
    + reflexivity.
  - refine (marshal_unsupported_field (Ex.request ∅)
              (mkStruct (Ex.structType "s")
                 [Ex.valField (SliceOf Ex.Tmap) false (DSeq [DOpaque "map[test:123]"])])
              [] (Ex.valField (SliceOf Ex.Tmap) false (DSeq [DOpaque "map[test:123]"])) []
              _ _ _ _).
    + reflexivity.
    + constructor.
    + discriminate.
    + reflexivity.
  - refine (marshal_unsupported_field (Ex.request ∅)
              (Ex.single (SliceOf Ex.Tmap) (DSeq []))
              [] (mkField "A" (SliceOf Ex.Tmap) "a" true (DSeq [])) []
              _ _ _ _).
    + reflexivity.
    + constructor.
    + discriminate.
    + reflexivity.
Defined.

(** A basket without items, into a basket that held one: the number is
    taken, the item stays. *)
Lemma roundtrip_into_used_target_witness :
  exists form,
    marshalFields "basket" (Fields (Sample.basket [] 3)) ∅ = (form, Done) /\
    Unmarshal (Ex.request form) (IPtrStruct (Sample.basket ["old"] 9))
    = (IPtrStruct (Sample.basket ["old"] 3), None).
Proof.
  destruct (roundtrip_into_used_target (Sample.basket [] 3) (Sample.basket ["old"] 9))
    as (form & HM & Hall).
  - apply (bool_decide_unpack _). vm_compute. exact I.
  - repeat constructor; discriminate.
  - repeat constructor.
  - reflexivity.
  - repeat constructor.
  - exists form. split; [exact HM |]. exact (Hall (Ex.request form) eq_refl eq_refl).
Defined.

(** The number does not convert and [Unmarshal] stops there; the items,
    with no value under their tag, stay. *)
Lemma unmarshal_frame_witness :
  fieldAfter (Unmarshal (Ex.request {["n" := ["x"]]})
                (IPtrStruct (Sample.basket' ["old"] 9))).1 1
  = Some (mkField "Items" (SliceOf (Basic Tstring)) "items" true (DSeq [DString "old"])).
Proof.
  refine (unmarshal_frame (Ex.request {["n" := ["x"]]}) (Sample.basket' ["old"] 9) 1
            (mkField "Items" (SliceOf (Basic Tstring)) "items" true (DSeq [DString "old"]))
            _ _).
  - reflexivity.
  - left. reflexivity.
Defined.

(** The [float32] nearest to 5.349, as in [TestFloatMarshal]: 5.349000. *)
Lemma float_format_nearest_witness :
  exists ip fr,
    marshalFormValue "a"
      (mkValue (Basic Tfloat32) (DFloat (S754_finite false 11217666 (-21))) false) ∅
    = (Url.Add "a" (ip +:+ "." +:+ fr) ∅, Done) /\
    decimalValue ip * 10 ^ 6 + decimalValue fr = 5349000.
Proof.
  destruct (float_format_nearest "a"
              (mkValue (Basic Tfloat32) (DFloat (S754_finite false 11217666 (-21))) false) ∅
              false 11217666 (-21) (or_introl eq_refl) eq_refl)
    as (ip & fr & Hm & _ & _ & _ & Hq & _).
  exists ip, fr. split; [exact Hm |].
  simpl in Hq. lia.
Defined.


(** ** More tests of the package *)

(** [TestInvalidArrayTypeError], [TestUnmarshalMultipleValuesToNonSlice] and
    [TestInvalidUnmarshalType]: the messages. *)
Example TestUnmarshalMessages `{Printing} :
  UnmarshalTypeError_Error
    (mkUnmarshalTypeError "[5, 6, value]" (ArrayOf 2 (Basic Tint)) "s" "Val"
       (cannotUse 3 (Basic Tint) (ArrayOf 2 (Basic Tint))))
  = "form: cannot unmarshal [5, 6, value] into Go struct field s.Val of type [2]int: cannot use [3]int as [2]int value in struct"%string /\
  UnmarshalTypeError_Error
    (mkUnmarshalTypeError "[5, 6]" (Basic Tint) "s" "Val" moreThanOne)
  = "form: cannot unmarshal [5, 6] into Go struct field s.Val of type int: cannot unmarshal more than one value for non-slice field"%string /\
  UnmarshalTypeError_Error
    (mkUnmarshalTypeError "257" (Basic Tint8) "s" "Val" (overflows "257" (Basic Tint8)))
  = "form: cannot unmarshal 257 into Go struct field s.Val of type int8: 257 overflows int8 value"%string.
Proof. repeat split. Qed.

(** [TestSliceMarshalTypeError]: the message, given the format [%v] of the map. *)
Example TestMarshalMessage `{Printing} :
  Sprint (Ex.Tmap, DOpaque "map[test:123]") = "map[test:123]"%string ->
  MarshalTypeError_Error
    (mkMarshalTypeError (SliceOf Ex.Tmap) (Ex.Tmap, DOpaque "map[test:123]") "s" "A")
  = "form: cannot marshal map[test:123] ([]map[string]string) of Go struct field s.A into form data"%string.
Proof. unfold MarshalTypeError_Error. simpl. by intros ->. Qed.
